(** * pkg-verify: the path resolver and the dependency-graph verifier

    A shallow embedding of [lib/verify-bak.js] (the [Verifier] class and its
    helpers [getModulePaths], [stat], [resolve], [read], [hasBinding]) on the
    POSIX platform, with the properties of the specification stated over it.

    Node's own modules ([fs], [path], [JSON], [process]) and the repository's
    [semver] module are collaborators of the verifier: they are the fields
    of a [World] record the embedding is parameterised by. *)

From Stdlib Require Import ZArith Lia List String Ascii Bool.
From stdpp Require Import base gmap sets list strings pretty.

#[local] Set Warnings "-register-all,-clear-no-such-hyp".
Local Open Scope string_scope.
Local Open Scope Z_scope.
Local Open Scope list_scope.

(** ** JavaScript values *)

(** The values [JSON.parse] produces, and [undefined] for an absent
    property. Numbers are kept as integers: the verifier only tests numbers
    for truthiness, compares them with its sentinels [-1] and [-2], and
    prints them. The properties of an object are listed in [Object.keys]
    order, each key once. *)
Inductive JSValue : Type :=
| JUndefined
| JNull
| JBool (b : bool)
| JNum (n : Z)
| JStr (s : string)
| JArr (elems : list JSValue)
| JObj (props : list (string * JSValue)).

(** [typeof v] *)
Definition typeof (v : JSValue) : string :=
  match v with
  | JUndefined => "undefined"
  | JNull => "object"
  | JBool _ => "boolean"
  | JNum _ => "number"
  | JStr _ => "string"
  | JArr _ => "object"
  | JObj _ => "object"
  end.

(** [Boolean(v)]: what [!v] negates. *)
Definition truthy (v : JSValue) : bool :=
  match v with
  | JUndefined => false
  | JNull => false
  | JBool b => b
  | JNum n => negb (n =? 0)
  | JStr s => negb (String.eqb s "")
  | JArr _ => true
  | JObj _ => true
  end.

(** [v === s] for a string [s]. *)
Definition strict_eq_str (v : JSValue) (s : string) : bool :=
  match v with
  | JStr t => String.eqb t s
  | _ => false
  end.

(** [v === n] for a number [n]. *)
Definition strict_eq_num (v : JSValue) (n : Z) : bool :=
  match v with
  | JNum m => m =? n
  | _ => false
  end.

Fixpoint assoc (k : string) (props : list (string * JSValue)) : option JSValue :=
  match props with
  | [] => None
  | (k', v) :: rest => if String.eqb k' k then Some v else assoc k rest
  end.

(** The index keys of an array, ["0"], ["1"], ... paired with its elements. *)
Definition index_props (elems : list JSValue) : list (string * JSValue) :=
  zip (map (fun i : nat => pretty i) (seq 0 (List.length elems))) elems.

(** The own enumerable properties of a value, in [Object.keys] order. *)
Definition own_props (v : JSValue) : list (string * JSValue) :=
  match v with
  | JObj props => props
  | JArr elems => index_props elems
  | _ => []
  end.

(** [Object.keys(v)] *)
Definition Object_keys (v : JSValue) : list string := map fst (own_props v).

(** [v[k]]: [None] is the [TypeError] of reading a property of [null] or
    [undefined]. The verifier reads [name], [version] and the three
    dependency fields of a manifest, and the own keys of a dependency map;
    none of these is found on a prototype, so only own properties are
    looked up. *)
Definition get_prop (v : JSValue) (k : string) : option JSValue :=
  match v with
  | JUndefined | JNull => None
  | _ => Some (default JUndefined (assoc k (own_props v)))
  end.

(** ** The world outside the verifier *)

(** [fs.statSync(filename)]: it throws (with an [errno], which Node documents
    as a negative number, or without one) or returns a [Stats] whose
    [isDirectory()] is the boolean. *)
Inductive StatResult : Type :=
| StatThrows (errno : option positive)
| StatOk (isDirectory : bool).

Record World : Type := {
  (** [Path.resolve(...segments)] *)
  Path_resolve : list string -> string;
  (** [Path.basename(path)] *)
  Path_basename : string -> string;
  fs_statSync : string -> StatResult;
  (** [fs.lstatSync(filename).isFile()], [None] when [lstatSync] throws *)
  fs_lstatSync_isFile : string -> option bool;
  (** [fs.readFileSync(filename, 'utf8')], [None] when it throws *)
  fs_readFileSync : string -> option string;
  (** [JSON.parse(data)], [None] when it throws *)
  JSON_parse : string -> option JSValue;
  (** truthiness of [semver.valid(version)] *)
  semver_valid : string -> bool;
  (** [semver.satisfies(version, range)] *)
  semver_satisfies : string -> string -> bool;
  (** [process.env.HOME] *)
  env_HOME : option string;
  (** [process.env['NODE_PATH']] *)
  env_NODE_PATH : option string;
  process_execPath : string;
  (** [String(n)] for a number beyond the safe integers, which is printed
      from the shortest decimal form of its double, with an exponent from
      [1e+21] on *)
  Number_toString : Z -> string
}.

(** [String(v)], as a template literal interpolates it; [None] is the
    [TypeError] of a value that has no primitive form. A parsed object has
    the methods of [Object.prototype], and [Object.prototype.toString] gives
    ["[object Object]"]; but an own property [toString] hides that method
    and, a parsed value never being a function, cannot be called, and
    [valueOf] gives no primitive either. An array is joined by commas, with
    [null] printed as the empty string; the conversion of an element can
    fail in turn. A safe integer is printed with all its digits. *)
Fixpoint ToString (w : World) (v : JSValue) : option string :=
  match v with
  | JUndefined => Some "undefined"
  | JNull => Some "null"
  | JBool true => Some "true"
  | JBool false => Some "false"
  | JNum n =>
      Some (if Z.abs n <=? 2 ^ 53 then pretty n else Number_toString w n)
  | JStr s => Some s
  | JArr elems =>
      String.concat "," <$>
        mapM (fun e => match e with
                       | JUndefined | JNull => Some ""
                       | _ => ToString w e
                       end) elems
  | JObj props =>
      match assoc "toString" props with
      | Some _ => None
      | None => Some "[object Object]"
      end
  end.

(** ** String primitives *)

(** [s.charCodeAt(i)]; [-1] stands for the [NaN] of an index out of range,
    which equals no character code. *)
Definition charCodeAt (s : string) (i : nat) : Z :=
  match String.get i s with
  | Some c => Z.of_N (N_of_ascii c)
  | None => -1
  end.

(** [s.slice(0, last)] *)
Definition slice0 (s : string) (last : nat) : string := substring 0 last s.

(** [s.split(d)] for a one-character delimiter [d]: the pieces between the
    occurrences of [d], so one piece more than there are occurrences. *)
Fixpoint split (d : ascii) (s : string) : list string :=
  match s with
  | EmptyString => [""]
  | String c rest =>
      if Ascii.eqb c d then "" :: split d rest
      else
        match split d rest with
        | piece :: pieces => String c piece :: pieces
        | [] => [String c ""]
        end
  end.

(** [Boolean(s)] for a string, and for an environment variable that may be
    unset. *)
Definition nonempty (s : string) : bool := negb (String.eqb s "").

(** ** Search paths (POSIX) *)

(** [Path.delimiter] on POSIX *)
Definition Path_delimiter : ascii := ":"%char.

Definition globalPaths (w : World) : list string :=
  let home := env_HOME w in
  let prefix := Path_resolve w [process_execPath w; ".."; ".."] in
  let paths := [Path_resolve w [prefix; "lib"; "node"]] in
  let paths :=
    match home with
    | Some h =>
        if nonempty h then
          Path_resolve w [h; ".node_modules"]
            :: Path_resolve w [h; ".node_libraries"] :: paths
        else paths
    | None => paths
    end in
  match env_NODE_PATH w with
  | Some node =>
      if nonempty node then
        let parts := split Path_delimiter node in
        let parts := List.filter nonempty parts in
        parts ++ paths
      else paths
  | None => paths
  end.

(** The characters of ["node_modules"], last first. *)
Definition nmChars : list Z :=
  [115; 101; 108; 117; 100; 111; 109; 95; 101; 100; 111; 110].
Definition nmLen : Z := 12.

(** The loop [for (let i = from.length - 1; i >= 0; --i)] of
    [getModulePaths]: [n] is [i + 1], so that [n = 0] is the exit. *)
Fixpoint getModulePaths_loop (from : string) (n : nat)
    (paths : list string) (last : nat) (p : Z) : list string :=
  match n with
  | O => paths
  | S i =>
      let code := charCodeAt from i in
      if code =? 47 then
        let paths :=
          if negb (p =? nmLen)
          then paths ++ [slice0 from last +:+ "/node_modules"]
          else paths in
        getModulePaths_loop from i paths i 0
      else if negb (p =? -1) then
        if bool_decide (nmChars !! Z.to_nat p = Some code)
        then getModulePaths_loop from i paths last (p + 1)
        else getModulePaths_loop from i paths last (-1)
      else getModulePaths_loop from i paths last p
  end.

Definition getModulePaths (w : World) (from : string) : list string :=
  let from := Path_resolve w [from] in
  if String.eqb from "/" then "/node_modules" :: globalPaths w
  else
    let paths :=
      getModulePaths_loop from (String.length from) [] (String.length from) 0 in
    let paths := paths ++ ["/node_modules"] in
    paths ++ globalPaths w.

(** ** The resolver *)

Definition stat (w : World) (filename : string) : Z :=
  match fs_statSync w filename with
  | StatThrows (Some errno) => Z.neg errno
  | StatThrows None => -1
  | StatOk true => 1
  | StatOk false => 0
  end.

(** The loop [for (const path of paths)] of [resolve]. *)
Fixpoint resolve_loop (w : World) (name : string) (paths : list string)
    : option string :=
  match paths with
  | [] => None
  | path :: rest =>
      if stat w path <? 1 then resolve_loop w name rest
      else
        let base := Path_resolve w [path; name] in
        if stat w base <? 0 then resolve_loop w name rest
        else Some base
  end.

(** [name[0] === '.' || name[0] === '/'] *)
Definition is_path_marker (c : option ascii) : bool :=
  match c with
  | Some c => Ascii.eqb c "."%char || Ascii.eqb c "/"%char
  | None => false
  end.

(** [resolve(name, dirname)]: [None] is [null]. *)
Definition resolve (w : World) (name dirname : string) : option string :=
  if (0 <? String.length name)%nat && is_path_marker (String.get 0 name) then
    let base := Path_resolve w [dirname; name] in
    if stat w base <? 0 then None else Some base
  else resolve_loop w name (getModulePaths w dirname).

(** ** Messages, events and the verifier's state *)

(** The messages the verifier builds, one constructor per template literal
    of the source, with the strings it interpolates; [render] gives the
    text. [pkgName] is the string form of a [pkg.name]. *)
Inductive Msg : Type :=
| MissingManifest
| OpeningMain (moddir : string)
| UnreadableManifest
| MalformedManifest
| NameMismatch (name pkgName : string)
| OpenedMain (pkgName : string)
| Verifying (pkgName dirname : string)
| InvalidFieldType (field : string)
| PackageValid (pkgName : string)
| InvalidName (field : string)
| InvalidRange (field name : string)
| MissingOptionalDependency (name expect : string)
| MissingDependency (name expect : string)
| OpeningSub (moddir : string)
| UnreadableDependency (name expect : string)
| MalformedDependency (name expect : string)
| NoVersion (name expect : string)
| InvalidVersion (name expect version : string)
| UnmetVersion (name expect version : string)
| ValidVersion (name version expect : string).

Definition render (m : Msg) : string :=
  match m with
  | MissingManifest => "Missing package.json!"
  | OpeningMain moddir => "Opening main package.json in " +:+ moddir +:+ "."
  | UnreadableManifest => "Could not open package.json!"
  | MalformedManifest => "Malformed package.json!"
  | NameMismatch name pkgName =>
      "Package name mismatch: " +:+ name +:+ " != " +:+ pkgName +:+ "."
  | OpenedMain pkgName => "Opened package.json for " +:+ pkgName +:+ "."
  | Verifying pkgName dirname =>
      "Verifying package " +:+ pkgName +:+ " at " +:+ dirname +:+ "."
  | InvalidFieldType field => "Invalid field in package.json: " +:+ field +:+ "."
  | PackageValid pkgName => "Package " +:+ pkgName +:+ " is valid!"
  | InvalidName field => "Invalid name in " +:+ field +:+ "."
  | InvalidRange field name => "Invalid field in " +:+ field +:+ ": " +:+ name +:+ "."
  | MissingOptionalDependency name expect =>
      "Missing optional dependency: " +:+ name +:+ "@" +:+ expect +:+ "."
  | MissingDependency name expect =>
      "Missing dependency: " +:+ name +:+ "@" +:+ expect +:+ "."
  | OpeningSub moddir => "Opening sub package.json in " +:+ moddir +:+ "."
  | UnreadableDependency name expect =>
      "Cannot access package.json: " +:+ name +:+ "@" +:+ expect +:+ "."
  | MalformedDependency name expect =>
      "Malformed package.json: " +:+ name +:+ "@" +:+ expect +:+ "."
  | NoVersion name expect =>
      "No version in package.json: " +:+ name +:+ "@" +:+ expect +:+ "."
  | InvalidVersion name expect version =>
      "Invalid version for " +:+ name +:+ "@" +:+ expect +:+ ": " +:+ version +:+ "."
  | UnmetVersion name expect version =>
      "Unmet dependency version " +:+ name +:+ "@" +:+ expect +:+ ": "
        +:+ version +:+ "."
  | ValidVersion name version expect =>
      "Valid version: " +:+ name +:+ "@" +:+ version +:+ " satisfies "
        +:+ expect +:+ "."
  end.

(** What a run does that can be observed from outside: the calls of
    [this.debug] and of [this.error] (whether or not a hook is installed to
    print them) and the calls of [fs.readFileSync], in program order. *)
Inductive Event : Type :=
| EDebug (m : Msg)
| EError (m : Msg)
| ERead (filename : string).

(** The fields of a [Verifier]: [cache] and [bindings] are objects without
    prototype used as sets of keys. *)
Record State : Type := {
  cache : gset string;
  bindings : gset string;
  trace : list Event
}.

Definition new_Verifier : State :=
  {| cache := ∅; bindings := ∅; trace := [] |}.

Definition emit (e : Event) (st : State) : State :=
  {| cache := cache st; bindings := bindings st; trace := trace st ++ [e] |}.

Definition cache_add (dirname : string) (st : State) : State :=
  {| cache := {[dirname]} ∪ cache st; bindings := bindings st;
     trace := trace st |}.

Definition bindings_add (base : string) (st : State) : State :=
  {| cache := cache st; bindings := {[base]} ∪ bindings st;
     trace := trace st |}.

(** What a call of [options.error] does: return, or not (it throws, or it
    ends the process). *)
Inductive HookOutcome : Type := Returns | Raises.

Record Options : Type := {
  (** whether [options.debug] is set *)
  opt_debug : bool;
  (** [options.error], from the message to what the call does *)
  opt_error : option (string -> HookOutcome)
}.

Inductive Exn : Type :=
| ErrorThrown (msg : string)      (** [throw new Error(msg)] of [Verifier.error] *)
| HookRaised (msg : string)       (** [options.error(msg)] did not return *)
| TypeError.                      (** a property of [null] was read, or a
                                      value without a string form printed *)

Inductive Outcome : Type :=
| Done (st : State)
| Thrown (st : State) (e : Exn)
| OutOfFuel.

Definition bind (r : Outcome) (k : State -> Outcome) : Outcome :=
  match r with
  | Done st => k st
  | Thrown st e => Thrown st e
  | OutOfFuel => OutOfFuel
  end.

Notation "'let!' st ':=' r 'in' k" := (bind r (fun st => k))
  (at level 10, st name, r at level 100, k at level 200, only parsing).

(** The three dependency fields, in the order they are verified. *)
Definition fields : list string :=
  ["dependencies"; "peerDependencies"; "optionalDependencies"].

(** ** The verifier *)

Section Verifier.

Variable w : World.
Variable o : Options.

(** [this.debug(msg)] *)
Definition debug (m : Msg) (st : State) : State := emit (EDebug m) st.

(** [this.error(msg)] *)
Definition error (m : Msg) (st : State) : Outcome :=
  let st := emit (EError m) st in
  match opt_error o with
  | Some hook =>
      match hook (render m) with
      | Returns => Done st
      | Raises => Thrown st (HookRaised (render m))
      end
  | None => Thrown st (ErrorThrown (render m))
  end.

(** [read(moddir)]: the sentinels [-1] and [-2] or the parsed manifest. *)
Definition read (moddir : string) (st : State) : JSValue * State :=
  let filename := Path_resolve w [moddir; "package.json"] in
  let st := emit (ERead filename) st in
  match fs_readFileSync w filename with
  | None => (JNum (-1), st)
  | Some data =>
      match JSON_parse w data with
      | Some v => (v, st)
      | None => (JNum (-2), st)
      end
  end.

Definition hasBinding (moddir : string) : bool :=
  let filename := Path_resolve w [moddir; "binding.gyp"] in
  match fs_lstatSync_isFile w filename with
  | None => false
  | Some isFile => isFile
  end.

(** [name.indexOf('://') !== -1] *)
Definition has_scheme (name : string) : bool :=
  match String.index 0 "://" name with
  | Some _ => true
  | None => false
  end.

(** The body of the loop of [verifyDeps], for one [name] of
    [Object.keys(deps)]; [Done] is both [continue] and the end of the body.
    [verifyPackage] is the method the body ends with. *)
Definition verifyDep (verifyPackage : JSValue -> string -> State -> Outcome)
    (field : string) (deps : JSValue) (dirname : string) (name : string)
    (st : State) : Outcome :=
  if (String.length name =? 0)%nat then error (InvalidName field) st
  else if bool_decide (String.get 0 name = Some "@"%char) then Done st
  else if has_scheme name then Done st
  else
    match get_prop deps name with
    | None => Thrown st TypeError
    | Some (JStr expect) =>
        match resolve w name dirname with
        | None =>
            if String.eqb field "optionalDependencies"
            then Done (debug (MissingOptionalDependency name expect) st)
            else error (MissingDependency name expect) st
        | Some moddir =>
            let st := debug (OpeningSub moddir) st in
            let '(pkg, st) := read moddir st in
            if strict_eq_num pkg (-1) then
              error (UnreadableDependency name expect) st
            else if strict_eq_num pkg (-2) then
              error (MalformedDependency name expect) st
            else if negb (truthy pkg) then
              error (NoVersion name expect) st
            else
              match get_prop pkg "version" with
              | None => Thrown st TypeError
              | Some (JStr version) =>
                  let! st :=
                    if negb (semver_valid w version) then
                      error (InvalidVersion name expect version) st
                    else if negb (semver_satisfies w version expect) then
                      error (UnmetVersion name expect version) st
                    else Done st in
                  let st := debug (ValidVersion name version expect) st in
                  verifyPackage pkg moddir st
              | Some _ => error (NoVersion name expect) st
              end
        end
    | Some _ => error (InvalidRange field name) st
    end.

(** [for (const name of Object.keys(deps))] *)
Fixpoint verifyDeps_loop (verifyPackage : JSValue -> string -> State -> Outcome)
    (field : string) (deps : JSValue) (dirname : string) (names : list string)
    (st : State) : Outcome :=
  match names with
  | [] => Done st
  | name :: rest =>
      let! st := verifyDep verifyPackage field deps dirname name st in
      verifyDeps_loop verifyPackage field deps dirname rest st
  end.

Definition verifyDeps (verifyPackage : JSValue -> string -> State -> Outcome)
    (field : string) (deps : JSValue) (dirname : string) (st : State)
    : Outcome :=
  verifyDeps_loop verifyPackage field deps dirname (Object_keys deps) st.

(** [for (const field of fields)] of [verifyPackage] *)
Fixpoint verifyFields (verifyPackage : JSValue -> string -> State -> Outcome)
    (fs : list string) (pkg : JSValue) (dirname : string) (st : State)
    : Outcome :=
  match fs with
  | [] => Done st
  | field :: rest =>
      match get_prop pkg field with
      | None => Thrown st TypeError
      | Some deps =>
          if negb (truthy deps) then
            verifyFields verifyPackage rest pkg dirname st
          else if negb (String.eqb (typeof deps) "object") then
            let! st := error (InvalidFieldType field) st in
            verifyFields verifyPackage rest pkg dirname st
          else
            let! st := verifyDeps verifyPackage field deps dirname st in
            verifyFields verifyPackage rest pkg dirname st
      end
  end.

(** [Verifier.verifyPackage(pkg, dirname)]. The method calls itself through
    [verifyDeps]; [fuel] bounds the depth of these calls. The message of
    its first call of [this.debug] is built, and [pkg.name] converted to a
    string, after the directory has been marked; the message of the last
    call prints the same name again. *)
Fixpoint verifyPackage (fuel : nat) (pkg : JSValue) (dirname : string)
    (st : State) : Outcome :=
  match fuel with
  | O => OutOfFuel
  | S fuel =>
      if bool_decide (dirname ∈ cache st) then Done st
      else
        let st := cache_add dirname st in
        let st :=
          if hasBinding dirname
          then bindings_add (Path_basename w dirname) st
          else st in
        match get_prop pkg "name" with
        | None => Thrown st TypeError
        | Some pkgName =>
            match ToString w pkgName with
            | None => Thrown st TypeError
            | Some text =>
                let st := debug (Verifying text dirname) st in
                let! st :=
                  verifyFields (verifyPackage fuel) fields pkg dirname st in
                Done (debug (PackageValid text) st)
            end
        end
  end.

(** [Verifier.verify(name, dirname)] *)
Definition verify (fuel : nat) (name dirname : string) (st : State)
    : Outcome :=
  match resolve w name dirname with
  | None => error MissingManifest st
  | Some moddir =>
      let st := debug (OpeningMain moddir) st in
      let '(pkg, st) := read moddir st in
      if strict_eq_num pkg (-1) then error UnreadableManifest st
      else if strict_eq_num pkg (-2) then error MalformedManifest st
      else
        match get_prop pkg "name" with
        | None => Thrown st TypeError
        | Some pkgName =>
            if negb (strict_eq_str pkgName name) then
              match ToString w pkgName with
              | None => Thrown st TypeError
              | Some text => error (NameMismatch name text) st
              end
            else if negb (truthy pkg) || negb (String.eqb (typeof pkg) "object")
            then error MissingManifest st
            else
              match ToString w pkgName with
              | None => Thrown st TypeError
              | Some text =>
                  let st := debug (OpenedMain text) st in
                  verifyPackage fuel pkg moddir st
              end
        end
  end.

End Verifier.

(** ** Example worlds *)

(** A model of Node's [path.resolve] and [path.basename] on POSIX, for the
    example worlds below: the segments of the arguments are pushed on a
    stack from left to right, an absolute argument restarts from the root,
    [.] and empty segments are dropped and [..] pops. *)
Module Posix.

Definition push_segment (stack : list string) (seg : string) : list string :=
  if String.eqb seg "" || String.eqb seg "." then stack
  else if String.eqb seg ".." then removelast stack
  else stack ++ [seg].

Definition push_path (stack : list string) (path : string) : list string :=
  let stack :=
    if bool_decide (String.get 0 path = Some "/"%char) then [] else stack in
  fold_left push_segment (split "/"%char path) stack.

Definition join (stack : list string) : string :=
  match stack with
  | [] => "/"
  | _ => String.concat "" (map (fun seg => "/" +:+ seg) stack)
  end.

(** [path.resolve(...args)] with the working directory [cwd] *)
Definition resolve (cwd : string) (args : list string) : string :=
  join (fold_left push_path args (push_path [] cwd)).

Definition basename (path : string) : string :=
  List.last (List.filter nonempty (split "/"%char path)) "".

End Posix.

(** A file system given as a table of its entries. *)
Inductive Entry : Type :=
| Directory
| File (data : string).

Fixpoint lookup_entry (path : string) (fs : list (string * Entry))
    : option Entry :=
  match fs with
  | [] => None
  | (p, e) :: rest => if String.eqb p path then Some e else lookup_entry path rest
  end.

(** A world over a table of entries; [ENOENT] (errno [-2]) for what is not in
    the table, [ENOTDIR] is not modelled. File contents are parsed by the
    table [json]; semantic versions are valid when listed in [versions] and
    satisfy a range when the pair is listed in [matches]. No manifest of
    the worlds below holds a number beyond the safe integers, so that
    [Number_toString] is never called. *)
Definition table_world (fs : list (string * Entry))
    (json : list (string * JSValue)) (versions : list string)
    (matches : list (string * string)) (home node_path : option string)
    : World :=
  {| Path_resolve := Posix.resolve "/";
     Path_basename := Posix.basename;
     fs_statSync := fun path =>
       match lookup_entry path fs with
       | Some Directory => StatOk true
       | Some (File _) => StatOk false
       | None => StatThrows (Some 2%positive)
       end;
     fs_lstatSync_isFile := fun path =>
       match lookup_entry path fs with
       | Some Directory => Some false
       | Some (File _) => Some true
       | None => None
       end;
     fs_readFileSync := fun path =>
       match lookup_entry path fs with
       | Some (File data) => Some data
       | _ => None
       end;
     JSON_parse := fun data => assoc data json;
     semver_valid := fun v => existsb (String.eqb v) versions;
     semver_satisfies := fun v r =>
       existsb (fun m => String.eqb (fst m) v && String.eqb (snd m) r) matches;
     env_HOME := home;
     env_NODE_PATH := node_path;
     process_execPath := "/usr/bin/node";
     Number_toString := fun n => pretty n |}.

(** [options.error] of [warn]: print and return. *)
Definition warn_options : Options :=
  {| opt_debug := false; opt_error := Some (fun _ => Returns) |}.

(** No [options.error], as [verify] builds its [Verifier]: [error] throws. *)
Definition throw_options : Options :=
  {| opt_debug := false; opt_error := None |}.

Definition pkg (name version : string) (deps : list (string * JSValue))
    : JSValue :=
  JObj [("name", JStr name); ("version", JStr version);
        ("dependencies", JObj deps)].

(** Scenario B of the specification: [app] depends on [left-pad@^1.0.0],
    version [2.0.0] is installed. *)
Definition world_B : World :=
  table_world
    [("/proj", Directory);
     ("/proj/package.json", File "app.json");
     ("/proj/node_modules", Directory);
     ("/proj/node_modules/left-pad", Directory);
     ("/proj/node_modules/left-pad/package.json", File "left-pad.json")]
    [("app.json", pkg "app" "0.0.1" [("left-pad", JStr "^1.0.0")]);
     ("left-pad.json", pkg "left-pad" "2.0.0" [])]
    ["1.2.0"; "2.0.0"] [("1.2.0", "^1.0.0")] None None.

(** Scenario A: version [1.2.0] is installed. *)
Definition world_A : World :=
  table_world
    [("/proj", Directory);
     ("/proj/node_modules", Directory);
     ("/proj/node_modules/left-pad", Directory);
     ("/proj/node_modules/left-pad/package.json", File "left-pad.json")]
    [("left-pad.json", pkg "left-pad" "1.2.0" [])]
    ["1.2.0"; "2.0.0"] [("1.2.0", "^1.0.0")] None None.

(** Scenario C: nothing is installed. *)
Definition world_C : World :=
  table_world [("/proj", Directory)] [] [] [] None None.

(** Scenario D: the manifest of [left-pad] does not parse. *)
Definition world_D : World :=
  table_world
    [("/proj", Directory);
     ("/proj/node_modules", Directory);
     ("/proj/node_modules/left-pad", Directory);
     ("/proj/node_modules/left-pad/package.json", File "{")]
    [] [] [] None None.

(** The errors reported in a trace. *)
Definition reported (events : list Event) : list Msg :=
  omap (fun e => match e with EError m => Some m | _ => None end) events.

(** A world with a [NODE_PATH] of three entries, the second one empty. *)
Definition world_paths : World :=
  table_world [] [] [] [] (Some "/home/u") (Some "/opt/a::/opt/b").

(** A project directory with a regular file [x] in it and a regular file
    [y] in its [node_modules]. *)
Definition world_files : World :=
  table_world
    [("/proj", Directory);
     ("/proj/x", File "x");
     ("/proj/node_modules", Directory);
     ("/proj/node_modules/y", File "y")]
    [] [] [] None None.

(** A project whose manifest file holds the text [null]. *)
Definition world_null : World :=
  table_world
    [("/proj", Directory);
     ("/proj/node_modules", Directory);
     ("/proj/node_modules/app", Directory);
     ("/proj/node_modules/app/package.json", File "null")]
    [("null", JNull)] [] [] None None.

(** The package found for the name [lib] declares the name [other], and a
    dependency that is not installed. *)
Definition world_mismatch : World :=
  table_world
    [("/proj", Directory);
     ("/proj/node_modules", Directory);
     ("/proj/node_modules/lib", Directory);
     ("/proj/node_modules/lib/package.json", File "other.json")]
    [("other.json", pkg "other" "1.0.0" [("gone", JStr "^1.0.0")])]
    ["1.0.0"] [] None None.

(** A value that has no string form: an object with a property
    [toString], which is not a function. *)
Definition odd_name : JSValue := JObj [("toString", JNum 1)].

(** Scenario B with a sub-dependency: the installed [left-pad@2.0.0]
    declares a dependency [gone], which is not installed. *)
Definition sub_fs : list (string * Entry) :=
  [("/proj", Directory);
   ("/proj/node_modules", Directory);
   ("/proj/node_modules/left-pad", Directory);
   ("/proj/node_modules/left-pad/package.json", File "left-pad.json")].


(** The same, with a manifest of [left-pad] whose declared name has no
    string form. *)
Definition odd_manifest : JSValue :=
  JObj [("name", odd_name); ("version", JStr "2.0.0");
        ("dependencies", JObj [("gone", JStr "^1.0.0")])].

Definition world_odd_name : World :=
  table_world sub_fs [("left-pad.json", odd_manifest)]
    ["1.2.0"; "2.0.0"] [("1.2.0", "^1.0.0")] None None.

(** The paths of a table of entries. *)
Definition table_paths (fs : list (string * Entry)) : gset string :=
  list_to_set (map fst fs).

(** A cycle: [a] depends on [b] and [b] depends on [a]. *)
Definition cycle_fs : list (string * Entry) :=
  [("/proj", Directory);
   ("/proj/node_modules", Directory);
   ("/proj/node_modules/a", Directory);
   ("/proj/node_modules/a/package.json", File "a.json");
   ("/proj/node_modules/b", Directory);
   ("/proj/node_modules/b/package.json", File "b.json")].

Definition world_cycle : World :=
  table_world cycle_fs
    [("a.json", pkg "a" "1.0.0" [("b", JStr "^1.0.0")]);
     ("b.json", pkg "b" "1.0.0" [("a", JStr "^1.0.0")])]
    ["1.0.0"] [("1.0.0", "^1.0.0")] None None.

(** A diamond: [app] depends on [a] and on [c], [a] depends on [c]; the
    installed [c] satisfies the range of [a], not that of [app]. *)
Definition diamond_fs : list (string * Entry) :=
  [("/proj", Directory);
   ("/proj/node_modules", Directory);
   ("/proj/node_modules/app", Directory);
   ("/proj/node_modules/app/package.json", File "app.json");
   ("/proj/node_modules/a", Directory);
   ("/proj/node_modules/a/package.json", File "a.json");
   ("/proj/node_modules/c", Directory);
   ("/proj/node_modules/c/package.json", File "c.json")].

Definition world_diamond : World :=
  table_world diamond_fs
    [("app.json",
      pkg "app" "1.0.0" [("a", JStr "^1.0.0"); ("c", JStr "^2.0.0")]);
     ("a.json", pkg "a" "1.0.0" [("c", JStr "^1.0.0")]);
     ("c.json", pkg "c" "1.0.0" [])]
    ["1.0.0"] [("1.0.0", "^1.0.0")] None None.

(** The [Verifier] after [a] has been verified from [/proj]. *)
Definition after_a : State :=
  match verify world_diamond warn_options 8 "a" "/proj" new_Verifier with
  | Done st => st
  | _ => new_Verifier
  end.

(** * The vocabulary of the properties *)

(** ** Strings and search paths *)

Abbreviation chars := list_ascii_of_string.

Definition code (c : ascii) : Z := Z.of_N (N_of_ascii c).

(** The state [p] of the loop after the characters [a] of a segment, read
    from its end. *)
Definition scan_step (p : Z) (c : Z) : Z :=
  if negb (p =? -1) then
    if bool_decide (nmChars !! Z.to_nat p = Some c) then p + 1 else -1
  else p.

Fixpoint scan (p : Z) (a : list ascii) : Z :=
  match a with
  | [] => p
  | c :: a => scan (scan_step p (code c)) a
  end.

Definition nm_rev : list ascii := rev (chars "node_modules").

(** The path of a list of segments below the root, [/s1/s2/.../sn]; the
    empty list gives the empty string. *)
Definition path_of (segs : list string) : string :=
  fold_right (fun seg rest => "/" +:+ seg +:+ rest) "" segs.

(** An absolute path in the form [Path.resolve] returns it: the root [/],
    or [path_of] of its segments. *)
Definition abs_path (segs : list string) : string :=
  match segs with
  | [] => "/"
  | _ => path_of segs
  end.

(** A path segment: not empty, and without separator. *)
Definition segment (seg : string) : Prop :=
  seg <> "" /\ Forall (fun c => c <> "/"%char) (chars seg).

(** The ancestors of [/s1/.../sn] below the root, deepest first:
    [/s1/.../sn], [/s1/.../s(n-1)], ..., [/s1], as lists of segments. *)
Definition ancestors (segs : list string) : list (list string) :=
  map (fun k => take k segs) (rev (seq 1 (List.length segs))).

(** The candidates of the ancestors: [<ancestor>/node_modules], but for the
    ancestors whose last segment is [node_modules]. *)
Definition ancestor_candidates (segs : list string) : list string :=
  map (fun a => path_of a +:+ "/node_modules")
    (List.filter (fun a => negb (bool_decide (last a = Some "node_modules")))
       (ancestors segs)).

(** The same candidates, by recursion on the segments listed last first. *)
Fixpoint cands (rsegs : list string) : list string :=
  match rsegs with
  | [] => []
  | seg :: rest =>
      (if String.eqb seg "node_modules" then []
       else [path_of (rev (seg :: rest)) +:+ "/node_modules"])
      ++ cands rest
  end.

(** The legacy library directories below the home directory. *)
Definition home_library_dirs (w : World) : list string :=
  match env_HOME w with
  | Some home =>
      if nonempty home
      then [Path_resolve w [home; ".node_modules"];
            Path_resolve w [home; ".node_libraries"]]
      else []
  | None => []
  end.

(** The [lib/node] directory of the installation prefix, two levels above
    the executable. *)
Definition prefix_library_dir (w : World) : string :=
  Path_resolve w [Path_resolve w [process_execPath w; ".."; ".."]; "lib"; "node"].

(** [NODE_PATH] holds the entries [parts], separated by [:]; unset, it holds
    none. *)
Definition node_path_entries (w : World) (parts : list string) : Prop :=
  match env_NODE_PATH w with
  | Some node => node = String.concat ":" parts
  | None => parts = []
  end.

(** ** The resolver *)

(** [fs.statSync(path)] returns, and [isDirectory()] holds. *)
Definition is_directory (w : World) (path : string) : Prop :=
  fs_statSync w path = StatOk true.

(** [fs.statSync(path)] returns: the path exists, whatever it is. *)
Definition path_exists (w : World) (path : string) : Prop :=
  exists isDirectory, fs_statSync w path = StatOk isDirectory.

(** The candidate [c] holds [name]: [c] is a directory and [c/name] exists. *)
Definition holds (w : World) (name c : string) : Prop :=
  is_directory w c /\ path_exists w (Path_resolve w [c; name]).

(** [b] is what the first candidate of [paths] that holds [name] gives. *)
Definition first_holding (w : World) (name : string) (paths : list string)
    (b : string) : Prop :=
  exists before c after,
    paths = before ++ c :: after /\
    Forall (fun c' => ~ holds w name c') before /\
    holds w name c /\
    b = Path_resolve w [c; name].

(** The name starts with [.] or [/]. *)
Definition path_like (name : string) : bool :=
  (0 <? String.length name)%nat && is_path_marker (String.get 0 name).

(** ** Outcomes, runs and visits *)

(** The state an outcome ends in. *)
Definition final (r : Outcome) : option State :=
  match r with
  | Done st => Some st
  | Thrown st _ => Some st
  | OutOfFuel => None
  end.

(** [options.error] is set and returns when called with the text of [m]. *)
Definition hook_returns (o : Options) (m : Msg) : Prop :=
  exists hook, opt_error o = Some hook /\ hook (render m) = Returns.

(** A dependency name the loop of [verifyDeps] goes on to resolve: not
    empty, not scoped, no URL. *)
Definition resolvable_name (name : string) : Prop :=
  String.length name <> 0%nat /\
  String.get 0 name <> Some "@"%char /\
  has_scheme name = false.

(** The error of the version check of [verifyDeps], if any. *)
Definition version_error (w : World) (name expect version : string)
    : option Msg :=
  if negb (semver_valid w version) then
    Some (InvalidVersion name expect version)
  else if negb (semver_satisfies w version expect) then
    Some (UnmetVersion name expect version)
  else None.

(** [!pkg || typeof pkg !== 'object'], the guard of [verify] that follows
    the comparison of the names. *)
Definition not_an_object (pkg : JSValue) : bool :=
  negb (truthy pkg) || negb (String.eqb (typeof pkg) "object").

(** [verify] without the branch of that guard. *)
Definition verify_unguarded (w : World) (o : Options) (fuel : nat)
    (name dirname : string) (st : State) : Outcome :=
  match resolve w name dirname with
  | None => error o MissingManifest st
  | Some moddir =>
      let st := debug (OpeningMain moddir) st in
      let '(pkg, st) := read w moddir st in
      if strict_eq_num pkg (-1) then error o UnreadableManifest st
      else if strict_eq_num pkg (-2) then error o MalformedManifest st
      else
        match get_prop pkg "name" with
        | None => Thrown st TypeError
        | Some pkgName =>
            if negb (strict_eq_str pkgName name) then
              match ToString w pkgName with
              | None => Thrown st TypeError
              | Some text => error o (NameMismatch name text) st
              end
            else
              match ToString w pkgName with
              | None => Thrown st TypeError
              | Some text =>
                  let st := debug (OpenedMain text) st in
                  verifyPackage w o fuel pkg moddir st
              end
        end
  end.

(** The top-level operation as C1 states it: a mismatch of the names is
    reported and, when the hook returns, the operation goes on to the guard
    and to [verifyPackage]. *)
Definition verify_permissive (w : World) (o : Options) (fuel : nat)
    (name dirname : string) (st : State) : Outcome :=
  match resolve w name dirname with
  | None => error o MissingManifest st
  | Some moddir =>
      let st := debug (OpeningMain moddir) st in
      let '(pkg, st) := read w moddir st in
      if strict_eq_num pkg (-1) then error o UnreadableManifest st
      else if strict_eq_num pkg (-2) then error o MalformedManifest st
      else
        match get_prop pkg "name" with
        | None => Thrown st TypeError
        | Some pkgName =>
            let! st :=
              if negb (strict_eq_str pkgName name)
              then
                match ToString w pkgName with
                | None => Thrown st TypeError
                | Some text => error o (NameMismatch name text) st
                end
              else Done st in
            if not_an_object pkg then error o MissingManifest st
            else
              match ToString w pkgName with
              | None => Thrown st TypeError
              | Some text =>
                  let st := debug (OpenedMain text) st in
                  verifyPackage w o fuel pkg moddir st
              end
        end
  end.

(** What [verify] does after the resolver has returned [moddir] and the
    manifest has been read. *)
Definition after_main_read (w : World) (o : Options) (fuel : nat)
    (name moddir : string) (pkg : JSValue) (st : State) : Outcome :=
  if strict_eq_num pkg (-1) then error o UnreadableManifest st
  else if strict_eq_num pkg (-2) then error o MalformedManifest st
  else
    match get_prop pkg "name" with
    | None => Thrown st TypeError
    | Some pkgName =>
        if negb (strict_eq_str pkgName name) then
          match ToString w pkgName with
          | None => Thrown st TypeError
          | Some text => error o (NameMismatch name text) st
          end
        else if not_an_object pkg then error o MissingManifest st
        else
          match ToString w pkgName with
          | None => Thrown st TypeError
          | Some text =>
              verifyPackage w o fuel pkg moddir (debug (OpenedMain text) st)
          end
    end.

(** What the body of the loop of [verifyDeps] does after the resolver has
    returned [moddir] and the manifest has been read. *)
Definition after_read (w : World) (o : Options)
    (rec : JSValue -> string -> State -> Outcome)
    (name expect moddir : string) (pkg : JSValue) (st : State) : Outcome :=
  if strict_eq_num pkg (-1) then error o (UnreadableDependency name expect) st
  else if strict_eq_num pkg (-2) then
    error o (MalformedDependency name expect) st
  else if negb (truthy pkg) then error o (NoVersion name expect) st
  else
    match get_prop pkg "version" with
    | None => Thrown st TypeError
    | Some (JStr version) =>
        let! st :=
          if negb (semver_valid w version) then
            error o (InvalidVersion name expect version) st
          else if negb (semver_satisfies w version expect) then
            error o (UnmetVersion name expect version) st
          else Done st in
        rec pkg moddir (debug (ValidVersion name version expect) st)
    | Some _ => error o (NoVersion name expect) st
    end.

(** The directory whose dependency fields an event shows being taken up:
    [verifyPackage] calls [this.debug] with the [Verifying] message right
    after it has marked the directory, and nowhere else. *)
Definition visit_of (e : Event) : option string :=
  match e with
  | EDebug (Verifying _ dirname) => Some dirname
  | _ => None
  end.

Definition visits (events : list Event) : list string := omap visit_of events.

(** [st'] comes after [st] in a run: the trace has grown by [new] events,
    the visited set has grown, no directory is taken up twice in [new], and
    the directories taken up in [new] were not visited in [st] and are
    visited in [st']. *)
Definition extends (st st' : State) : Prop :=
  exists new,
    trace st' = trace st ++ new /\
    cache st ⊆ cache st' /\
    NoDup (visits new) /\
    forall d, d ∈ visits new -> (d ∉ cache st) /\ (d ∈ cache st').

(** The outcome [r] of a step from [st], if there is one, ends in a state
    that comes after [st]. *)
Definition advances (st : State) (r : Outcome) : Prop :=
  forall st', final r = Some st' -> extends st st'.

(** The body of the loop of [verifyDeps] either ends without the recursive
    step, or is the recursive step on a directory the resolver returned,
    from a later state. *)
Definition ends_early (w : World) (o : Options) (field : string)
    (deps : JSValue) (dirname name : string) (st : State) : Prop :=
  exists r, r <> OutOfFuel /\ advances st r /\
    forall rec, verifyDep w o rec field deps dirname name st = r.

Definition recurses (w : World) (o : Options) (field : string)
    (deps : JSValue) (dirname name : string) (st : State) : Prop :=
  exists pkg moddir st2,
    resolve w name dirname = Some moddir /\ extends st st2 /\
    forall rec, verifyDep w o rec field deps dirname name st = rec pkg moddir st2.

(** The run [run] settles at [fuel] from [st]: it ends, in a state that
    comes after [st], and more fuel changes nothing. *)
Definition settles (st : State) (run : nat -> Outcome) (fuel : nat) : Prop :=
  exists st',
    final (run fuel) = Some st' /\
    extends st st' /\
    forall fuel', (fuel <= fuel')%nat -> run fuel' = run fuel.

(** The outcome [r] of a step from [st] ends, with no directory taken up and
    the visited set as it was. *)
Definition quiet (st : State) (r : Outcome) : Prop :=
  exists st' rest,
    final r = Some st' /\
    trace st' = trace st ++ rest /\
    visits rest = [] /\
    cache st' = cache st.

(** ** Runs under an error policy *)

(** What [verifyPackage] does to the state when it enters a directory that
    is not visited: the directory is marked and, if it holds a
    [binding.gyp], its base name is recorded. *)
Definition mark (w : World) (dirname : string) (st : State) : State :=
  let st := cache_add dirname st in
  if hasBinding w dirname
  then bindings_add (Path_basename w dirname) st
  else st.

(** The error policy never returns: there is no hook ([error] throws), or
    the hook raises whatever the message. *)
Definition never_returns (o : Options) : Prop :=
  match opt_error o with
  | None => True
  | Some hook => forall msg, hook msg = Raises
  end.

(** The error policy always returns: a hook is set, and it returns whatever
    the message. *)
Definition always_returns (o : Options) : Prop :=
  exists hook, opt_error o = Some hook /\ forall msg, hook msg = Returns.

(** [st'] comes after [st] with no call of [this.error] in between. *)
Definition silent (st st' : State) : Prop :=
  exists new, trace st' = trace st ++ new /\ reported new = [].

(** The exception a policy that does not return raises for [m]. *)
Definition raised_for (e : Exn) (m : Msg) : Prop :=
  e = ErrorThrown (render m) \/ e = HookRaised (render m).

(** The outcome of a run under a policy that never returns: no error was
    reported, or exactly one, last, and the run ended with it. *)
Definition stops_at_first_error (st : State) (r : Outcome) : Prop :=
  match r with
  | Done st' => silent st st'
  | Thrown st' e =>
      (e = TypeError /\ silent st st') \/
      (exists st0 m,
         silent st st0 /\ st' = emit (EError m) st0 /\ raised_for e m)
  | OutOfFuel => True
  end.

(** The outcome of a run under a policy that always returns: it is not an
    exception of the policy. *)
Definition runs_to_the_end (r : Outcome) : Prop :=
  match r with
  | Thrown _ e => e = TypeError
  | _ => True
  end.

(** The recorded bindings are the base names of the visited directories
    that hold a [binding.gyp]. *)
Definition bindings_recorded (w : World) (st : State) : Prop :=
  forall base,
    base ∈ bindings st <->
    exists dirname,
      dirname ∈ cache st /\ hasBinding w dirname = true /\
      base = Path_basename w dirname.

(** [dirname] is a path the resolver returns. *)
Definition resolved (w : World) (dirname : string) : Prop :=
  exists name from, resolve w name from = Some dirname.

(** A package with a native binding next to one without. *)
Definition world_native : World :=
  table_world
    [("/proj", Directory);
     ("/proj/node_modules", Directory);
     ("/proj/node_modules/app", Directory);
     ("/proj/node_modules/app/package.json", File "app.json");
     ("/proj/node_modules/native", Directory);
     ("/proj/node_modules/native/package.json", File "native.json");
     ("/proj/node_modules/native/binding.gyp", File "gyp")]
    [("app.json", pkg "app" "1.0.0" [("native", JStr "^1.0.0")]);
     ("native.json", pkg "native" "1.0.0" [])]
    ["1.0.0"] [("1.0.0", "^1.0.0")] None None.

(** The [Verifier] after [app] has been verified in [world_native]. *)
Definition native_final : State :=
  match verify world_native throw_options 4 "app" "/proj" new_Verifier with
  | Done st => st
  | _ => new_Verifier
  end.

(** The [Verifier] after [a] has been verified on the cycle. *)
Definition cycle_final : State :=
  match verify world_cycle throw_options 7 "a" "/proj" new_Verifier with
  | Done st => st
  | _ => new_Verifier
  end.

(** ** The loop of [verifyDeps] *)

(** The names the loop of [verifyDeps] passes over: scoped names and URLs. *)
Definition skipped (name : string) : bool :=
  bool_decide (String.get 0 name = Some "@"%char) || has_scheme name.

(** What [read] returns, the sentinels included: the part of [read] that
    does not touch the state. *)
Definition manifest (w : World) (moddir : string) : JSValue :=
  match fs_readFileSync w (Path_resolve w [moddir; "package.json"]) with
  | None => JNum (-1)
  | Some data =>
      match JSON_parse w data with
      | Some v => v
      | None => JNum (-2)
      end
  end.

(** The error the loop of [verifyDeps] reports for a manifest it cannot
    use: the sentinels of [read], or no string [version]. *)
Definition manifest_error (name expect : string) (pkg : JSValue) : Msg :=
  if strict_eq_num pkg (-1) then UnreadableDependency name expect
  else if strict_eq_num pkg (-2) then MalformedDependency name expect
  else NoVersion name expect.

(** A manifest file that holds the number [-1]. *)
Definition world_minus_one : World :=
  table_world
    [("/proj", Directory);
     ("/proj/node_modules", Directory);
     ("/proj/node_modules/app", Directory);
     ("/proj/node_modules/app/package.json", File "-1")]
    [("-1", JNum (-1))] [] [] None None.

(** ** Satisfied dependencies *)

(** The dependency [name] that the package at [dirname] declares in the map
    [deps] of [field] is in order: the loop passes over it, or it is
    optional and not installed, or the resolver finds it in a directory of
    [visited] whose manifest has a valid version that satisfies the
    declared range. *)
Definition dependency_ok (w : World) (visited : gset string)
    (field : string) (deps : JSValue) (dirname name : string) : Prop :=
  skipped name = true \/
  exists expect,
    name <> "" /\
    get_prop deps name = Some (JStr expect) /\
    ((resolve w name dirname = None /\ field = "optionalDependencies") \/
     exists moddir version,
       resolve w name dirname = Some moddir /\
       get_prop (manifest w moddir) "version" = Some (JStr version) /\
       semver_valid w version = true /\
       semver_satisfies w version expect = true /\
       moddir ∈ visited).

(** The dependency field [field] of the manifest [pkg] is in order: it is
    absent or falsy, or it is a map of dependencies that are in order. *)
Definition field_ok (w : World) (visited : gset string) (pkg : JSValue)
    (dirname field : string) : Prop :=
  exists deps,
    get_prop pkg field = Some deps /\
    (truthy deps = false \/
     (typeof deps = "object" /\
      Forall (dependency_ok w visited field deps dirname) (Object_keys deps))).

Definition package_ok (w : World) (visited : gset string) (pkg : JSValue)
    (dirname : string) : Prop :=
  Forall (field_ok w visited pkg dirname) fields.

(** The packages of the directories visited between [st] and [st'] are in
    order, their dependencies being visited in [st']. *)
Definition new_packages_ok (w : World) (st st' : State) : Prop :=
  forall d, d ∈ cache st' ->
    d ∈ cache st \/ package_ok w (cache st') (manifest w d) d.

(** The trace of [st'] continues that of [st]. *)
Definition later (st st' : State) : Prop :=
  exists post, trace st' = trace st ++ post.

(** ** Search paths (Windows) *)

(** [s.charCodeAt(i)] for an index that may be negative. *)
Definition charCodeAtZ (s : string) (i : Z) : Z :=
  if i <? 0 then -1 else charCodeAt s (Z.to_nat i).

(** [code === 92 || code === 47 || code === 58]: a backslash, a slash or a
    colon. *)
Definition is_win32_separator (code : Z) : bool :=
  (code =? 92) || (code =? 47) || (code =? 58).

(** [globalPaths] on [win32]: the home is [USERPROFILE], which the [World]
    does not hold and which is given apart; the prefix is one level above
    the executable; the delimiter of [NODE_PATH] is [;]. *)
Definition globalPaths_win32 (w : World) (userprofile : option string)
    : list string :=
  let prefix := Path_resolve w [process_execPath w; ".."] in
  let paths := [Path_resolve w [prefix; "lib"; "node"]] in
  let paths :=
    match userprofile with
    | Some h =>
        if nonempty h then
          Path_resolve w [h; ".node_modules"]
            :: Path_resolve w [h; ".node_libraries"] :: paths
        else paths
    | None => paths
    end in
  match env_NODE_PATH w with
  | Some node =>
      if nonempty node then
        let parts := split ";"%char node in
        let parts := List.filter nonempty parts in
        parts ++ paths
      else paths
  | None => paths
  end.

(** The loop of [getModulePaths] on [win32]. *)
Fixpoint getModulePaths_win32_loop (from : string) (n : nat)
    (paths : list string) (last : nat) (p : Z) : list string :=
  match n with
  | O => paths
  | S i =>
      let code := charCodeAt from i in
      if is_win32_separator code then
        let paths :=
          if negb (p =? nmLen)
          then paths ++ [slice0 from last +:+ "\node_modules"]
          else paths in
        getModulePaths_win32_loop from i paths i 0
      else if negb (p =? -1) then
        if bool_decide (nmChars !! Z.to_nat p = Some code)
        then getModulePaths_win32_loop from i paths last (p + 1)
        else getModulePaths_win32_loop from i paths last (-1)
      else getModulePaths_win32_loop from i paths last p
  end.

(** [getModulePaths] on [win32]; [Path_resolve] is then the [Path.resolve]
    of that platform. *)
Definition getModulePaths_win32 (w : World) (userprofile : option string)
    (from : string) : list string :=
  let from := Path_resolve w [from] in
  let len := Z.of_nat (String.length from) in
  if (charCodeAtZ from (len - 1) =? 92) && (charCodeAtZ from (len - 2) =? 58)
  then (from +:+ "node_modules") :: globalPaths_win32 w userprofile
  else
    getModulePaths_win32_loop from (String.length from) []
      (String.length from) 0
    ++ globalPaths_win32 w userprofile.

(** The path of a list of segments below a drive, [\s1\s2\...\sn]. *)
Definition win32_path_of (segs : list string) : string :=
  fold_right (fun seg rest => "\" +:+ seg +:+ rest) "" segs.

(** No backslash, slash or colon. *)
Definition no_win32_separator (s : string) : Prop :=
  Forall (fun c => is_win32_separator (code c) = false) (chars s).

(** A path segment on [win32]. *)
Definition win32_segment (seg : string) : Prop :=
  seg <> "" /\ no_win32_separator seg.

(** The candidates of the ancestors of [drive:\s1\...\sn] below the
    drive, deepest first, but for those whose last segment is
    [node_modules]. *)
Definition win32_ancestor_candidates (drive : string) (segs : list string)
    : list string :=
  map (fun a => drive +:+ ":" +:+ win32_path_of a +:+ "\node_modules")
    (List.filter (fun a => negb (bool_decide (last a = Some "node_modules")))
       (ancestors segs)).

(** The same candidates, by recursion on the segments listed last first;
    [pre] is what comes before the segments. *)
Fixpoint win32_cands (pre : string) (rsegs : list string) : list string :=
  match rsegs with
  | [] => []
  | seg :: rest =>
      (if String.eqb seg "node_modules" then []
       else [(pre +:+ win32_path_of (rev (seg :: rest))) +:+ "\node_modules"])
      ++ win32_cands pre rest
  end.

(** A world whose [Path.resolve] returns its last argument, for paths that
    are given resolved. *)
Definition world_win32 : World :=
  {| Path_resolve := fun args => List.last args "";
     Path_basename := fun path => path;
     fs_statSync := fun _ => StatThrows None;
     fs_lstatSync_isFile := fun _ => None;
     fs_readFileSync := fun _ => None;
     JSON_parse := fun _ => None;
     semver_valid := fun _ => false;
     semver_satisfies := fun _ _ => false;
     env_HOME := None;
     env_NODE_PATH := None;
     process_execPath := "C:\node\node.exe";
     Number_toString := fun n => pretty n |}.

(** ** The first verifier: [verify(require, file)] *)

(** The verifier of the first part of the file, written against the
    [require] function of the calling module: it throws at the first
    problem, does not descend into the dependencies of dependencies, and
    remembers what it has verified in a cache of the process. *)

(** [require.resolve(request)]: the resolved file name, or an exception
    with or without the code [MODULE_NOT_FOUND]. *)
Inductive ResolveResult : Type :=
| Resolved (key : string)
| ResolveNotFound
| ResolveFailed.

(** [require(request)]: the loaded value, or an exception with or without
    the code [MODULE_NOT_FOUND]. *)
Inductive LoadResult : Type :=
| Loaded (v : JSValue)
| LoadNotFound
| LoadFailed.

Record Require : Type := {
  require_resolve : string -> ResolveResult;
  require_load : string -> LoadResult
}.

(** What the first verifier throws: an [Error] with a message, the
    exception of [require.resolve] thrown again, or the [TypeError] of a
    property read on [null]. *)
Inductive Error1 : Type :=
| Error1Msg (msg : string)
| Rethrown
| TypeError1.

Inductive Result1 : Type :=
| Ok1
| Throw1 (e : Error1).

(** [s.slice(-12)] *)
Definition slice_last12 (s : string) : string :=
  substring (String.length s - 12) 12 s.

(** [s.slice(0, -1)] *)
Definition slice_but_last (s : string) : string :=
  substring 0 (String.length s - 1) s.

(** The first lines of [verify]: the path of the manifest for [file]. *)
Definition manifest_path (file : string) : string :=
  if negb (String.eqb (slice_last12 file) "package.json") then
    let file :=
      if bool_decide (String.get (String.length file - 1) file = Some "/"%char)
      then slice_but_last file
      else file in
    file +:+ "/package.json"
  else file.

(** The body of the loop of the first [verifyDeps]. *)
Definition verifyDep_v1 (w : World) (R : Require) (field : string)
    (deps : JSValue) (name : string) : Result1 :=
  if bool_decide (String.get 0 name = Some "@"%char) then Ok1
  else if has_scheme name then Ok1
  else
    match get_prop deps name with
    | None => Throw1 TypeError1
    | Some (JStr version) =>
        match require_resolve R name with
        | ResolveNotFound =>
            if negb (String.eqb field "optionalDependencies") then
              Throw1 (Error1Msg
                ("Missing dependency: " +:+ name +:+ "@" +:+ version +:+ "."))
            else Ok1
        | ResolveFailed => Throw1 (Error1Msg "Error accessing dependency.")
        | Resolved _ =>
            match require_load R (name +:+ "/package.json") with
            | LoadNotFound =>
                Throw1 (Error1Msg
                  ("Missing package.json for " +:+ name +:+ version +:+ "."))
            | LoadFailed =>
                Throw1 (Error1Msg
                  ("Malformed package.json for " +:+ name +:+ version +:+ "."))
            | Loaded pkg =>
                if negb (truthy pkg) then
                  Throw1 (Error1Msg
                    ("No version in package.json: " +:+ name +:+ "@"
                       +:+ version +:+ "."))
                else
                  match get_prop pkg "version" with
                  | None => Throw1 TypeError1
                  | Some (JStr installed) =>
                      if negb (semver_valid w installed) then
                        Throw1 (Error1Msg
                          ("Invalid version for " +:+ name +:+ "@" +:+ version
                             +:+ ": " +:+ installed +:+ "."))
                      else if negb (semver_satisfies w installed version) then
                        Throw1 (Error1Msg
                          ("Unmet dependency version for " +:+ name +:+ "@"
                             +:+ version +:+ ": " +:+ installed +:+ "."))
                      else Ok1
                  | Some _ =>
                      Throw1 (Error1Msg
                        ("No version in package.json: " +:+ name +:+ "@"
                           +:+ version +:+ "."))
                  end
            end
        end
    | Some _ =>
        Throw1 (Error1Msg
          ("Invalid field in " +:+ field +:+ ": " +:+ name +:+ "."))
    end.

Fixpoint verifyDeps_v1_loop (w : World) (R : Require) (field : string)
    (deps : JSValue) (names : list string) : Result1 :=
  match names with
  | [] => Ok1
  | name :: rest =>
      match verifyDep_v1 w R field deps name with
      | Ok1 => verifyDeps_v1_loop w R field deps rest
      | Throw1 e => Throw1 e
      end
  end.

Definition verifyDeps_v1 (w : World) (R : Require) (field : string)
    (deps : JSValue) : Result1 :=
  verifyDeps_v1_loop w R field deps (Object_keys deps).

(** [for (const field of fields)] of the first [verify]. *)
Fixpoint verifyFields_v1 (w : World) (R : Require) (fs : list string)
    (pkg : JSValue) : Result1 :=
  match fs with
  | [] => Ok1
  | field :: rest =>
      match get_prop pkg field with
      | None => Throw1 TypeError1
      | Some deps =>
          if negb (truthy deps) then verifyFields_v1 w R rest pkg
          else if negb (String.eqb (typeof deps) "object") then
            Throw1 (Error1Msg
              ("Invalid field in package.json: " +:+ field +:+ "."))
          else
            match verifyDeps_v1 w R field deps with
            | Ok1 => verifyFields_v1 w R rest pkg
            | Throw1 e => Throw1 e
            end
      end
  end.

(** The first [verify(require, file)], from the cache of the process to the
    cache it leaves, or to what it throws (the cache is then as it was). *)
Definition verify_v1 (w : World) (R : Require) (file : string)
    (cache : gset string) : gset string + Error1 :=
  let file := manifest_path file in
  match require_resolve R file with
  | ResolveNotFound => inr (Error1Msg "Missing package.json!")
  | ResolveFailed => inr Rethrown
  | Resolved key =>
      if bool_decide (key ∈ cache) then inl cache
      else
        match require_load R file with
        | Loaded pkg =>
            if negb (truthy pkg) || negb (String.eqb (typeof pkg) "object")
            then inr (Error1Msg "Missing package.json!")
            else
              match verifyFields_v1 w R fields pkg with
              | Ok1 => inl ({[key]} ∪ cache)
              | Throw1 e => inr e
              end
        | _ => inr (Error1Msg "Malformed package.json!")
        end
  end.

(** A dependency of the first verifier is in order: passed over, or
    optional and not found, or found with a manifest whose version is
    valid and satisfies the range. *)
Definition dependency_ok_v1 (w : World) (R : Require) (field : string)
    (deps : JSValue) (name : string) : Prop :=
  skipped name = true \/
  exists range,
    get_prop deps name = Some (JStr range) /\
    ((require_resolve R name = ResolveNotFound /\
      field = "optionalDependencies") \/
     exists key pkg installed,
       require_resolve R name = Resolved key /\
       require_load R (name +:+ "/package.json") = Loaded pkg /\
       get_prop pkg "version" = Some (JStr installed) /\
       semver_valid w installed = true /\
       semver_satisfies w installed range = true).

(** A [require] for a project whose [left-pad] is installed at [1.2.0]. *)
Definition require_A : Require :=
  {| require_resolve := fun request =>
       if String.eqb request "/proj/package.json"
       then Resolved "/proj/package.json"
       else if String.eqb request "left-pad"
       then Resolved "/proj/node_modules/left-pad/index.js"
       else ResolveNotFound;
     require_load := fun request =>
       if String.eqb request "/proj/package.json"
       then Loaded (pkg "app" "0.0.1" [("left-pad", JStr "^1.0.0")])
       else if String.eqb request "left-pad/package.json"
       then Loaded (pkg "left-pad" "1.2.0" [])
       else LoadNotFound |}.

(** The same project after [left-pad] has been removed. *)
Definition require_removed : Require :=
  {| require_resolve := fun request =>
       if String.eqb request "/proj/package.json"
       then Resolved "/proj/package.json"
       else ResolveNotFound;
     require_load := fun request =>
       if String.eqb request "/proj/package.json"
       then Loaded (pkg "app" "0.0.1" [("left-pad", JStr "^1.0.0")])
       else LoadNotFound |}.

(** A dependency field of the first verifier is in order. *)
Definition field_ok_v1 (w : World) (R : Require) (pkg : JSValue)
    (field : string) : Prop :=
  exists deps,
    get_prop pkg field = Some deps /\
    (truthy deps = false \/
     (typeof deps = "object" /\
      Forall (dependency_ok_v1 w R field deps) (Object_keys deps))).

(** ** The exported functions *)

(** The hook of [exit] prints and ends the process, the hook of [stop]
    throws a tagged error: neither returns. *)
Definition exit_options : Options :=
  {| opt_debug := false; opt_error := Some (fun _ => Raises) |}.

Definition stop_options : Options :=
  {| opt_debug := false; opt_error := Some (fun _ => Raises) |}.

(** [verify(dirname, name)], [warn], [exit] and [stop]: each makes a
    [Verifier] of its own, with its error policy, and calls its [verify]
    method with the arguments in the other order. *)
Definition exported_verify (w : World) (fuel : nat) (dirname name : string)
    : Outcome :=
  verify w throw_options fuel name dirname new_Verifier.

Definition exported_warn (w : World) (fuel : nat) (dirname name : string)
    : Outcome :=
  verify w warn_options fuel name dirname new_Verifier.

Definition exported_exit (w : World) (fuel : nat) (dirname name : string)
    : Outcome :=
  verify w exit_options fuel name dirname new_Verifier.

Definition exported_stop (w : World) (fuel : nat) (dirname name : string)
    : Outcome :=
  verify w stop_options fuel name dirname new_Verifier.

(** The legacy library directories below [USERPROFILE]. *)
Definition userprofile_library_dirs (w : World) (userprofile : option string)
    : list string :=
  match userprofile with
  | Some home =>
      if nonempty home
      then [Path_resolve w [home; ".node_modules"];
            Path_resolve w [home; ".node_libraries"]]
      else []
  | None => []
  end.

(** [NODE_PATH] holds the entries [parts], separated by [;]. *)
Definition node_path_entries_win32 (w : World) (parts : list string) : Prop :=
  match env_NODE_PATH w with
  | Some node => node = String.concat ";" parts
  | None => parts = []
  end.

(** A Windows world with a [NODE_PATH] of three entries, the second one
    empty, and a [Path.resolve] that only joins its arguments. *)
Definition world_win32_paths : World :=
  {| Path_resolve := fun args => String.concat "\" args;
     Path_basename := fun path => path;
     fs_statSync := fun _ => StatThrows None;
     fs_lstatSync_isFile := fun _ => None;
     fs_readFileSync := fun _ => None;
     JSON_parse := fun _ => None;
     semver_valid := fun _ => false;
     semver_satisfies := fun _ _ => false;
     env_HOME := None;
     env_NODE_PATH := Some "C:\lib;;D:\lib";
     process_execPath := "C:\node\node.exe";
     Number_toString := fun n => pretty n |}.

(** * Properties *)

(** ** The scenarios of the specification *)

Example has_scheme_examples :
  has_scheme "git://host/repo" = true /\ has_scheme "left-pad" = false.
Proof. split; reflexivity. Qed.

Example split_example :
  split ":"%char "/opt/a::/opt/b" = ["/opt/a"; ""; "/opt/b"].
Proof. reflexivity. Qed.

Example ToString_examples (w : World) :
  ToString w (JArr [JNum (-12); JNull; JStr "a"; JArr [JBool true]])
  = Some "-12,,a,true" /\
  ToString w (JObj [("name", JStr "a")]) = Some "[object Object]" /\
  ToString w odd_name = None /\
  ToString w (JArr [JStr "a"; odd_name]) = None /\
  ToString w (JNum (10 ^ 21)) = Some (Number_toString w (10 ^ 21)).
Proof. repeat split; reflexivity. Qed.

Example render_example :
  render (UnmetVersion "left-pad" "^1.0.0" "2.0.0")
  = "Unmet dependency version left-pad@^1.0.0: 2.0.0.".
Proof. reflexivity. Qed.

Example getModulePaths_example :
  getModulePaths world_B "/a/xnode_modules/node_modules/b"
  = ["/a/xnode_modules/node_modules/b/node_modules";
     "/a/xnode_modules/node_modules"; "/a/node_modules"; "/node_modules";
     "/usr/lib/node"].
Proof. reflexivity. Qed.

Example scenario_A :
  exists st,
    verifyPackage world_A warn_options 3
      (pkg "app" "0.0.1" [("left-pad", JStr "^1.0.0")]) "/proj" new_Verifier
    = Done st /\
    reported (trace st) = [].
Proof. eexists. split; [vm_compute; reflexivity | reflexivity]. Qed.

Example scenario_B :
  exists st,
    verifyPackage world_B warn_options 3
      (pkg "app" "0.0.1" [("left-pad", JStr "^1.0.0")]) "/proj" new_Verifier
    = Done st /\
    reported (trace st) = [UnmetVersion "left-pad" "^1.0.0" "2.0.0"].
Proof. eexists. split; [vm_compute; reflexivity | reflexivity]. Qed.

Example scenario_C :
  exists st,
    verifyPackage world_C warn_options 3
      (JObj [("name", JStr "app");
             ("optionalDependencies", JObj [("fsevents", JStr "^1.0.0")])])
      "/proj" new_Verifier
    = Done st /\
    trace st
    = [EDebug (Verifying "app" "/proj");
       EDebug (MissingOptionalDependency "fsevents" "^1.0.0");
       EDebug (PackageValid "app")].
Proof. eexists. split; [vm_compute; reflexivity | reflexivity]. Qed.

Example scenario_D :
  exists st,
    verifyPackage world_D warn_options 3
      (pkg "app" "0.0.1" [("left-pad", JStr "^1.0.0")]) "/proj" new_Verifier
    = Done st /\
    reported (trace st) = [MalformedDependency "left-pad" "^1.0.0"] /\
    visits (trace st) = ["/proj"].
Proof. eexists. split; [vm_compute; reflexivity | split; reflexivity]. Qed.

(** ** Strings as lists of characters *)

Lemma code_inj c1 c2 : code c1 = code c2 -> c1 = c2.
Proof.
  unfold code. intros H. apply N2Z.inj in H.
  rewrite <- (ascii_N_embedding c1), <- (ascii_N_embedding c2). by rewrite H.
Qed.

Lemma chars_app s1 s2 : chars (s1 +:+ s2) = chars s1 ++ chars s2.
Proof. induction s1 as [|c s1 IH]; simpl; [done | by rewrite IH]. Qed.

Lemma chars_length s : List.length (chars s) = String.length s.
Proof. induction s as [|c s IH]; simpl; [done | by rewrite IH]. Qed.

Lemma chars_inj s1 s2 : chars s1 = chars s2 -> s1 = s2.
Proof.
  intros H. rewrite <- (string_of_list_ascii_of_string s1),
    <- (string_of_list_ascii_of_string s2). by rewrite H.
Qed.

Lemma get_chars s i : String.get i s = chars s !! i.
Proof.
  revert i. induction s as [|c s IH]; intros [|i]; simpl; auto.
Qed.

Lemma slice0_chars s n : chars (slice0 s n) = take n (chars s).
Proof.
  unfold slice0. revert n.
  induction s as [|c s IH]; intros [|n]; simpl; try done. by rewrite IH.
Qed.

Lemma charCodeAt_middle F (Q R : list ascii) c :
  chars F = Q ++ c :: R -> charCodeAt F (List.length Q) = code c.
Proof.
  intros H. unfold charCodeAt. rewrite get_chars, H.
  rewrite lookup_app_r by lia. by rewrite Nat.sub_diag.
Qed.

Lemma slice0_prefix F (s : string) (R : list ascii) :
  chars F = chars s ++ R -> slice0 F (List.length (chars s)) = s.
Proof.
  intros H. apply chars_inj. rewrite slice0_chars, H.
  by rewrite take_app_length.
Qed.

(** ** The search paths of [getModulePaths] *)

Lemma loop_slash F (Q R : list ascii) paths last p :
  chars F = Q ++ "/"%char :: R ->
  getModulePaths_loop F (S (List.length Q)) paths last p =
  getModulePaths_loop F (List.length Q)
    (if negb (p =? nmLen) then paths ++ [slice0 F last +:+ "/node_modules"]
     else paths)
    (List.length Q) 0.
Proof.
  intros H. simpl. by rewrite (charCodeAt_middle F Q R "/"%char H).
Qed.

Lemma loop_scan (a : list ascii) : forall F (Q R : list ascii) paths last p,
  Forall (fun c => c <> "/"%char) a ->
  chars F = Q ++ rev a ++ R ->
  getModulePaths_loop F (List.length Q + List.length a) paths last p =
  getModulePaths_loop F (List.length Q) paths last (scan p a).
Proof.
  induction a as [|c a IH]; intros F Q R paths last p Ha HF.
  - simpl. by rewrite Nat.add_0_r.
  - inversion Ha as [|? ? Hc Ha']; subst.
    simpl in HF. rewrite <- app_assoc in HF. simpl in HF.
    replace (List.length Q + List.length (c :: a))%nat
      with (S (List.length (Q ++ rev a))).
    2: { rewrite length_app, length_rev. simpl. lia. }
    assert (Hcode : charCodeAt F (List.length (Q ++ rev a)) = code c).
    { apply (charCodeAt_middle F (Q ++ rev a) R c).
      by rewrite <- app_assoc. }
    assert (Hns : (code c =? 47) = false).
    { apply Z.eqb_neq. intros E. apply Hc.
      apply code_inj. rewrite E. reflexivity. }
    cbn [getModulePaths_loop]. rewrite Hcode, Hns.
    replace (List.length (Q ++ rev a)) with (List.length Q + List.length a)%nat
      by (rewrite length_app, length_rev; lia).
    cbn [scan]. unfold scan_step.
    destruct (negb (p =? -1)).
    + case_bool_decide; apply (IH F Q (c :: R)); auto.
    + apply (IH F Q (c :: R)); auto.
Qed.

Lemma nmChars_nm_rev : nmChars = map code nm_rev.
Proof. reflexivity. Qed.

Lemma scan_stuck a : scan (-1) a = -1.
Proof. induction a as [|c a IH]; simpl; auto. Qed.

Lemma scan_spec (a : list ascii) : forall k : nat,
  (k <= 12)%nat -> scan (Z.of_nat k) a = 12 <-> a = drop k nm_rev.
Proof.
  induction a as [|c a IH]; intros k Hk.
  - simpl. split.
    + intros E. assert (k = 12%nat) as -> by lia. reflexivity.
    + intros E. symmetry in E. apply (f_equal List.length) in E.
      rewrite length_drop in E. change (List.length nm_rev) with 12%nat in E.
      simpl in E. lia.
  - cbn [scan]. unfold scan_step.
    replace (negb (Z.of_nat k =? -1)) with true
      by (symmetry; apply negb_true_iff, Z.eqb_neq; lia).
    rewrite Nat2Z.id, nmChars_nm_rev, list_lookup_fmap.
    destruct (nm_rev !! k) as [c'|] eqn:Hlk; simpl.
    + assert (k < 12)%nat as Hlt.
      { apply lookup_lt_Some in Hlk. exact Hlk. }
      rewrite (drop_S _ _ _ Hlk).
      case_bool_decide as Hc.
      * injection Hc as Hc. apply code_inj in Hc. subst c'.
        replace (Z.of_nat k + 1) with (Z.of_nat (S k)) by lia.
        rewrite (IH (S k)) by lia. split; [by intros -> | congruence].
      * rewrite scan_stuck. split; [lia |].
        intros E. injection E as E1 E2. subst c. by destruct Hc.
    + try (case_bool_decide; [done |]). rewrite scan_stuck. split; [lia |].
      apply lookup_ge_None in Hlk.
      rewrite drop_ge by exact Hlk. discriminate.
Qed.

Lemma scan_segment (s : string) :
  (scan 0 (rev (chars s)) =? nmLen) = String.eqb s "node_modules".
Proof.
  pose proof (scan_spec (rev (chars s)) 0 ltac:(lia)) as H.
  change (Z.of_nat 0) with 0 in H. rewrite drop_0 in H.
  unfold nmLen.
  destruct (String.eqb_spec s "node_modules") as [->|Hne].
  - apply Z.eqb_eq, H. reflexivity.
  - apply Z.eqb_neq. intros E. apply H in E. apply Hne, chars_inj.
    apply (f_equal (@rev ascii)) in E. rewrite rev_involutive in E.
    rewrite E. reflexivity.
Qed.

Lemma chars_path_of segs :
  chars (path_of segs) = concat (map (fun seg => "/"%char :: chars seg) segs).
Proof.
  induction segs as [|s segs IH]; [done |].
  change (path_of (s :: segs)) with ("/" +:+ s +:+ path_of segs).
  rewrite !chars_app, IH. reflexivity.
Qed.

Lemma path_of_snoc segs seg :
  path_of (segs ++ [seg]) = path_of segs +:+ "/" +:+ seg.
Proof.
  apply chars_inj.
  rewrite !chars_app, !chars_path_of, map_app, concat_app. simpl.
  by rewrite app_nil_r.
Qed.

Lemma loop_ancestors (rsegs : list string) : forall F (R : list ascii) paths,
  Forall segment rsegs ->
  chars F = chars (path_of (rev rsegs)) ++ R ->
  getModulePaths_loop F (List.length (chars (path_of (rev rsegs)))) paths
    (List.length (chars (path_of (rev rsegs)))) 0
  = paths ++ cands rsegs.
Proof.
  induction rsegs as [|seg rest IH]; intros F R paths Hsegs HF.
  - simpl. by rewrite app_nil_r.
  - inversion Hsegs as [|? ? [_ Hseg] Hrest]; subst.
    set (full := path_of (rev (seg :: rest))) in *.
    assert (Hfull : chars full
              = chars (path_of (rev rest)) ++ "/"%char :: chars seg).
    { unfold full. simpl rev. by rewrite path_of_snoc, !chars_app. }
    set (Q := chars (path_of (rev rest))) in *.
    rewrite Hfull in HF. rewrite <- app_assoc in HF. simpl in HF.
    replace (List.length (chars full))
      with (List.length (Q ++ ["/"%char]) + List.length (rev (chars seg)))%nat
      by (rewrite Hfull, !length_app, length_rev; simpl; lia).
    rewrite (loop_scan (rev (chars seg)) F (Q ++ ["/"%char]) R).
    2: { by apply Forall_rev. }
    2: { rewrite rev_involutive, <- app_assoc. exact HF. }
    replace (List.length (Q ++ ["/"%char])) with (S (List.length Q))
      by (rewrite length_app; simpl; lia).
    rewrite (loop_slash F Q (chars seg ++ R)) by exact HF.
    rewrite scan_segment.
    replace (S (List.length Q) + List.length (rev (chars seg)))%nat
      with (List.length (chars full))
      by (rewrite Hfull, !length_app, length_rev; simpl; lia).
    rewrite (slice0_prefix F full R).
    2: { rewrite Hfull, <- app_assoc. exact HF. }
    rewrite (IH F ("/"%char :: chars seg ++ R)) by auto.
    cbn [cands]. fold full.
    destruct (String.eqb seg "node_modules"); simpl; [done |].
    by rewrite <- app_assoc.
Qed.

Lemma ancestors_snoc segs seg :
  ancestors (segs ++ [seg]) = (segs ++ [seg]) :: ancestors segs.
Proof.
  unfold ancestors. rewrite length_app. simpl List.length.
  rewrite Nat.add_1_r, seq_S, rev_app_distr. simpl rev. cbn [map app].
  f_equal.
  - apply take_ge. rewrite length_app. simpl. lia.
  - apply map_ext_in. intros k Hk. apply in_rev, in_seq in Hk.
    apply take_app_le. lia.
Qed.

Lemma cands_ancestor_candidates segs :
  cands (rev segs) = ancestor_candidates segs.
Proof.
  induction segs as [|seg segs IH] using rev_ind; [done |].
  rewrite rev_app_distr. simpl rev. cbn [app cands].
  unfold ancestor_candidates. rewrite ancestors_snoc. cbn [List.filter].
  rewrite last_snoc, IH.
  change (rev (seg :: rev segs)) with (rev (rev segs) ++ [seg]).
  rewrite rev_involutive.
  destruct (String.eqb_spec seg "node_modules") as [->|Hne].
  - rewrite bool_decide_eq_true_2 by done. reflexivity.
  - rewrite bool_decide_eq_false_2 by congruence. reflexivity.
Qed.

(** ** [split] undoes a join *)

Lemma split_piece (d : ascii) (piece rest : string) :
  Forall (fun c => c <> d) (chars piece) ->
  split d (piece +:+ String d rest) = piece :: split d rest.
Proof.
  induction piece as [|c piece IH]; intros H; simpl.
  - by rewrite Ascii.eqb_refl.
  - inversion H as [|? ? Hc Hrest]; subst.
    apply Ascii.eqb_neq in Hc. rewrite Hc, (IH Hrest). reflexivity.
Qed.

Lemma split_last_piece (d : ascii) (piece : string) :
  Forall (fun c => c <> d) (chars piece) -> split d piece = [piece].
Proof.
  induction piece as [|c piece IH]; intros H; simpl; [done |].
  inversion H as [|? ? Hc Hrest]; subst.
  apply Ascii.eqb_neq in Hc. rewrite Hc, (IH Hrest). reflexivity.
Qed.

Lemma split_concat (d : ascii) (parts : list string) :
  parts <> [] ->
  Forall (fun part => Forall (fun c => c <> d) (chars part)) parts ->
  split d (String.concat (String d "") parts) = parts.
Proof.
  induction parts as [|part parts IH]; intros Hne H; [done |].
  inversion H as [|? ? Hpart Hparts]; subst.
  destruct parts as [|part' parts].
  - simpl. by apply split_last_piece.
  - change (String.concat (String d "") (part :: part' :: parts))
      with (part +:+ String d (String.concat (String d "") (part' :: parts))).
    rewrite split_piece by exact Hpart. f_equal. apply IH; [done | exact Hparts].
Qed.

Lemma globalPaths_entries (w : World) (parts : list string) :
  node_path_entries w parts ->
  Forall (fun part => Forall (fun c => c <> ":"%char) (chars part)) parts ->
  globalPaths w
  = List.filter nonempty parts ++ home_library_dirs w ++ [prefix_library_dir w].
Proof.
  unfold node_path_entries, globalPaths, home_library_dirs, prefix_library_dir.
  intros Hnode Hparts.
  set (lib := Path_resolve w _).
  assert (Hhome :
    match env_HOME w with
    | Some h =>
        if nonempty h
        then Path_resolve w [h; ".node_modules"]
               :: Path_resolve w [h; ".node_libraries"] :: [lib]
        else [lib]
    | None => [lib]
    end
    = match env_HOME w with
      | Some home =>
          if nonempty home
          then [Path_resolve w [home; ".node_modules"];
                Path_resolve w [home; ".node_libraries"]]
          else []
      | None => []
      end ++ [lib]).
  { destruct (env_HOME w) as [h|]; [destruct (nonempty h) |]; reflexivity. }
  rewrite Hhome. clear Hhome.
  destruct (env_NODE_PATH w) as [node|].
  - subst node. destruct (nonempty (String.concat ":" parts)) eqn:Hne.
    + destruct parts as [|part parts]; [discriminate |].
      unfold Path_delimiter. by rewrite split_concat.
    + apply negb_false_iff, String.eqb_eq in Hne.
      destruct parts as [|part [|part' parts]]; simpl in *.
      * reflexivity.
      * subst part. reflexivity.
      * apply (f_equal chars) in Hne. rewrite chars_app in Hne.
        apply (f_equal List.length) in Hne. rewrite length_app in Hne.
        simpl in Hne. lia.
  - subst parts. reflexivity.
Qed.

(** C6. On POSIX, for a starting directory that [Path.resolve] turns into
    [/s1/.../sn] (or the root, with no segment), the candidate list is
    [<ancestor>/node_modules] for the ancestors from [/s1/.../sn] up to
    [/s1], but for those whose last segment is [node_modules], then
    [/node_modules], then the non-empty entries of [NODE_PATH] in order,
    then [.node_modules] and [.node_libraries] of the home directory, then
    [lib/node] of the installation prefix. *)
Theorem getModulePaths_candidates (w : World) (from : string)
    (segs parts : list string) :
  Path_resolve w [from] = abs_path segs ->
  Forall segment segs ->
  node_path_entries w parts ->
  Forall (fun part => Forall (fun c => c <> ":"%char) (chars part)) parts ->
  getModulePaths w from
  = ancestor_candidates segs ++ ["/node_modules"]
      ++ List.filter nonempty parts
      ++ home_library_dirs w ++ [prefix_library_dir w].
Proof.
  intros Hfrom Hsegs Hnode Hparts. unfold getModulePaths.
  rewrite Hfrom, (globalPaths_entries w parts Hnode Hparts).
  destruct segs as [|seg segs]; [reflexivity |].
  assert (Hroot : String.eqb (abs_path (seg :: segs)) "/" = false).
  { apply String.eqb_neq. intros E. inversion Hsegs as [|? ? [Hne _] _]; subst.
    apply Hne. simpl in E. injection E as E.
    destruct seg; [done | discriminate]. }
  rewrite Hroot. change (abs_path (seg :: segs)) with (path_of (seg :: segs)).
  rewrite <- (chars_length (path_of (seg :: segs))).
  rewrite <- (rev_involutive (seg :: segs)) at 1 2 3.
  rewrite (loop_ancestors (rev (seg :: segs)) _ []).
  - rewrite cands_ancestor_candidates. simpl app at 1.
    by rewrite <- !app_assoc.
  - by apply Forall_rev.
  - by rewrite rev_involutive, app_nil_r.
Qed.

(** The candidates from inside a [node_modules] tree, with a [NODE_PATH]
    and a home directory. *)
Lemma getModulePaths_candidates_witness :
  getModulePaths world_paths "/proj/node_modules/left-pad"
  = ["/proj/node_modules/left-pad/node_modules"; "/proj/node_modules";
     "/node_modules"; "/opt/a"; "/opt/b"; "/home/u/.node_modules";
     "/home/u/.node_libraries"; "/usr/lib/node"].
Proof.
  rewrite (getModulePaths_candidates world_paths "/proj/node_modules/left-pad"
             ["proj"; "node_modules"; "left-pad"] ["/opt/a"; ""; "/opt/b"]).
  - reflexivity.
  - reflexivity.
  - unfold segment. repeat constructor; discriminate.
  - reflexivity.
  - repeat constructor; discriminate.
Defined.

(** ** The resolver *)

Lemma stat_is_directory w path :
  (stat w path <? 1) = false <-> is_directory w path.
Proof.
  unfold stat, is_directory.
  destruct (fs_statSync w path) as [[e|]|[|]]; simpl;
    rewrite ?Z.ltb_ge, ?Z.ltb_nlt; split; intros H; try done; try lia.
Qed.

Lemma stat_path_exists w path :
  (stat w path <? 0) = false <-> path_exists w path.
Proof.
  unfold stat, path_exists.
  destruct (fs_statSync w path) as [[e|]|[|]]; simpl;
    rewrite ?Z.ltb_ge, ?Z.ltb_nlt; split; intros H;
    try done; try lia; try (by destruct H); eauto.
Qed.

Lemma resolve_loop_step w name path rest :
  resolve_loop w name (path :: rest)
  = if (stat w path <? 1) || (stat w (Path_resolve w [path; name]) <? 0)
    then resolve_loop w name rest
    else Some (Path_resolve w [path; name]).
Proof. simpl. by destruct (stat w path <? 1). Qed.

Lemma holds_stat w name c :
  (stat w c <? 1) || (stat w (Path_resolve w [c; name]) <? 0) = false
  <-> holds w name c.
Proof.
  unfold holds. rewrite orb_false_iff, stat_is_directory, stat_path_exists.
  done.
Qed.

Lemma resolve_loop_Some w name paths b :
  resolve_loop w name paths = Some b <-> first_holding w name paths b.
Proof.
  unfold first_holding. induction paths as [|path rest IH].
  - split; [done |]. intros (before & c & after & E & _). by destruct before.
  - rewrite resolve_loop_step.
    destruct (_ || _) eqn:Hstat.
    + assert (Hno : ~ holds w name path).
      { intros Hh. apply holds_stat in Hh. congruence. }
      rewrite IH. split.
      * intros (before & c & after & -> & Hb & Hc & ->).
        exists (path :: before), c, after. split; [done |].
        split; [by constructor | done].
      * intros (before & c & after & E & Hb & Hc & ->).
        destruct before as [|p before]; simpl in E; injection E as -> ->.
        -- done.
        -- inversion Hb; subst. by exists before, c, after.
    + apply holds_stat in Hstat. split.
      * intros [= <-]. exists [], path, rest. done.
      * intros (before & c & after & E & Hb & Hc & ->).
        destruct before as [|p before]; simpl in E; injection E as -> ->.
        -- done.
        -- inversion Hb; subst. done.
Qed.

Lemma resolve_loop_None w name paths :
  resolve_loop w name paths = None
  <-> Forall (fun c => ~ holds w name c) paths.
Proof.
  induction paths as [|path rest IH]; [by split |].
  rewrite resolve_loop_step. destruct (_ || _) eqn:Hstat.
  - rewrite IH. split.
    + intros H. constructor; [| done].
      intros Hh. apply holds_stat in Hh. congruence.
    + intros H. by inversion H.
  - apply holds_stat in Hstat. split; [done |]. intros H. by inversion H.
Qed.

(** C2, amended. The resolver succeeds on paths that exist, directories or
    not. For a name that starts with [.] or [/] it returns the path
    resolved against the starting directory iff that path exists. For any
    other name it returns [<candidate>/<name>] for the first candidate of
    the search list that is a directory and under which that path exists.
    It returns not-found exactly when there is no such path. *)
Theorem resolve_returns_existing_path (w : World) (name dirname : string) :
  (path_like name = true ->
     (forall b, resolve w name dirname = Some b <->
        b = Path_resolve w [dirname; name] /\ path_exists w b) /\
     (resolve w name dirname = None <->
        ~ path_exists w (Path_resolve w [dirname; name]))) /\
  (path_like name = false ->
     (forall b, resolve w name dirname = Some b <->
        first_holding w name (getModulePaths w dirname) b) /\
     (resolve w name dirname = None <->
        Forall (fun c => ~ holds w name c) (getModulePaths w dirname))).
Proof.
  unfold resolve, path_like. split; intros ->.
  - destruct (stat w _ <? 0) eqn:Hstat.
    + assert (Hno : ~ path_exists w (Path_resolve w [dirname; name])).
      { intros He. apply stat_path_exists in He. congruence. }
      split; [| done]. intros b. split; [done |]. intros [-> He]. done.
    + apply stat_path_exists in Hstat. split.
      * intros b. split; [by intros [= <-] | by intros [-> _]].
      * split; [done | by intros H].
  - split; [intros b; apply resolve_loop_Some | apply resolve_loop_None].
Qed.

(** C2 as stated fails: the resolver returns the path of a regular file,
    for a relative name and for a bare name. *)
Lemma resolve_returns_regular_file :
  (resolve world_files "./x" "/proj" = Some "/proj/x" /\
   fs_statSync world_files "/proj/x" = StatOk false) /\
  (resolve world_files "y" "/proj" = Some "/proj/node_modules/y" /\
   fs_statSync world_files "/proj/node_modules/y" = StatOk false).
Proof. repeat split; reflexivity. Qed.

(** C3, amended. With an empty name the resolver searches the candidates as
    for any bare name: it returns [Path.resolve(c, '')] for the first
    candidate [c] that is a directory and for which that path exists, and
    not-found exactly when no candidate is one. *)
Theorem resolve_empty_name (w : World) (dirname : string) :
  (forall b, resolve w "" dirname = Some b <->
     first_holding w "" (getModulePaths w dirname) b) /\
  (resolve w "" dirname = None <->
     Forall (fun c => ~ holds w "" c) (getModulePaths w dirname)).
Proof.
  unfold resolve. simpl.
  split; [intros b; apply resolve_loop_Some | apply resolve_loop_None].
Qed.

(** C3 as stated fails: with an empty name, the resolver returns the
    [node_modules] directory of the starting directory. *)
Lemma resolve_empty_name_found :
  resolve world_B "" "/proj" = Some "/proj/node_modules".
Proof. reflexivity. Qed.

(** ** The verifier, one step at a time *)

Lemma error_final o m st :
  final (error o m st) = Some (emit (EError m) st).
Proof.
  unfold error. destruct (opt_error o) as [hook|]; [| done].
  by destruct (hook (render m)).
Qed.

Lemma error_returns o m st :
  hook_returns o m -> error o m st = Done (emit (EError m) st).
Proof. intros (hook & Ho & Hr). unfold error. by rewrite Ho, Hr. Qed.

Lemma verifyDep_resolves w o rec field deps dirname name expect st :
  resolvable_name name ->
  get_prop deps name = Some (JStr expect) ->
  verifyDep w o rec field deps dirname name st
  = match resolve w name dirname with
    | None =>
        if String.eqb field "optionalDependencies"
        then Done (debug (MissingOptionalDependency name expect) st)
        else error o (MissingDependency name expect) st
    | Some moddir =>
        let '(pkg, st) := read w moddir (debug (OpeningSub moddir) st) in
        if strict_eq_num pkg (-1) then
          error o (UnreadableDependency name expect) st
        else if strict_eq_num pkg (-2) then
          error o (MalformedDependency name expect) st
        else if negb (truthy pkg) then error o (NoVersion name expect) st
        else
          match get_prop pkg "version" with
          | None => Thrown st TypeError
          | Some (JStr version) =>
              let! st :=
                if negb (semver_valid w version) then
                  error o (InvalidVersion name expect version) st
                else if negb (semver_satisfies w version expect) then
                  error o (UnmetVersion name expect version) st
                else Done st in
              rec pkg moddir (debug (ValidVersion name version expect) st)
          | Some _ => error o (NoVersion name expect) st
          end
    end.
Proof.
  intros (Hlen & Hat & Hurl) Hexpect. unfold verifyDep.
  apply Nat.eqb_neq in Hlen. rewrite Hlen, Hurl, Hexpect.
  by rewrite bool_decide_eq_false_2.
Qed.



Lemma string_version_manifest pkg version :
  get_prop pkg "version" = Some (JStr version) ->
  truthy pkg = true /\ forall n, strict_eq_num pkg n = false.
Proof. destruct pkg; simpl; intros H; try discriminate; done. Qed.



(** ** The top-level operation *)

Lemma named_manifest_is_object pkg name pkgName :
  get_prop pkg "name" = Some pkgName ->
  strict_eq_str pkgName name = true ->
  not_an_object pkg = false.
Proof.
  destruct pkg; simpl; intros H; try discriminate;
    injection H as <-; simpl; try discriminate; done.
Qed.

Lemma read_null w moddir data st :
  fs_readFileSync w (Path_resolve w [moddir; "package.json"]) = Some data ->
  JSON_parse w data = Some JNull ->
  read w moddir st
  = (JNull, emit (ERead (Path_resolve w [moddir; "package.json"])) st).
Proof. intros Hfile Hparse. unfold read. by rewrite Hfile, Hparse. Qed.

(** C10. [verify] reads [pkg.name] before its guard against a manifest that
    is not an object. So a manifest file that parses to [null] makes
    [verify] throw a [TypeError], with no call of [this.error]; and the
    guard never fires: where the names have compared equal the manifest is
    an object, and [verify] behaves as it does without that branch. *)
Theorem null_manifest_type_error (w : World) (o : Options) (fuel : nat)
    (name dirname : string) (st : State) :
  (forall moddir data,
     resolve w name dirname = Some moddir ->
     fs_readFileSync w (Path_resolve w [moddir; "package.json"]) = Some data ->
     JSON_parse w data = Some JNull ->
     verify w o fuel name dirname st
     = Thrown
         {| cache := cache st; bindings := bindings st;
            trace := trace st ++
              [EDebug (OpeningMain moddir);
               ERead (Path_resolve w [moddir; "package.json"])] |}
         TypeError) /\
  (forall pkg pkgName,
     get_prop pkg "name" = Some pkgName ->
     strict_eq_str pkgName name = true ->
     not_an_object pkg = false) /\
  verify w o fuel name dirname st = verify_unguarded w o fuel name dirname st.
Proof.
  split; [| split].
  - intros moddir data Hres Hfile Hparse. unfold verify.
    rewrite Hres, (read_null w moddir data _ Hfile Hparse). simpl.
    unfold emit. simpl. by rewrite <- app_assoc.
  - intros pkg pkgName. apply named_manifest_is_object.
  - unfold verify, verify_unguarded.
    destruct (resolve w name dirname) as [moddir|]; [| done].
    destruct (read w moddir _) as [pkg st1].
    destruct (strict_eq_num pkg (-1)); [done |].
    destruct (strict_eq_num pkg (-2)); [done |].
    destruct (get_prop pkg "name") as [pkgName|] eqn:Hname; [| done].
    destruct (strict_eq_str pkgName name) eqn:Heq; [| done]. cbn [negb].
    pose proof (named_manifest_is_object pkg name pkgName Hname Heq) as Hobj.
    unfold not_an_object in Hobj. by rewrite Hobj.
Qed.

(** A manifest file that holds [null]. *)
Lemma null_manifest_type_error_witness :
  verify world_null warn_options 3 "app" "/proj" new_Verifier
  = Thrown
      {| cache := ∅; bindings := ∅;
         trace := [EDebug (OpeningMain "/proj/node_modules/app");
                   ERead "/proj/node_modules/app/package.json"] |}
      TypeError.
Proof.
  refine (proj1 (null_manifest_type_error world_null warn_options 3 "app"
    "/proj" new_Verifier) "/proj/node_modules/app" "null" _ _ _);
    reflexivity.
Defined.

(** C1, amended. When the declared name of the loaded manifest differs from
    the requested name, [verify] ends there: [verifyPackage] is not called
    and the visited set is as it was. If the declared name has a string
    form, the mismatch is reported through [this.error]: the outcome is that
    of the call of [this.error], and the mismatch is the last event of the
    run. If it has none, building the message throws a [TypeError], and
    [this.error] is not called. *)
Theorem name_mismatch_returns (w : World) (o : Options) (fuel : nat)
    (name dirname moddir : string) (pkg pkgName : JSValue) (st st1 : State) :
  resolve w name dirname = Some moddir ->
  read w moddir (debug (OpeningMain moddir) st) = (pkg, st1) ->
  strict_eq_num pkg (-1) = false ->
  strict_eq_num pkg (-2) = false ->
  get_prop pkg "name" = Some pkgName ->
  strict_eq_str pkgName name = false ->
  (forall text, ToString w pkgName = Some text ->
     verify w o fuel name dirname st = error o (NameMismatch name text) st1 /\
     final (verify w o fuel name dirname st)
     = Some {| cache := cache st; bindings := bindings st;
               trace := trace st ++
                 [EDebug (OpeningMain moddir);
                  ERead (Path_resolve w [moddir; "package.json"]);
                  EError (NameMismatch name text)] |}) /\
  (ToString w pkgName = None ->
     verify w o fuel name dirname st
     = Thrown {| cache := cache st; bindings := bindings st;
                 trace := trace st ++
                   [EDebug (OpeningMain moddir);
                    ERead (Path_resolve w [moddir; "package.json"])] |}
         TypeError).
Proof.
  intros Hres Hread Hn1 Hn2 Hname Hne.
  assert (Hst1 : st1 = emit (ERead (Path_resolve w [moddir; "package.json"]))
                         (debug (OpeningMain moddir) st)).
  { unfold read in Hread.
    destruct (fs_readFileSync w _) as [data|]; [| by injection Hread].
    destruct (JSON_parse w data); by injection Hread. }
  split.
  - intros text Htext.
    assert (Hverify : verify w o fuel name dirname st
                      = error o (NameMismatch name text) st1).
    { unfold verify. by rewrite Hres, Hread, Hn1, Hn2, Hname, Hne, Htext. }
    split; [exact Hverify |]. rewrite Hverify, error_final.
    subst st1. unfold emit, debug, emit. simpl. by rewrite <- !app_assoc.
  - intros Htext. unfold verify.
    rewrite Hres, Hread, Hn1, Hn2, Hname, Hne, Htext. cbn [negb].
    subst st1. unfold emit, debug, emit. simpl. by rewrite <- !app_assoc.
Qed.

(** The mismatch under the default policy. *)
Lemma name_mismatch_returns_witness :
  final (verify world_mismatch throw_options 3 "lib" "/proj" new_Verifier)
  = Some {| cache := ∅; bindings := ∅;
            trace := [EDebug (OpeningMain "/proj/node_modules/lib");
                      ERead "/proj/node_modules/lib/package.json";
                      EError (NameMismatch "lib" "other")] |}.
Proof.
  refine (proj2 (proj1 (name_mismatch_returns world_mismatch throw_options 3
    "lib" "/proj" "/proj/node_modules/lib"
    (pkg "other" "1.0.0" [("gone", JStr "^1.0.0")]) (JStr "other")
    new_Verifier _ _ _ _ _ _ _) "other" _));
    reflexivity.
Defined.

(** C1 as stated fails: with a hook that returns, [verify] ends at the
    mismatch, the directory of the package is not visited and its missing
    dependency is not reported, as it would be if verification went on. *)
Lemma name_mismatch_not_verified :
  verify world_mismatch warn_options 3 "lib" "/proj" new_Verifier
  = Done {| cache := ∅; bindings := ∅;
            trace := [EDebug (OpeningMain "/proj/node_modules/lib");
                      ERead "/proj/node_modules/lib/package.json";
                      EError (NameMismatch "lib" "other")] |} /\
  verify_permissive world_mismatch warn_options 3 "lib" "/proj" new_Verifier
  = Done {| cache := {["/proj/node_modules/lib"]}; bindings := ∅;
            trace := [EDebug (OpeningMain "/proj/node_modules/lib");
                      ERead "/proj/node_modules/lib/package.json";
                      EError (NameMismatch "lib" "other");
                      EDebug (OpenedMain "other");
                      EDebug (Verifying "other" "/proj/node_modules/lib");
                      EError (MissingDependency "gone" "^1.0.0");
                      EDebug (PackageValid "other")] |}.
Proof. split; vm_compute; reflexivity. Qed.

(** A declared name without a string form: the message of the mismatch
    cannot be built, and [verify] throws whatever the error policy is. *)
Example name_without_string_form :
  verify world_odd_name warn_options 3 "left-pad" "/proj" new_Verifier
  = Thrown {| cache := ∅; bindings := ∅;
              trace := [EDebug (OpeningMain "/proj/node_modules/left-pad");
                        ERead "/proj/node_modules/left-pad/package.json"] |}
      TypeError.
Proof. vm_compute. reflexivity. Qed.

(** ** Visits *)

Lemma visits_app l1 l2 : visits (l1 ++ l2) = visits l1 ++ visits l2.
Proof. apply omap_app. Qed.

Lemma extends_refl st : extends st st.
Proof.
  exists []. rewrite app_nil_r. split; [done |]. split; [done |].
  split; [constructor |]. intros d Hd. by apply not_elem_of_nil in Hd.
Qed.

Lemma extends_trans st1 st2 st3 :
  extends st1 st2 -> extends st2 st3 -> extends st1 st3.
Proof.
  intros (n1 & Ht1 & Hc1 & Hd1 & Hnew1) (n2 & Ht2 & Hc2 & Hd2 & Hnew2).
  exists (n1 ++ n2). split; [by rewrite Ht2, Ht1, app_assoc |].
  split; [set_solver |]. rewrite visits_app. split.
  - apply NoDup_app. split; [done |]. split; [| done].
    intros d Hin1 Hin2. destruct (Hnew1 d Hin1), (Hnew2 d Hin2). set_solver.
  - intros d [Hd|Hd]%elem_of_app.
    + destruct (Hnew1 d Hd). set_solver.
    + destruct (Hnew2 d Hd). set_solver.
Qed.

Lemma extends_emit e st : visit_of e = None -> extends st (emit e st).
Proof.
  intros He. exists [e]. unfold visits. simpl. rewrite He.
  split; [done |]. split; [done |].
  split; [constructor |]. intros d Hd. by apply not_elem_of_nil in Hd.
Qed.

Lemma extends_cache st st' : extends st st' -> cache st ⊆ cache st'.
Proof. by intros (? & _ & H & _). Qed.

Lemma advances_Done st st' : extends st st' -> advances st (Done st').
Proof. intros H st'' [= <-]. exact H. Qed.

Lemma advances_Thrown st st' e : extends st st' -> advances st (Thrown st' e).
Proof. intros H st'' [= <-]. exact H. Qed.

Lemma advances_error o m st : advances st (error o m st).
Proof.
  intros st'. rewrite error_final. intros [= <-]. by apply extends_emit.
Qed.

Lemma advances_bind st r k :
  advances st r ->
  (forall st1, extends st st1 -> advances st1 (k st1)) ->
  advances st (bind r k).
Proof.
  intros Hr Hk. destruct r as [st1|st1 e|]; simpl.
  - intros st' Hf. apply (extends_trans st st1); [by apply Hr |].
    by apply (Hk st1); [apply Hr |].
  - exact Hr.
  - done.
Qed.

Lemma advances_from st st1 r :
  extends st st1 -> advances st1 r -> advances st r.
Proof. intros H Hr st' Hf. apply (extends_trans st st1); auto. Qed.

Lemma read_extends w moddir st pkg st1 :
  read w moddir st = (pkg, st1) ->
  st1 = emit (ERead (Path_resolve w [moddir; "package.json"])) st.
Proof.
  unfold read. destruct (fs_readFileSync w _) as [data|]; [| by intros [= _ <-]].
  destruct (JSON_parse w data); by intros [= _ <-].
Qed.

(** ** The shape of the loop body *)

Lemma error_cases o m st :
  error o m st = Done (emit (EError m) st) \/
  exists e, error o m st = Thrown (emit (EError m) st) e.
Proof.
  unfold error. destruct (opt_error o) as [hook|]; [| eauto].
  destruct (hook (render m)); eauto.
Qed.

Lemma error_not_OutOfFuel o m st : error o m st <> OutOfFuel.
Proof. destruct (error_cases o m st) as [->| [e ->]]; discriminate. Qed.

Ltac early r :=
  left; exists r; split; [first [discriminate | apply error_not_OutOfFuel] |];
  split; [| reflexivity].

Lemma verifyDep_shape w o field deps dirname name st :
  ends_early w o field deps dirname name st \/
  recurses w o field deps dirname name st.
Proof.
  unfold ends_early, recurses, verifyDep.
  destruct (String.length name =? 0)%nat;
    [early (error o (InvalidName field) st); apply advances_error |].
  case_bool_decide; [early (Done st); apply advances_Done, extends_refl |].
  destruct (has_scheme name);
    [early (Done st); apply advances_Done, extends_refl |].
  destruct (get_prop deps name) as [expect|];
    [| early (Thrown st TypeError); apply advances_Thrown, extends_refl].
  destruct expect as [| | | |expect| |];
    try (early (error o (InvalidRange field name) st); apply advances_error).
  destruct (resolve w name dirname) as [moddir|].
  2: { destruct (String.eqb field "optionalDependencies").
       - early (Done (debug (MissingOptionalDependency name expect) st)).
         by apply advances_Done, extends_emit.
       - early (error o (MissingDependency name expect) st).
         apply advances_error. }
  destruct (read w moddir _) as [pkg st1] eqn:Hread.
  apply read_extends in Hread.
  assert (Hst1 : extends st st1).
  { subst st1. apply (extends_trans _ (debug (OpeningSub moddir) st));
      by apply extends_emit. }
  clear Hread.
  destruct (strict_eq_num pkg (-1)).
  { early (error o (UnreadableDependency name expect) st1).
    apply (advances_from st st1); [done | apply advances_error]. }
  destruct (strict_eq_num pkg (-2)).
  { early (error o (MalformedDependency name expect) st1).
    apply (advances_from st st1); [done | apply advances_error]. }
  destruct (negb (truthy pkg)).
  { early (error o (NoVersion name expect) st1).
    apply (advances_from st st1); [done | apply advances_error]. }
  destruct (get_prop pkg "version") as [version|].
  2: { early (Thrown st1 TypeError). by apply advances_Thrown. }
  destruct version as [| | | |version| |];
    try (early (error o (NoVersion name expect) st1);
         apply (advances_from st st1); [done | apply advances_error]).
  set (check := if negb (semver_valid w version) then _ else _).
  assert (Hcheck : (exists st2, check = Done st2 /\ extends st st2) \/
                   (exists st2 e, check = Thrown st2 e /\ extends st st2)).
  { assert (Herr : forall m,
      (exists st2, error o m st1 = Done st2 /\ extends st st2) \/
      (exists st2 e, error o m st1 = Thrown st2 e /\ extends st st2)).
    { intros m.
      assert (Hm : extends st (emit (EError m) st1))
        by (apply (extends_trans st st1); [done | by apply extends_emit]).
      destruct (error_cases o m st1) as [E | [e E]]; [left | right].
      - by exists (emit (EError m) st1).
      - by exists (emit (EError m) st1), e. }
    unfold check. destruct (negb (semver_valid w version)); [apply Herr |].
    destruct (negb (semver_satisfies w version expect)); [apply Herr |].
    left. by exists st1. }
  destruct Hcheck as [(st2 & -> & Hst2) | (st2 & e & -> & Hst2)].
  - right. exists pkg, moddir, (debug (ValidVersion name version expect) st2).
    split; [done |]. split; [| reflexivity].
    apply (extends_trans st st2); [done | by apply extends_emit].
  - early (Thrown st2 e). by apply advances_Thrown.
Qed.

(** ** Every step advances *)

Section Advances.

Variable w : World.
Variable o : Options.
Variable rec : JSValue -> string -> State -> Outcome.
Hypothesis rec_advances : forall pkg dirname st, advances st (rec pkg dirname st).

Lemma verifyDep_advances field deps dirname name st :
  advances st (verifyDep w o rec field deps dirname name st).
Proof.
  destruct (verifyDep_shape w o field deps dirname name st)
    as [(r & _ & Hr & ->) | (pkg & moddir & st2 & _ & Hst2 & ->)]; [done |].
  apply (advances_from st st2); [done | apply rec_advances].
Qed.

Lemma verifyDeps_loop_advances field deps dirname names : forall st,
  advances st (verifyDeps_loop w o rec field deps dirname names st).
Proof.
  induction names as [|name rest IH]; intros st; simpl.
  - apply advances_Done, extends_refl.
  - apply advances_bind; [apply verifyDep_advances | intros st1 _; apply IH].
Qed.

Lemma verifyFields_advances fs pkg dirname : forall st,
  advances st (verifyFields w o rec fs pkg dirname st).
Proof.
  induction fs as [|field rest IH]; intros st; simpl.
  - apply advances_Done, extends_refl.
  - destruct (get_prop pkg field) as [deps|];
      [| apply advances_Thrown, extends_refl].
    destruct (negb (truthy deps)); [apply IH |].
    destruct (negb (String.eqb (typeof deps) "object")).
    + apply advances_bind; [apply advances_error | intros st1 _; apply IH].
    + apply advances_bind;
        [apply verifyDeps_loop_advances | intros st1 _; apply IH].
Qed.

End Advances.

Lemma extends_visit st pkgName dirname st1 :
  dirname ∉ cache st ->
  cache st1 = {[dirname]} ∪ cache st ->
  trace st1 = trace st ->
  extends st (debug (Verifying pkgName dirname) st1).
Proof.
  intros Hnew Hcache Htrace. exists [EDebug (Verifying pkgName dirname)].
  simpl. rewrite Htrace, Hcache. split; [done |]. split; [set_solver |].
  split; [apply NoDup_singleton |].
  intros d Hd. apply list_elem_of_singleton in Hd. subst d. set_solver.
Qed.

Lemma verifyPackage_advances w o fuel : forall pkg dirname st,
  advances st (verifyPackage w o fuel pkg dirname st).
Proof.
  induction fuel as [|fuel IH]; intros pkg dirname st;
    cbn [verifyPackage]; [done |].
  case_bool_decide as Hin; [apply advances_Done, extends_refl |].
  set (st1 := if hasBinding w dirname then _ else _).
  assert (Hcache : cache st1 = {[dirname]} ∪ cache st)
    by (unfold st1; by destruct (hasBinding w dirname)).
  assert (Htrace : trace st1 = trace st)
    by (unfold st1; by destruct (hasBinding w dirname)).
  assert (Hmarked : extends st st1).
  { exists []. rewrite app_nil_r, Htrace, Hcache.
    split; [done |]. split; [set_solver |]. split; [constructor |].
    intros d Hd. by apply not_elem_of_nil in Hd. }
  destruct (get_prop pkg "name") as [pkgName|]; [| by apply advances_Thrown].
  destruct (ToString w pkgName) as [text|]; [| by apply advances_Thrown].
  apply (advances_from st (debug (Verifying text dirname) st1)).
  { by apply extends_visit. }
  apply advances_bind; [by apply verifyFields_advances |].
  intros st2 _. by apply advances_Done, extends_emit.
Qed.

Lemma verify_advances w o fuel name dirname st :
  advances st (verify w o fuel name dirname st).
Proof.
  unfold verify. destruct (resolve w name dirname) as [moddir|];
    [| apply advances_error].
  destruct (read w moddir _) as [pkg st1] eqn:Hread.
  apply read_extends in Hread.
  assert (Hst1 : extends st st1).
  { subst st1. apply (extends_trans _ (debug (OpeningMain moddir) st));
      by apply extends_emit. }
  apply (advances_from st st1); [exact Hst1 |].
  destruct (strict_eq_num pkg (-1)); [apply advances_error |].
  destruct (strict_eq_num pkg (-2)); [apply advances_error |].
  destruct (get_prop pkg "name") as [pkgName|];
    [| apply advances_Thrown, extends_refl].
  destruct (negb (strict_eq_str pkgName name)).
  { destruct (ToString w pkgName);
      [apply advances_error | apply advances_Thrown, extends_refl]. }
  destruct (_ || _); [apply advances_error |].
  destruct (ToString w pkgName) as [text|];
    [| apply advances_Thrown, extends_refl].
  apply (advances_from st1 (debug (OpenedMain text) st1));
    [by apply extends_emit | apply verifyPackage_advances].
Qed.

(** ** Enough fuel *)

Lemma bind_not_OutOfFuel r k :
  r <> OutOfFuel ->
  (forall st, r = Done st -> k st <> OutOfFuel) ->
  bind r k <> OutOfFuel.
Proof. destruct r; simpl; [auto | discriminate | done]. Qed.

Section Returns.

Variable w : World.
Variable o : Options.
(** The directories of the world: whatever the resolver returns is one. *)
Variable U : gset string.
Hypothesis resolve_in_U :
  forall name dirname moddir, resolve w name dirname = Some moddir -> moddir ∈ U.

Variable rec : JSValue -> string -> State -> Outcome.
Variable C : gset string.
Hypothesis rec_advances : forall pkg dirname st, advances st (rec pkg dirname st).
Hypothesis rec_returns : forall pkg dirname st,
  C ⊆ cache st -> dirname ∈ U -> rec pkg dirname st <> OutOfFuel.

Lemma verifyDep_returns field deps dirname name st :
  C ⊆ cache st -> verifyDep w o rec field deps dirname name st <> OutOfFuel.
Proof.
  intros HC.
  destruct (verifyDep_shape w o field deps dirname name st)
    as [(r & Hr & _ & ->) | (pkg & moddir & st2 & Hres & Hst2 & ->)]; [done |].
  apply rec_returns; [| by apply (resolve_in_U name dirname)].
  apply extends_cache in Hst2. set_solver.
Qed.

Lemma verifyDeps_loop_returns field deps dirname names : forall st,
  C ⊆ cache st ->
  verifyDeps_loop w o rec field deps dirname names st <> OutOfFuel.
Proof.
  induction names as [|name rest IH]; intros st HC; simpl; [done |].
  apply bind_not_OutOfFuel; [by apply verifyDep_returns |].
  intros st1 Hst1. apply IH.
  pose proof (verifyDep_advances w o rec rec_advances field deps dirname name
                st st1) as Hadv.
  rewrite Hst1 in Hadv. specialize (Hadv eq_refl).
  apply extends_cache in Hadv. set_solver.
Qed.

Lemma verifyFields_returns fs pkg dirname : forall st,
  C ⊆ cache st -> verifyFields w o rec fs pkg dirname st <> OutOfFuel.
Proof.
  induction fs as [|field rest IH]; intros st HC; simpl; [done |].
  destruct (get_prop pkg field) as [deps|]; [| done].
  destruct (negb (truthy deps)); [by apply IH |].
  destruct (negb (String.eqb (typeof deps) "object")).
  - apply bind_not_OutOfFuel; [apply error_not_OutOfFuel |].
    intros st1 Hst1. apply IH.
    pose proof (advances_error o (InvalidFieldType field) st st1) as Hadv.
    rewrite Hst1 in Hadv. specialize (Hadv eq_refl).
    apply extends_cache in Hadv. set_solver.
  - apply bind_not_OutOfFuel; [by apply verifyDeps_loop_returns |].
    intros st1 Hst1. apply IH.
    pose proof (verifyDeps_loop_advances w o rec rec_advances field deps
                  dirname (Object_keys deps) st st1) as Hadv.
    unfold verifyDeps in Hst1. rewrite Hst1 in Hadv. specialize (Hadv eq_refl).
    apply extends_cache in Hadv. set_solver.
Qed.

End Returns.

Lemma verifyPackage_returns w o (U : gset string) :
  (forall name dirname moddir,
     resolve w name dirname = Some moddir -> moddir ∈ U) ->
  forall fuel pkg dirname st,
    dirname ∈ U -> (size (U ∖ cache st) < fuel)%nat ->
    verifyPackage w o fuel pkg dirname st <> OutOfFuel.
Proof.
  intros HU. induction fuel as [|fuel IH]; intros pkg dirname st Hd Hfuel;
    [lia |].
  cbn [verifyPackage]. case_bool_decide as Hin; [done |].
  set (st1 := if hasBinding w dirname then _ else _).
  assert (Hcache : cache st1 = {[dirname]} ∪ cache st)
    by (unfold st1; by destruct (hasBinding w dirname)).
  destruct (get_prop pkg "name") as [pkgName|]; [| done].
  destruct (ToString w pkgName) as [text|]; [| done].
  apply bind_not_OutOfFuel; [| done].
  apply (verifyFields_returns w o U HU (verifyPackage w o fuel)
           ({[dirname]} ∪ cache st)).
  - apply verifyPackage_advances.
  - intros pkg' dirname' st' HC Hd'. apply IH; [done |].
    assert (Hlt : (size (U ∖ cache st') < size (U ∖ cache st))%nat).
    { apply subset_size. split; [set_solver |]. intros Hsub.
      assert (Hdiff : dirname ∈ U ∖ cache st) by set_solver.
      apply Hsub in Hdiff. set_solver. }
    lia.
  - simpl. by rewrite Hcache.
Qed.

(** ** More fuel changes nothing *)

Section MoreFuel.

Variable w : World.
Variable o : Options.
Variables rec1 rec2 : JSValue -> string -> State -> Outcome.
Hypothesis rec_more : forall pkg dirname st,
  rec1 pkg dirname st <> OutOfFuel -> rec2 pkg dirname st = rec1 pkg dirname st.

Lemma bind_more r1 r2 k1 k2 :
  bind r1 k1 <> OutOfFuel ->
  (r1 <> OutOfFuel -> r2 = r1) ->
  (forall st, k1 st <> OutOfFuel -> k2 st = k1 st) ->
  bind r2 k2 = bind r1 k1.
Proof.
  intros Hb Hr Hk. destruct r1 as [st|st e|]; simpl in *; [| | done].
  - rewrite Hr by done. simpl. by apply Hk.
  - by rewrite Hr.
Qed.

Lemma verifyDep_more field deps dirname name st :
  verifyDep w o rec1 field deps dirname name st <> OutOfFuel ->
  verifyDep w o rec2 field deps dirname name st
  = verifyDep w o rec1 field deps dirname name st.
Proof.
  destruct (verifyDep_shape w o field deps dirname name st)
    as [(r & Hr & _ & E) | (pkg & moddir & st2 & _ & _ & E)];
    rewrite !E; [done | apply rec_more].
Qed.

Lemma verifyDeps_loop_more field deps dirname names : forall st,
  verifyDeps_loop w o rec1 field deps dirname names st <> OutOfFuel ->
  verifyDeps_loop w o rec2 field deps dirname names st
  = verifyDeps_loop w o rec1 field deps dirname names st.
Proof.
  induction names as [|name rest IH]; intros st H; simpl in *; [done |].
  apply bind_more; [done | apply verifyDep_more | apply IH].
Qed.

Lemma verifyFields_more fs pkg dirname : forall st,
  verifyFields w o rec1 fs pkg dirname st <> OutOfFuel ->
  verifyFields w o rec2 fs pkg dirname st
  = verifyFields w o rec1 fs pkg dirname st.
Proof.
  induction fs as [|field rest IH]; intros st H; simpl in *; [done |].
  destruct (get_prop pkg field) as [deps|]; [| done].
  destruct (negb (truthy deps)); [by apply IH |].
  destruct (negb (String.eqb (typeof deps) "object")).
  - apply bind_more; [done | done | apply IH].
  - apply bind_more; [done | apply verifyDeps_loop_more | apply IH].
Qed.

End MoreFuel.

Lemma verifyPackage_more_step w o fuel : forall pkg dirname st,
  verifyPackage w o fuel pkg dirname st <> OutOfFuel ->
  verifyPackage w o (S fuel) pkg dirname st
  = verifyPackage w o fuel pkg dirname st.
Proof.
  induction fuel as [|fuel IH]; intros pkg dirname st H; [done |].
  revert H. cbn [verifyPackage]. case_bool_decide as Hin; [done |].
  set (st1 := if hasBinding w dirname then _ else _).
  destruct (get_prop pkg "name") as [pkgName|]; [| done].
  destruct (ToString w pkgName) as [text|]; [| done].
  intros H. apply bind_more; [done | | done].
  apply verifyFields_more. exact IH.
Qed.

Lemma verifyPackage_more w o fuel fuel' pkg dirname st :
  (fuel <= fuel')%nat ->
  verifyPackage w o fuel pkg dirname st <> OutOfFuel ->
  verifyPackage w o fuel' pkg dirname st
  = verifyPackage w o fuel pkg dirname st.
Proof.
  intros Hle H. induction Hle as [|fuel' Hle IH]; [done |].
  rewrite <- IH. apply verifyPackage_more_step. by rewrite IH.
Qed.

(** ** Termination, and one visit per directory *)

Lemma final_not_OutOfFuel r : r <> OutOfFuel -> exists st', final r = Some st'.
Proof. destruct r; simpl; eauto. done. Qed.

Lemma verifyPackage_settles w o (U : gset string) fuel pkg dirname st :
  (forall name dirname moddir,
     resolve w name dirname = Some moddir -> moddir ∈ U) ->
  dirname ∈ U -> (size (U ∖ cache st) < fuel)%nat ->
  settles st (fun fuel => verifyPackage w o fuel pkg dirname st) fuel.
Proof.
  intros HU Hd Hfuel.
  pose proof (verifyPackage_returns w o U HU fuel pkg dirname st Hd Hfuel)
    as Hret.
  destruct (final_not_OutOfFuel _ Hret) as [st' Hst'].
  exists st'. split; [done |]. split.
  - by apply (verifyPackage_advances w o fuel pkg dirname st).
  - intros fuel' Hle. by apply verifyPackage_more.
Qed.

Lemma resolve_exists w name dirname moddir :
  resolve w name dirname = Some moddir -> path_exists w moddir.
Proof.
  unfold resolve. destruct (_ && _).
  - destruct (stat w _ <? 0) eqn:Hstat; [done |].
    intros [= <-]. by apply stat_path_exists.
  - intros (before & c & after & _ & _ & [_ Hex] & ->)%resolve_loop_Some.
    exact Hex.
Qed.

Lemma verify_after_main_read w o fuel name dirname st :
  verify w o fuel name dirname st
  = match resolve w name dirname with
    | None => error o MissingManifest st
    | Some moddir =>
        let '(pkg, st1) := read w moddir (debug (OpeningMain moddir) st) in
        after_main_read w o fuel name moddir pkg st1
    end.
Proof. reflexivity. Qed.

Lemma after_main_read_advances w o fuel name moddir pkg st :
  advances st (after_main_read w o fuel name moddir pkg st).
Proof.
  unfold after_main_read.
  destruct (strict_eq_num pkg (-1)); [apply advances_error |].
  destruct (strict_eq_num pkg (-2)); [apply advances_error |].
  destruct (get_prop pkg "name") as [pkgName|];
    [| apply advances_Thrown, extends_refl].
  destruct (negb (strict_eq_str pkgName name)).
  { destruct (ToString w pkgName);
      [apply advances_error | apply advances_Thrown, extends_refl]. }
  destruct (not_an_object pkg); [apply advances_error |].
  destruct (ToString w pkgName) as [text|];
    [| apply advances_Thrown, extends_refl].
  apply (advances_from st (debug (OpenedMain text) st));
    [by apply extends_emit | apply verifyPackage_advances].
Qed.

Lemma after_main_read_returns w o (U : gset string) fuel name moddir pkg st :
  (forall name dirname moddir,
     resolve w name dirname = Some moddir -> moddir ∈ U) ->
  moddir ∈ U -> (size (U ∖ cache st) < fuel)%nat ->
  after_main_read w o fuel name moddir pkg st <> OutOfFuel.
Proof.
  intros HU Hd Hfuel. unfold after_main_read.
  destruct (strict_eq_num pkg (-1)); [apply error_not_OutOfFuel |].
  destruct (strict_eq_num pkg (-2)); [apply error_not_OutOfFuel |].
  destruct (get_prop pkg "name") as [pkgName|]; [| done].
  destruct (negb (strict_eq_str pkgName name)).
  { destruct (ToString w pkgName); [apply error_not_OutOfFuel | done]. }
  destruct (not_an_object pkg); [apply error_not_OutOfFuel |].
  destruct (ToString w pkgName) as [text|]; [| done].
  by apply (verifyPackage_returns w o U).
Qed.

Lemma after_main_read_more w o fuel fuel' name moddir pkg st :
  (fuel <= fuel')%nat ->
  after_main_read w o fuel name moddir pkg st <> OutOfFuel ->
  after_main_read w o fuel' name moddir pkg st
  = after_main_read w o fuel name moddir pkg st.
Proof.
  intros Hle. unfold after_main_read.
  destruct (strict_eq_num pkg (-1)); [done |].
  destruct (strict_eq_num pkg (-2)); [done |].
  destruct (get_prop pkg "name") as [pkgName|]; [| done].
  destruct (negb (strict_eq_str pkgName name)); [done |].
  destruct (not_an_object pkg); [done |].
  destruct (ToString w pkgName) as [text|]; [| done].
  by apply verifyPackage_more.
Qed.

Lemma verify_settles w o (U : gset string) fuel name dirname st :
  (forall name dirname moddir,
     resolve w name dirname = Some moddir -> moddir ∈ U) ->
  (size (U ∖ cache st) < fuel)%nat ->
  settles st (fun fuel => verify w o fuel name dirname st) fuel.
Proof.
  intros HU Hfuel.
  assert (Hret : verify w o fuel name dirname st <> OutOfFuel).
  { rewrite verify_after_main_read.
    destruct (resolve w name dirname) as [moddir|] eqn:Hres;
      [| apply error_not_OutOfFuel].
    destruct (read w moddir _) as [pkg st1] eqn:Hread.
    apply read_extends in Hread.
    apply (after_main_read_returns w o U); [done | by apply (HU name dirname) |].
    by subst st1. }
  destruct (final_not_OutOfFuel _ Hret) as [st' Hst'].
  exists st'. split; [done |]. split.
  - by apply (verify_advances w o fuel name dirname st).
  - intros fuel' Hle. revert Hret. rewrite !verify_after_main_read.
    destruct (resolve w name dirname) as [moddir|]; [| done].
    destruct (read w moddir _) as [pkg st1].
    by apply after_main_read_more.
Qed.

(** C4. In a world with finitely many package directories (the resolver
    returns only members of the finite set [U]), whatever the shape of the
    dependency graph, [verify] and [verifyPackage] end once the fuel
    exceeds the number of directories not yet visited, and more fuel
    changes nothing. The run takes up no directory twice, and none that
    was visited before it: [verifyPackage] on a visited directory is a
    no-op, and a directory it enters is visited from then on. *)
Theorem verification_terminates (w : World) (o : Options) (U : gset string)
    (fuel : nat) (name dirname : string) (st : State) :
  (forall name dirname moddir,
     resolve w name dirname = Some moddir -> moddir ∈ U) ->
  (size (U ∖ cache st) < fuel)%nat ->
  settles st (fun fuel => verify w o fuel name dirname st) fuel /\
  (forall pkg d, d ∈ U ->
     settles st (fun fuel => verifyPackage w o fuel pkg d st) fuel) /\
  (forall pkg d, d ∈ cache st -> verifyPackage w o fuel pkg d st = Done st) /\
  (forall pkg d st',
     final (verifyPackage w o fuel pkg d st) = Some st' -> d ∈ cache st').
Proof.
  intros HU Hfuel. split; [by apply (verify_settles w o U) |].
  split; [intros pkg d Hd; by apply (verifyPackage_settles w o U) |].
  destruct fuel as [|fuel]; [lia |]. split.
  - intros pkg d Hd. cbn [verifyPackage]. by rewrite bool_decide_eq_true_2.
  - intros pkg d st'. cbn [verifyPackage]. case_bool_decide as Hin.
    + by intros [= <-].
    + set (st1 := if hasBinding w d then _ else _).
      assert (Hcache : d ∈ cache st1).
      { unfold st1. destruct (hasBinding w d); simpl; set_solver. }
      destruct (get_prop pkg "name") as [pkgName|]; [| by intros [= <-]].
      destruct (ToString w pkgName) as [text|]; [| by intros [= <-]].
      intros Hfinal.
      assert (Hadv : advances (debug (Verifying text d) st1)
        (let! st2 := verifyFields w o (verifyPackage w o fuel) fields pkg d
                       (debug (Verifying text d) st1) in
         Done (debug (PackageValid text) st2))).
      { apply advances_bind.
        - apply verifyFields_advances. apply verifyPackage_advances.
        - intros st2 _. by apply advances_Done, extends_emit. }
      apply Hadv, extends_cache in Hfinal. simpl in Hfinal. set_solver.
Qed.

Lemma lookup_entry_path path fs e :
  lookup_entry path fs = Some e -> path ∈ table_paths fs.
Proof.
  unfold table_paths. induction fs as [|[p e'] fs IH]; simpl; [done |].
  destruct (String.eqb_spec p path) as [->|Hne]; [set_solver |].
  intros H. apply IH in H. set_solver.
Qed.

Lemma table_world_resolve fs json versions matches home node_path :
  forall name dirname moddir,
    resolve (table_world fs json versions matches home node_path) name dirname
    = Some moddir ->
    moddir ∈ table_paths fs.
Proof.
  intros name dirname moddir [isDir H]%resolve_exists. simpl in H.
  destruct (lookup_entry moddir fs) as [e|] eqn:He; [| done].
  by apply (lookup_entry_path moddir fs e).
Qed.

(** The cycle of [a] and [b]: six paths, so fuel seven is enough. *)
Lemma verification_terminates_witness :
  settles new_Verifier
    (fun fuel => verify world_cycle throw_options fuel "a" "/proj" new_Verifier)
    7.
Proof.
  refine (proj1 (verification_terminates world_cycle throw_options
    (table_paths cycle_fs) 7 "a" "/proj" new_Verifier _ _)).
  - apply table_world_resolve.
  - vm_compute. lia.
Defined.

(** On the cycle, [a] and [b] are each taken up once, and the run ends
    without an error. *)
Example cycle_visits :
  exists st,
    verify world_cycle throw_options 7 "a" "/proj" new_Verifier = Done st /\
    visits (trace st) = ["/proj/node_modules/a"; "/proj/node_modules/b"] /\
    trace st
    = [EDebug (OpeningMain "/proj/node_modules/a");
       ERead "/proj/node_modules/a/package.json";
       EDebug (OpenedMain "a");
       EDebug (Verifying "a" "/proj/node_modules/a");
       EDebug (OpeningSub "/proj/node_modules/b");
       ERead "/proj/node_modules/b/package.json";
       EDebug (ValidVersion "b" "1.0.0" "^1.0.0");
       EDebug (Verifying "b" "/proj/node_modules/b");
       EDebug (OpeningSub "/proj/node_modules/a");
       ERead "/proj/node_modules/a/package.json";
       EDebug (ValidVersion "a" "1.0.0" "^1.0.0");
       EDebug (PackageValid "b");
       EDebug (PackageValid "a")].
Proof. eexists. split; [vm_compute; reflexivity |]. split; reflexivity. Qed.

(** ** A visited directory is read again, not verified again *)

Lemma quiet_Done st : quiet st (Done st).
Proof. exists st, []. by rewrite app_nil_r. Qed.

Lemma quiet_Thrown st e : quiet st (Thrown st e).
Proof. exists st, []. by rewrite app_nil_r. Qed.

Lemma quiet_error o m st : quiet st (error o m st).
Proof. exists (emit (EError m) st), [EError m]. by rewrite error_final. Qed.

Lemma quiet_after e st r :
  visit_of e = None -> quiet (emit e st) r -> quiet st r.
Proof.
  intros He (st' & rest & Hf & Ht & Hv & Hc). exists st', (e :: rest).
  split; [done |]. split; [by rewrite Ht; simpl; rewrite <- app_assoc |].
  split; [| done]. unfold visits in *. simpl. by rewrite He.
Qed.

Lemma verifyDep_after_read w o rec field deps dirname name expect moddir st :
  resolvable_name name ->
  get_prop deps name = Some (JStr expect) ->
  resolve w name dirname = Some moddir ->
  verifyDep w o rec field deps dirname name st
  = let '(pkg, st1) := read w moddir (debug (OpeningSub moddir) st) in
    after_read w o rec name expect moddir pkg st1.
Proof.
  intros Hname Hexpect Hres.
  by rewrite (verifyDep_resolves w o rec field deps dirname name expect st
                Hname Hexpect), Hres.
Qed.

Lemma after_read_quiet w o rec name expect moddir pkg st :
  (forall pkg st', cache st' = cache st -> rec pkg moddir st' = Done st') ->
  quiet st (after_read w o rec name expect moddir pkg st).
Proof.
  intros Hrec. unfold after_read.
  destruct (strict_eq_num pkg (-1)); [apply quiet_error |].
  destruct (strict_eq_num pkg (-2)); [apply quiet_error |].
  destruct (negb (truthy pkg)); [apply quiet_error |].
  destruct (get_prop pkg "version") as [[| | | |version| |]|];
    try apply quiet_error; [| apply quiet_Thrown].
  assert (Hnext : forall st1, cache st1 = cache st ->
    quiet st1 (rec pkg moddir (debug (ValidVersion name version expect) st1))).
  { intros st1 Hc. rewrite Hrec by done.
    apply (quiet_after (EDebug (ValidVersion name version expect)));
      [done | apply quiet_Done]. }
  assert (Herr : forall m,
    quiet st (let! st1 := error o m st in
              rec pkg moddir (debug (ValidVersion name version expect) st1))).
  { intros m. destruct (error_cases o m st) as [-> | [e ->]]; simpl.
    - apply (quiet_after (EError m)); [done |]. by apply Hnext.
    - exists (emit (EError m) st), [EError m]. done. }
  destruct (negb (semver_valid w version)); [apply Herr |].
  destruct (negb (semver_satisfies w version expect)); [apply Herr |].
  simpl. by apply Hnext.
Qed.

Lemma after_main_read_quiet w o fuel name moddir pkg st :
  moddir ∈ cache st ->
  quiet st (after_main_read w o (S fuel) name moddir pkg st).
Proof.
  intros Hin. unfold after_main_read.
  destruct (strict_eq_num pkg (-1)); [apply quiet_error |].
  destruct (strict_eq_num pkg (-2)); [apply quiet_error |].
  destruct (get_prop pkg "name") as [pkgName|]; [| apply quiet_Thrown].
  destruct (negb (strict_eq_str pkgName name)).
  { destruct (ToString w pkgName); [apply quiet_error | apply quiet_Thrown]. }
  destruct (not_an_object pkg); [apply quiet_error |].
  destruct (ToString w pkgName) as [text|]; [| apply quiet_Thrown].
  cbn [verifyPackage]. rewrite bool_decide_eq_true_2 by done.
  apply (quiet_after (EDebug (OpenedMain text))); [done | apply quiet_Done].
Qed.

(** C5, amended. A directory in the visited set is not verified again:
    [verifyPackage] is a no-op for it, and a run of [verify], also a later
    one on the same [Verifier], takes up none of the directories that were
    visited before it. Its manifest is read again, though, each time the
    directory is resolved again. When [verify] resolves a visited
    directory, it reads the manifest and ends with no directory taken up.
    When the body of the loop of [verifyDeps] resolves a dependency to a
    visited directory, it reads the manifest and, if the manifest has a
    string version, makes the version check again for the declaring range,
    reporting an invalid or an unmet version again; that is all it does. *)
Theorem visited_is_read_not_verified_again (w : World) (o : Options)
    (U : gset string) (fuel : nat) (name dirname : string) (st : State) :
  (forall name dirname moddir,
     resolve w name dirname = Some moddir -> moddir ∈ U) ->
  (size (U ∖ cache st) < fuel)%nat ->
  (forall pkg d, d ∈ cache st -> verifyPackage w o fuel pkg d st = Done st) /\
  (exists st' new,
     final (verify w o fuel name dirname st) = Some st' /\
     trace st' = trace st ++ new /\
     (forall d, d ∈ cache st -> d ∉ visits new) /\
     (forall moddir, resolve w name dirname = Some moddir ->
        exists rest,
          new = EDebug (OpeningMain moddir)
                  :: ERead (Path_resolve w [moddir; "package.json"]) :: rest)) /\
  (forall field deps d depName expect moddir,
     resolvable_name depName ->
     get_prop deps depName = Some (JStr expect) ->
     resolve w depName d = Some moddir ->
     moddir ∈ cache st ->
     exists st' rest,
       final (verifyDep w o (verifyPackage w o fuel) field deps d depName st)
       = Some st' /\
       trace st'
       = trace st ++ EDebug (OpeningSub moddir)
           :: ERead (Path_resolve w [moddir; "package.json"]) :: rest /\
       visits rest = [] /\
       cache st' = cache st) /\
  (forall moddir,
     resolve w name dirname = Some moddir ->
     moddir ∈ cache st ->
     exists st' rest,
       final (verify w o fuel name dirname st) = Some st' /\
       trace st'
       = trace st ++ EDebug (OpeningMain moddir)
           :: ERead (Path_resolve w [moddir; "package.json"]) :: rest /\
       visits rest = [] /\
       cache st' = cache st) /\
  (forall field deps d depName expect moddir pkg version st1,
     resolvable_name depName ->
     get_prop deps depName = Some (JStr expect) ->
     resolve w depName d = Some moddir ->
     moddir ∈ cache st ->
     read w moddir (debug (OpeningSub moddir) st) = (pkg, st1) ->
     get_prop pkg "version" = Some (JStr version) ->
     st1 = emit (ERead (Path_resolve w [moddir; "package.json"]))
             (emit (EDebug (OpeningSub moddir)) st) /\
     verifyDep w o (verifyPackage w o fuel) field deps d depName st
     = let! st2 :=
         match version_error w depName expect version with
         | Some m => error o m st1
         | None => Done st1
         end in
       Done (emit (EDebug (ValidVersion depName version expect)) st2)).
Proof.
  intros HU Hfuel. destruct fuel as [|fuel]; [lia |].
  assert (Hnoop : forall pkg d st0,
    d ∈ cache st0 -> verifyPackage w o (S fuel) pkg d st0 = Done st0).
  { intros pkg d st0 Hd. cbn [verifyPackage].
    by rewrite bool_decide_eq_true_2. }
  split; [intros pkg d; apply Hnoop |]. split; [| split; [| split]].
  - rewrite verify_after_main_read.
    destruct (resolve w name dirname) as [moddir|] eqn:Hres.
    + destruct (read w moddir _) as [pkg st1] eqn:Hread.
      apply read_extends in Hread.
      assert (Hret : after_main_read w o (S fuel) name moddir pkg st1
                     <> OutOfFuel).
      { apply (after_main_read_returns w o U);
          [done | by apply (HU name dirname) | by subst st1]. }
      destruct (final_not_OutOfFuel _ Hret) as [st' Hst'].
      destruct (after_main_read_advances w o (S fuel) name moddir pkg st1
                  st' Hst') as (new & Ht & _ & _ & Hv).
      exists st',
        (EDebug (OpeningMain moddir)
           :: ERead (Path_resolve w [moddir; "package.json"]) :: new).
      split; [done |]. split.
      { rewrite Ht. subst st1. simpl. by rewrite <- !app_assoc. }
      split.
      * intros d Hd Hin. change (d ∈ visits new) in Hin.
        destruct (Hv d Hin) as [Hnot _]. apply Hnot. by subst st1.
      * intros moddir' [= <-]. by exists new.
    + exists (emit (EError MissingManifest) st), [EError MissingManifest].
      split; [apply error_final |]. split; [done |]. split; [| done].
      intros d _ Hin. by apply not_elem_of_nil in Hin.
  - intros field deps d depName expect moddir Hname Hexpect Hres Hin.
    rewrite (verifyDep_after_read w o _ field deps d depName expect moddir st
               Hname Hexpect Hres).
    destruct (read w moddir _) as [pkg st1] eqn:Hread.
    apply read_extends in Hread.
    destruct (after_read_quiet w o (verifyPackage w o (S fuel)) depName expect
                moddir pkg st1) as (st' & rest & Hf & Ht & Hv & Hc).
    { intros pkg' st0 Hc0. apply Hnoop. rewrite Hc0. by subst st1. }
    exists st', rest. split; [done |]. split.
    { rewrite Ht. subst st1. simpl. by rewrite <- !app_assoc. }
    split; [done |]. rewrite Hc. by subst st1.
  - intros moddir Hres Hin. rewrite verify_after_main_read, Hres.
    destruct (read w moddir _) as [pkg st1] eqn:Hread.
    apply read_extends in Hread.
    destruct (after_main_read_quiet w o fuel name moddir pkg st1)
      as (st' & rest & Hf & Ht & Hv & Hc); [by subst st1 |].
    exists st', rest. split; [done |]. split.
    { rewrite Ht. subst st1. simpl. by rewrite <- !app_assoc. }
    split; [done |]. rewrite Hc. by subst st1.
  - intros field deps d depName expect moddir pkg version st1
      Hname Hexpect Hres Hin Hread Hversion.
    split; [by apply read_extends in Hread |].
    rewrite (verifyDep_resolves w o _ field deps d depName expect st
               Hname Hexpect), Hres, Hread.
    destruct (string_version_manifest pkg version Hversion) as [Ht Hn].
    rewrite !Hn, Ht, Hversion. cbn [negb].
    assert (Hc1 : moddir ∈ cache st1)
      by (apply read_extends in Hread; by subst st1).
    assert (Herr : forall m,
      (let! st2 := error o m st1 in
       verifyPackage w o (S fuel) pkg moddir
         (debug (ValidVersion depName version expect) st2))
      = (let! st2 := error o m st1 in
         Done (emit (EDebug (ValidVersion depName version expect)) st2))).
    { intros m. destruct (error_cases o m st1) as [-> | [e ->]]; [| done].
      cbn [bind]. by rewrite Hnoop. }
    unfold version_error.
    destruct (negb (semver_valid w version)); [apply Herr |].
    destruct (negb (semver_satisfies w version expect)); [apply Herr |].
    cbn [bind]. by rewrite Hnoop.
Qed.

(** C5 as stated fails. In one run on the diamond, the manifest of [c] is
    read when [a] declares it, [c] is visited, and the manifest of [c] is
    read again and its version checked again (and found unmet) when [app]
    declares it. A second [verify] on the same [Verifier], for a directory
    visited by the first, reads its manifest again too. *)
Lemma visited_directory_read_again :
  (exists st,
     verify world_diamond warn_options 8 "app" "/proj" new_Verifier = Done st /\
     trace st
     = [EDebug (OpeningMain "/proj/node_modules/app");
        ERead "/proj/node_modules/app/package.json";
        EDebug (OpenedMain "app");
        EDebug (Verifying "app" "/proj/node_modules/app");
        EDebug (OpeningSub "/proj/node_modules/a");
        ERead "/proj/node_modules/a/package.json";
        EDebug (ValidVersion "a" "1.0.0" "^1.0.0");
        EDebug (Verifying "a" "/proj/node_modules/a");
        EDebug (OpeningSub "/proj/node_modules/c");
        ERead "/proj/node_modules/c/package.json";
        EDebug (ValidVersion "c" "1.0.0" "^1.0.0");
        EDebug (Verifying "c" "/proj/node_modules/c");
        EDebug (PackageValid "c");
        EDebug (PackageValid "a");
        EDebug (OpeningSub "/proj/node_modules/c");
        ERead "/proj/node_modules/c/package.json";
        EError (UnmetVersion "c" "^2.0.0" "1.0.0");
        EDebug (ValidVersion "c" "1.0.0" "^2.0.0");
        EDebug (PackageValid "app")]) /\
  "/proj/node_modules/c" ∈ cache after_a /\
  (exists st,
     verify world_diamond warn_options 8 "c" "/proj" after_a = Done st /\
     trace st
     = trace after_a ++
       [EDebug (OpeningMain "/proj/node_modules/c");
        ERead "/proj/node_modules/c/package.json";
        EDebug (OpenedMain "c")]).
Proof.
  split; [| split].
  - eexists. split; [vm_compute; reflexivity | reflexivity].
  - vm_compute. set_solver.
  - eexists. split; [vm_compute; reflexivity | reflexivity].
Qed.

(** A second [verify] on the same [Verifier], for the visited [c]. *)
Lemma visited_is_read_not_verified_again_witness :
  exists st' new,
    final (verify world_diamond warn_options 8 "c" "/proj" after_a) = Some st' /\
    trace st' = trace after_a ++ new /\
    (forall d, d ∈ cache after_a -> d ∉ visits new) /\
    (forall moddir, resolve world_diamond "c" "/proj" = Some moddir ->
       exists rest,
         new = EDebug (OpeningMain moddir)
                 :: ERead (Path_resolve world_diamond [moddir; "package.json"])
                 :: rest).
Proof.
  refine (proj1 (proj2 (visited_is_read_not_verified_again world_diamond
    warn_options (table_paths diamond_fs) 8 "c" "/proj" after_a _ _))).
  - apply table_world_resolve.
  - vm_compute. lia.
Defined.

(** ** A version error and the recursive step *)




(** * More of the verifier *)

(** ** Induction on a run *)

Section RunInduction.

Variable w : World.
Variable o : Options.
(** A property of a step: the state it starts from and its outcome. *)
Variable P : State -> Outcome -> Prop.
(** A property of the directories the run enters. *)
Variable Q : string -> Prop.

Hypothesis P_Done : forall st, P st (Done st).
Hypothesis P_TypeError : forall st, P st (Thrown st TypeError).
Hypothesis P_OutOfFuel : forall st, P st OutOfFuel.
Hypothesis P_error : forall m st, P st (error o m st).
Hypothesis P_emit : forall e st r,
  (forall m, e <> EError m) -> P (emit e st) r -> P st r.
Hypothesis P_mark : forall dirname st r,
  dirname ∉ cache st -> Q dirname -> P (mark w dirname st) r -> P st r.
Hypothesis P_bind : forall st r k,
  P st r -> (forall st1, r = Done st1 -> P st1 (k st1)) -> P st (bind r k).
Hypothesis Q_resolve : forall name from moddir,
  resolve w name from = Some moddir -> Q moddir.

Lemma P_debug m st r : P (debug m st) r -> P st r.
Proof. apply P_emit. discriminate. Qed.

Lemma P_read moddir st pkg st1 r :
  read w moddir st = (pkg, st1) -> P st1 r -> P st r.
Proof.
  intros Hread%read_extends. subst st1. apply P_emit. discriminate.
Qed.

Section Body.

Variable rec : JSValue -> string -> State -> Outcome.
Hypothesis P_rec : forall pkg dirname st, Q dirname -> P st (rec pkg dirname st).

Lemma verifyDep_run field deps dirname name st :
  P st (verifyDep w o rec field deps dirname name st).
Proof.
  unfold verifyDep.
  destruct (String.length name =? 0)%nat; [apply P_error |].
  case_bool_decide; [apply P_Done |].
  destruct (has_scheme name); [apply P_Done |].
  destruct (get_prop deps name) as [[| | | |expect| |]|];
    try apply P_error; [| apply P_TypeError].
  destruct (resolve w name dirname) as [moddir|] eqn:Hres.
  2: { destruct (String.eqb field "optionalDependencies");
         [apply (P_debug (MissingOptionalDependency name expect)), P_Done
         | apply P_error]. }
  apply (P_debug (OpeningSub moddir)).
  destruct (read w moddir _) as [pkg st1] eqn:Hread.
  apply (P_read _ _ _ _ _ Hread).
  destruct (strict_eq_num pkg (-1)); [apply P_error |].
  destruct (strict_eq_num pkg (-2)); [apply P_error |].
  destruct (negb (truthy pkg)); [apply P_error |].
  destruct (get_prop pkg "version") as [[| | | |version| |]|];
    try apply P_error; [| apply P_TypeError].
  apply P_bind.
  - destruct (negb (semver_valid w version)); [apply P_error |].
    destruct (negb (semver_satisfies w version expect));
      [apply P_error | apply P_Done].
  - intros st2 _. apply (P_debug (ValidVersion name version expect)), P_rec.
    by apply (Q_resolve name dirname).
Qed.

Lemma verifyDeps_loop_run field deps dirname names : forall st,
  P st (verifyDeps_loop w o rec field deps dirname names st).
Proof.
  induction names as [|name rest IH]; intros st; simpl; [apply P_Done |].
  apply P_bind; [apply verifyDep_run | intros st1 _; apply IH].
Qed.

Lemma verifyFields_run fs pkg dirname : forall st,
  P st (verifyFields w o rec fs pkg dirname st).
Proof.
  induction fs as [|field rest IH]; intros st; simpl; [apply P_Done |].
  destruct (get_prop pkg field) as [deps|]; [| apply P_TypeError].
  destruct (negb (truthy deps)); [apply IH |].
  destruct (negb (String.eqb (typeof deps) "object")).
  - apply P_bind; [apply P_error | intros st1 _; apply IH].
  - apply P_bind; [apply verifyDeps_loop_run | intros st1 _; apply IH].
Qed.

End Body.

Lemma verifyPackage_run fuel : forall pkg dirname st,
  Q dirname -> P st (verifyPackage w o fuel pkg dirname st).
Proof.
  induction fuel as [|fuel IH]; intros pkg dirname st HQ;
    cbn [verifyPackage]; [apply P_OutOfFuel |].
  case_bool_decide as Hin; [apply P_Done |].
  apply (P_mark dirname); [done | done |]. unfold mark.
  set (st1 := if hasBinding w dirname then _ else _).
  destruct (get_prop pkg "name") as [pkgName|]; [| apply P_TypeError].
  destruct (ToString w pkgName) as [text|]; [| apply P_TypeError].
  apply (P_debug (Verifying text dirname)), P_bind.
  - apply verifyFields_run. exact IH.
  - intros st2 _. apply (P_debug (PackageValid text)), P_Done.
Qed.

Lemma verify_run fuel name dirname st :
  P st (verify w o fuel name dirname st).
Proof.
  unfold verify.
  destruct (resolve w name dirname) as [moddir|] eqn:Hres; [| apply P_error].
  apply (P_debug (OpeningMain moddir)).
  destruct (read w moddir _) as [pkg st1] eqn:Hread.
  apply (P_read _ _ _ _ _ Hread).
  destruct (strict_eq_num pkg (-1)); [apply P_error |].
  destruct (strict_eq_num pkg (-2)); [apply P_error |].
  destruct (get_prop pkg "name") as [pkgName|]; [| apply P_TypeError].
  destruct (negb (strict_eq_str pkgName name)).
  { destruct (ToString w pkgName); [apply P_error | apply P_TypeError]. }
  destruct (_ || _); [apply P_error |].
  destruct (ToString w pkgName) as [text|]; [| apply P_TypeError].
  apply (P_debug (OpenedMain text)), verifyPackage_run.
  by apply (Q_resolve name dirname).
Qed.

End RunInduction.

(** ** The error policies *)

Lemma reported_app l1 l2 : reported (l1 ++ l2) = reported l1 ++ reported l2.
Proof. apply omap_app. Qed.

Lemma silent_refl st : silent st st.
Proof. exists []. by rewrite app_nil_r. Qed.

Lemma silent_trans st1 st2 st3 :
  silent st1 st2 -> silent st2 st3 -> silent st1 st3.
Proof.
  intros (n1 & Ht1 & Hr1) (n2 & Ht2 & Hr2). exists (n1 ++ n2).
  split; [by rewrite Ht2, Ht1, app_assoc |].
  by rewrite reported_app, Hr1, Hr2.
Qed.

Lemma silent_emit e st : (forall m, e <> EError m) -> silent st (emit e st).
Proof.
  intros He. exists [e]. split; [done |].
  destruct e as [m|m|f]; try done. by destruct (He m).
Qed.

Lemma silent_same_trace st st' : trace st' = trace st -> silent st st'.
Proof. intros Ht. exists []. by rewrite app_nil_r. Qed.

Lemma stops_from st st1 r :
  silent st st1 -> stops_at_first_error st1 r -> stops_at_first_error st r.
Proof.
  intros Hs. destruct r as [st'|st' e|]; simpl; [| | done].
  - by apply silent_trans.
  - intros [[-> H] | (st0 & m & H & -> & He)].
    + left. split; [done | by apply (silent_trans st st1)].
    + right. exists st0, m. split; [by apply (silent_trans st st1) | done].
Qed.

Lemma error_never_returns o m st :
  never_returns o ->
  exists e, error o m st = Thrown (emit (EError m) st) e /\ raised_for e m.
Proof.
  unfold never_returns, error, raised_for.
  destruct (opt_error o) as [hook|]; intros H; [rewrite H |]; eauto.
Qed.

(** Under a policy that never returns (the default of [verify], and the
    hooks of [exit] and [stop]), a run reports at most one error: either no
    error is reported and the run returns or ends on a [TypeError], or the
    run ends by the exception raised for the first error, which is the last
    event of the trace. *)
Theorem first_error_ends_the_run (w : World) (o : Options) (fuel : nat)
    (name dirname : string) (pkg : JSValue) (st : State) :
  never_returns o ->
  stops_at_first_error st (verify w o fuel name dirname st) /\
  stops_at_first_error st (verifyPackage w o fuel pkg dirname st).
Proof.
  intros Hnever.
  assert (Herror : forall m st0, stops_at_first_error st0 (error o m st0)).
  { intros m st0. destruct (error_never_returns o m st0 Hnever) as (e & -> & He).
    right. exists st0, m. split; [apply silent_refl | done]. }
  assert (Hbind : forall st0 r k,
    stops_at_first_error st0 r ->
    (forall st1, r = Done st1 -> stops_at_first_error st1 (k st1)) ->
    stops_at_first_error st0 (bind r k)).
  { intros st0 [st1|st1 e|] k Hr Hk; simpl; [| exact Hr | done].
    apply (stops_from st0 st1); [exact Hr | by apply Hk]. }
  split.
  - apply (verify_run w o stops_at_first_error (fun _ => True)); try done.
    + intros st0. apply silent_refl.
    + intros st0. left. split; [done | apply silent_refl].
    + intros e st0 r He. apply stops_from. by apply silent_emit.
    + intros d st0 r _ _. apply stops_from. apply silent_same_trace.
      unfold mark. by destruct (hasBinding w d).
  - apply (verifyPackage_run w o stops_at_first_error (fun _ => True));
      try done.
    + intros st0. apply silent_refl.
    + intros st0. left. split; [done | apply silent_refl].
    + intros e st0 r He. apply stops_from. by apply silent_emit.
    + intros d st0 r _ _. apply stops_from. apply silent_same_trace.
      unfold mark. by destruct (hasBinding w d).
Qed.

(** Scenario B under the default policy: the unmet version is the one error,
    and it is thrown. *)
Lemma first_error_ends_the_run_witness :
  stops_at_first_error new_Verifier
    (verifyPackage world_B throw_options 3
       (pkg "app" "0.0.1" [("left-pad", JStr "^1.0.0")]) "/proj" new_Verifier).
Proof.
  refine (proj2 (first_error_ends_the_run world_B throw_options 3 "app" "/proj"
    (pkg "app" "0.0.1" [("left-pad", JStr "^1.0.0")]) new_Verifier _)).
  exact I.
Defined.

Lemma error_always_returns o m st :
  always_returns o -> error o m st = Done (emit (EError m) st).
Proof.
  intros (hook & Ho & Hr). apply error_returns. exists hook. by rewrite Hr.
Qed.

(** Under a policy that always returns (the hook of [warn]), no error ends
    the run: it returns, unless the verifier itself throws a [TypeError],
    when a property of [null] is read or a declared name that has no string
    form is printed. *)
Theorem returning_hook_runs_to_the_end (w : World) (o : Options) (fuel : nat)
    (name dirname : string) (pkg : JSValue) (st : State) :
  always_returns o ->
  runs_to_the_end (verify w o fuel name dirname st) /\
  runs_to_the_end (verifyPackage w o fuel pkg dirname st).
Proof.
  intros Halways.
  assert (Hbind : forall (st0 : State) r k,
    runs_to_the_end r ->
    (forall st1, r = Done st1 -> runs_to_the_end (k st1)) ->
    runs_to_the_end (bind r k)).
  { intros st0 [st1|st1 e|] k Hr Hk; simpl; [by apply Hk | exact Hr | done]. }
  split.
  - apply (verify_run w o (fun _ => runs_to_the_end) (fun _ => True));
      try done.
    intros m st0. by rewrite error_always_returns.
  - apply (verifyPackage_run w o (fun _ => runs_to_the_end) (fun _ => True));
      try done.
    intros m st0. by rewrite error_always_returns.
Qed.

Lemma returning_hook_runs_to_the_end_witness :
  runs_to_the_end
    (verifyPackage world_B warn_options 3
       (pkg "app" "0.0.1" [("left-pad", JStr "^1.0.0")]) "/proj" new_Verifier).
Proof.
  refine (proj2 (returning_hook_runs_to_the_end world_B warn_options 3 "app"
    "/proj" (pkg "app" "0.0.1" [("left-pad", JStr "^1.0.0")]) new_Verifier _)).
  eexists. split; [reflexivity | done].
Defined.

(** ** What a run records *)

Lemma bindings_recorded_emit w e st :
  bindings_recorded w st -> bindings_recorded w (emit e st).
Proof. done. Qed.

Lemma bindings_recorded_mark w dirname st :
  bindings_recorded w st -> bindings_recorded w (mark w dirname st).
Proof.
  unfold bindings_recorded, mark. intros H base.
  destruct (hasBinding w dirname) eqn:Hb; simpl; rewrite ?elem_of_union, H.
  - split.
    + intros [->%elem_of_singleton | (d & Hd & Hbd & ->)].
      * exists dirname. split; [set_solver | done].
      * exists d. split; [set_solver | done].
    + intros (d & [->%elem_of_singleton | Hd]%elem_of_union & Hbd & ->).
      * left. set_solver.
      * right. by exists d.
  - split.
    + intros (d & Hd & Hbd & ->). exists d. split; [set_solver | done].
    + intros (d & [->%elem_of_singleton | Hd]%elem_of_union & Hbd & ->).
      * congruence.
      * by exists d.
Qed.

(** The bindings a [Verifier] has recorded are at all times the base names
    of the directories it has visited that hold a [binding.gyp] file: a run
    of [verify] or of [verifyPackage] keeps this, however it ends. *)
Theorem bindings_follow_visits (w : World) (o : Options) (fuel : nat)
    (name dirname : string) (pkg : JSValue) (st st' : State) :
  bindings_recorded w st ->
  final (verify w o fuel name dirname st) = Some st' \/
  final (verifyPackage w o fuel pkg dirname st) = Some st' ->
  bindings_recorded w st'.
Proof.
  intros Hst Hfinal.
  set (P := fun (st0 : State) (r : Outcome) =>
    bindings_recorded w st0 ->
    forall st1, final r = Some st1 -> bindings_recorded w st1).
  assert (HP : P st (verify w o fuel name dirname st) /\
               P st (verifyPackage w o fuel pkg dirname st)).
  { assert (Herror : forall m st0, P st0 (error o m st0)).
    { intros m st0 H0 st1. rewrite error_final. by intros [= <-]. }
    assert (Hbind : forall st0 r k,
      P st0 r -> (forall st1, r = Done st1 -> P st1 (k st1)) ->
      P st0 (bind r k)).
    { intros st0 [st1|st1 e|] k Hr Hk H0; simpl; [| by apply Hr | done].
      apply (Hk st1); [done |]. by apply (Hr H0). }
    assert (Hemit : forall e st0 r,
      (forall m, e <> EError m) -> P (emit e st0) r -> P st0 r).
    { intros e st0 r _ Hr H0. by apply Hr. }
    assert (Hmark : forall d st0 r,
      d ∉ cache st0 -> True -> P (mark w d st0) r -> P st0 r).
    { intros d st0 r _ _ Hr H0. by apply Hr, bindings_recorded_mark. }
    split.
    - apply (verify_run w o P (fun _ => True)); try done;
        by intros st0 H0 st1 [= <-].
    - apply (verifyPackage_run w o P (fun _ => True)); try done;
        by intros st0 H0 st1 [= <-]. }
  destruct HP as [Hv Hp]. destruct Hfinal as [Hf|Hf]; [by apply (Hv Hst) |].
  by apply (Hp Hst).
Qed.

(** The run of [verify] on [app] in [world_native]. *)
Lemma bindings_follow_visits_witness :
  bindings_recorded world_native native_final.
Proof.
  refine (bindings_follow_visits world_native throw_options 4 "app" "/proj"
    JNull new_Verifier native_final _ (or_introl _)).
  - intros base. split.
    + intros H. by apply not_elem_of_empty in H.
    + intros (d & H & _). by apply not_elem_of_empty in H.
  - vm_compute. reflexivity.
Defined.

(** In [world_native], the binding of [native] is recorded, and nothing
    else. *)
Example native_binding_recorded :
  exists st',
    verify world_native throw_options 4 "app" "/proj" new_Verifier = Done st' /\
    bindings st' = {["native"]}.
Proof. eexists. split; vm_compute; reflexivity. Qed.

(** Every directory a run visits is a path the resolver returned, so a path
    that exists: after a run of [verify], a visited directory was visited
    before the run, or was resolved. *)
Theorem visited_directories_were_resolved (w : World) (o : Options)
    (fuel : nat) (name dirname : string) (st st' : State) :
  final (verify w o fuel name dirname st) = Some st' ->
  forall d, d ∈ cache st' ->
    d ∈ cache st \/ (resolved w d /\ path_exists w d).
Proof.
  set (Q := fun d => resolved w d /\ path_exists w d).
  set (P := fun (st0 : State) (r : Outcome) =>
    forall st1, final r = Some st1 ->
    forall d, d ∈ cache st1 -> d ∈ cache st0 \/ Q d).
  assert (HP : P st (verify w o fuel name dirname st)); [| exact (HP st')].
  apply (verify_run w o P Q).
  - intros st0 st1 [= <-] d Hd. by left.
  - intros st0 st1 [= <-] d Hd. by left.
  - done.
  - intros m st0 st1. rewrite error_final. intros [= <-] d Hd. by left.
  - intros e st0 r _ Hr st1 Hf d Hd. by apply (Hr st1).
  - intros d0 st0 r _ HQ Hr st1 Hf d Hd.
    destruct (Hr st1 Hf d Hd) as [Hin | HQd]; [| by right].
    unfold mark in Hin.
    assert (Hin' : d ∈ {[d0]} ∪ cache st0)
      by (by destruct (hasBinding w d0)).
    apply elem_of_union in Hin' as [->%elem_of_singleton | Hin'];
      [by right | by left].
  - intros st0 [st1|st1 e|] k Hr Hk; simpl; [| exact Hr | done].
    intros st2 Hf d Hd.
    destruct (Hk st1 eq_refl st2 Hf d Hd) as [Hin | HQd]; [| by right].
    by apply (Hr st1).
  - intros nm from moddir Hres. split; [by exists nm, from |].
    by apply (resolve_exists w nm from).
Qed.

(** The run of [verify] on the cycle. *)
Lemma visited_directories_were_resolved_witness :
  "/proj/node_modules/b" ∈ cache new_Verifier \/
  (resolved world_cycle "/proj/node_modules/b" /\
   path_exists world_cycle "/proj/node_modules/b").
Proof.
  refine (visited_directories_were_resolved world_cycle throw_options 7 "a"
            "/proj" new_Verifier cycle_final _ "/proj/node_modules/b" _).
  - vm_compute. reflexivity.
  - apply (bool_decide_unpack _). vm_compute. exact I.
Defined.

(** ** The loop of [verifyDeps] *)

Lemma skipped_nonempty name : skipped name = true -> String.length name <> 0%nat.
Proof. by destruct name. Qed.

Lemma verifyDep_skipped w o rec field deps dirname name st :
  skipped name = true ->
  verifyDep w o rec field deps dirname name st = Done st.
Proof.
  intros Hs. pose proof (skipped_nonempty name Hs) as Hlen.
  apply Nat.eqb_neq in Hlen. unfold verifyDep. rewrite Hlen.
  unfold skipped in Hs. case_bool_decide; [done |]. simpl in Hs. by rewrite Hs.
Qed.

(** Scoped names and URLs do not count: the loop of [verifyDeps] over the
    names of a dependency map does what it does over the other names alone,
    in every world; a map of such names only is verified with no event and
    no change of state. *)
Theorem skipped_names_do_not_count (w : World) (o : Options)
    (rec : JSValue -> string -> State -> Outcome)
    (field : string) (deps : JSValue) (dirname : string)
    (names : list string) (st : State) :
  verifyDeps_loop w o rec field deps dirname names st
  = verifyDeps_loop w o rec field deps dirname
      (List.filter (fun name => negb (skipped name)) names) st /\
  (forallb skipped names = true ->
   verifyDeps_loop w o rec field deps dirname names st = Done st).
Proof.
  split.
  - revert st. induction names as [|name rest IH]; intros st; [done |].
    cbn [List.filter]. destruct (skipped name) eqn:Hs; cbn [negb].
    + cbn [verifyDeps_loop]. rewrite verifyDep_skipped by done. apply IH.
    + cbn [verifyDeps_loop]. destruct (verifyDep _ _ _ _ _ _ _ _); simpl; auto.
  - revert st. induction names as [|name rest IH]; intros st; [done |].
    simpl. intros [Hs Hrest]%andb_true_iff.
    rewrite verifyDep_skipped by done. simpl. by apply IH.
Qed.

(** ** Manifests the verifier cannot use *)

Lemma read_manifest w moddir st :
  read w moddir st
  = (manifest w moddir,
     emit (ERead (Path_resolve w [moddir; "package.json"])) st).
Proof.
  unfold read, manifest. destruct (fs_readFileSync w _) as [data|]; [| done].
  by destruct (JSON_parse w data).
Qed.

(** The sentinels of [read] are numbers a manifest file can hold: a file
    that is read and parses to [-1] is reported by [verify] as a manifest
    that could not be opened, and one that parses to [-2] as a malformed
    one; [verifyPackage] is not called. *)
Theorem sentinel_manifest (w : World) (o : Options) (fuel : nat)
    (name dirname moddir data : string) (n : Z) (st : State) :
  resolve w name dirname = Some moddir ->
  fs_readFileSync w (Path_resolve w [moddir; "package.json"]) = Some data ->
  JSON_parse w data = Some (JNum n) ->
  let st1 := emit (ERead (Path_resolve w [moddir; "package.json"]))
               (emit (EDebug (OpeningMain moddir)) st) in
  (n = -1 -> verify w o fuel name dirname st = error o UnreadableManifest st1) /\
  (n = -2 -> verify w o fuel name dirname st = error o MalformedManifest st1).
Proof.
  intros Hres Hfile Hparse st1. unfold verify.
  rewrite Hres, read_manifest. unfold manifest. rewrite Hfile, Hparse.
  split; intros ->; reflexivity.
Qed.

Lemma sentinel_manifest_witness :
  verify world_minus_one throw_options 3 "app" "/proj" new_Verifier
  = Thrown
      {| cache := ∅; bindings := ∅;
         trace := [EDebug (OpeningMain "/proj/node_modules/app");
                   ERead "/proj/node_modules/app/package.json";
                   EError UnreadableManifest] |}
      (ErrorThrown "Could not open package.json!").
Proof.
  refine (eq_trans (proj1 (sentinel_manifest world_minus_one throw_options 3
    "app" "/proj" "/proj/node_modules/app" "-1" (-1) new_Verifier _ _ _)
    eq_refl) _); reflexivity.
Defined.

Lemma no_string_version pkg :
  (forall version, get_prop pkg "version" <> Some (JStr version)) ->
  strict_eq_num pkg (-1) = false ->
  strict_eq_num pkg (-2) = false ->
  truthy pkg = true ->
  exists v, get_prop pkg "version" = Some v /\
            forall version, v <> JStr version.
Proof.
  intros Hno _ _ Ht. destruct (get_prop pkg "version") as [v|] eqn:Hv.
  - exists v. split; [done |]. intros version ->. by apply (Hno version).
  - by destruct pkg.
Qed.

(** A resolved dependency whose manifest cannot be used (it cannot be read,
    does not parse, or has no string [version]) is reported and left
    alone: the body of the loop ends with that one report, whatever the
    recursive step is, so the directory of the dependency is not visited
    and no [TypeError] comes from reading its [version]. *)
Theorem unusable_manifest_not_visited (w : World) (o : Options)
    (rec : JSValue -> string -> State -> Outcome)
    (field : string) (deps : JSValue) (dirname name expect moddir : string)
    (st : State) :
  resolvable_name name ->
  get_prop deps name = Some (JStr expect) ->
  resolve w name dirname = Some moddir ->
  (forall version,
     get_prop (manifest w moddir) "version" <> Some (JStr version)) ->
  let st1 := emit (ERead (Path_resolve w [moddir; "package.json"]))
               (emit (EDebug (OpeningSub moddir)) st) in
  verifyDep w o rec field deps dirname name st
  = error o (manifest_error name expect (manifest w moddir)) st1 /\
  (forall st', final (verifyDep w o rec field deps dirname name st) = Some st' ->
     cache st' = cache st).
Proof.
  intros Hname Hexpect Hres Hno st1.
  assert (Hbody : verifyDep w o rec field deps dirname name st
    = error o (manifest_error name expect (manifest w moddir)) st1).
  { rewrite (verifyDep_resolves w o rec field deps dirname name expect st
               Hname Hexpect), Hres, read_manifest.
    fold st1. unfold manifest_error.
    destruct (strict_eq_num (manifest w moddir) (-1)) eqn:H1; [done |].
    destruct (strict_eq_num (manifest w moddir) (-2)) eqn:H2; [done |].
    destruct (truthy (manifest w moddir)) eqn:Ht; [| done]. cbn [negb].
    destruct (no_string_version _ Hno H1 H2 Ht) as (v & -> & Hv).
    destruct v; try done. by destruct (Hv s). }
  split; [exact Hbody |]. intros st'. rewrite Hbody, error_final.
  by intros [= <-].
Qed.

(** Scenario D: the manifest of [left-pad] does not parse. *)
Lemma unusable_manifest_not_visited_witness :
  verifyDep world_D warn_options (verifyPackage world_D warn_options 3)
    "dependencies" (JObj [("left-pad", JStr "^1.0.0")]) "/proj" "left-pad"
    new_Verifier
  = Done
      {| cache := ∅; bindings := ∅;
         trace := [EDebug (OpeningSub "/proj/node_modules/left-pad");
                   ERead "/proj/node_modules/left-pad/package.json";
                   EError (MalformedDependency "left-pad" "^1.0.0")] |}.
Proof.
  refine (eq_trans (proj1 (unusable_manifest_not_visited world_D warn_options
    (verifyPackage world_D warn_options 3) "dependencies"
    (JObj [("left-pad", JStr "^1.0.0")]) "/proj" "left-pad" "^1.0.0"
    "/proj/node_modules/left-pad" new_Verifier _ _ _ _)) _).
  - unfold resolvable_name. repeat split; discriminate.
  - reflexivity.
  - reflexivity.
  - intros version. discriminate.
  - reflexivity.
Defined.

(** ** Where a bare name is found *)

Lemma getModulePaths_cands (w : World) (from : string) (segs : list string) :
  Path_resolve w [from] = abs_path segs ->
  Forall segment segs ->
  getModulePaths w from
  = cands (rev segs) ++ "/node_modules" :: globalPaths w.
Proof.
  intros Hfrom Hsegs. unfold getModulePaths. rewrite Hfrom.
  destruct segs as [|seg segs]; [reflexivity |].
  assert (Hroot : String.eqb (abs_path (seg :: segs)) "/" = false).
  { apply String.eqb_neq. intros E. inversion Hsegs as [|? ? [Hne _] _]; subst.
    apply Hne. simpl in E. injection E as E.
    destruct seg; [done | discriminate]. }
  rewrite Hroot. change (abs_path (seg :: segs)) with (path_of (seg :: segs)).
  rewrite <- (chars_length (path_of (seg :: segs))).
  rewrite <- (rev_involutive (seg :: segs)) at 1 2 3.
  rewrite (loop_ancestors (rev (seg :: segs)) _ []).
  - simpl app at 1. by rewrite <- app_assoc.
  - by apply Forall_rev.
  - by rewrite rev_involutive, app_nil_r.
Qed.

Lemma resolve_loop_first w name c rest :
  holds w name c ->
  resolve_loop w name (c :: rest) = Some (Path_resolve w [c; name]).
Proof.
  intros Hc%holds_stat. by rewrite resolve_loop_step, Hc.
Qed.

Lemma resolve_loop_next w name c rest :
  ~ holds w name c -> resolve_loop w name (c :: rest) = resolve_loop w name rest.
Proof.
  intros Hc. rewrite resolve_loop_step.
  destruct (_ || _) eqn:Hstat; [done |]. by apply holds_stat in Hstat.
Qed.

Lemma cands_snoc segs seg :
  seg <> "node_modules" ->
  cands (rev (segs ++ [seg]))
  = (path_of (segs ++ [seg]) +:+ "/node_modules") :: cands (rev segs).
Proof.
  intros Hne%String.eqb_neq. rewrite rev_app_distr. simpl rev. cbn [app cands].
  rewrite Hne. change (rev (seg :: rev segs)) with (rev (rev segs) ++ [seg]).
  by rewrite rev_involutive.
Qed.

Lemma cands_snoc_node_modules segs :
  cands (rev (segs ++ ["node_modules"])) = cands (rev segs).
Proof. rewrite rev_app_distr. reflexivity. Qed.

(** The candidate of the directory [/s1/.../sn] itself is the head of what
    is searched from [/s1/.../sn], the root included, unless its last
    segment is [node_modules]. *)
Lemma search_head (w : World) (segs : list string) :
  last segs <> Some "node_modules" ->
  exists rest,
    cands (rev segs) ++ "/node_modules" :: globalPaths w
    = (path_of segs +:+ "/node_modules") :: rest.
Proof.
  intros Hlast. destruct segs as [|seg segs _] using rev_ind.
  - by exists (globalPaths w).
  - rewrite last_snoc in Hlast. rewrite cands_snoc by congruence.
    by eexists.
Qed.

(** A bare name is found in the [node_modules] of the starting directory
    before anywhere else, when the last segment of the starting directory
    is not [node_modules]. And from inside a package installed as
    [pre/node_modules/pkgDir], where neither [pkgDir] nor the last segment
    of [pre] is [node_modules], a name that the package's own
    [node_modules] does not hold is found next among the package's
    siblings, in [pre/node_modules]. *)
Theorem nearest_node_modules_wins (w : World) (name dirname : string)
    (segs : list string) :
  Path_resolve w [dirname] = abs_path segs ->
  Forall segment segs ->
  path_like name = false ->
  let own := path_of segs +:+ "/node_modules" in
  (last segs <> Some "node_modules" ->
   holds w name own ->
   resolve w name dirname = Some (Path_resolve w [own; name])) /\
  (forall pre pkgDir,
     segs = pre ++ ["node_modules"; pkgDir] ->
     pkgDir <> "node_modules" ->
     last pre <> Some "node_modules" ->
     ~ holds w name own ->
     holds w name (path_of pre +:+ "/node_modules") ->
     resolve w name dirname
     = Some (Path_resolve w [path_of pre +:+ "/node_modules"; name])).
Proof.
  intros Hfrom Hsegs Hbare own. unfold resolve. unfold path_like in Hbare.
  rewrite Hbare, (getModulePaths_cands w dirname segs Hfrom Hsegs). split.
  - intros Hlast Hown. destruct (search_head w segs Hlast) as [rest ->].
    by apply resolve_loop_first.
  - intros pre pkgDir -> HpkgDir Hpre Hnot Hsibling. unfold own in Hnot.
    replace (pre ++ ["node_modules"; pkgDir])
      with ((pre ++ ["node_modules"]) ++ [pkgDir]) in *
      by (by rewrite <- app_assoc).
    rewrite cands_snoc by done. cbn [app].
    rewrite resolve_loop_next by exact Hnot.
    rewrite cands_snoc_node_modules.
    destruct (search_head w pre Hpre) as [rest ->].
    by apply resolve_loop_first.
Qed.

(** From [/proj/node_modules/a] on the cycle, [b] is found among the
    siblings of [a]. *)
Lemma nearest_node_modules_wins_witness :
  resolve world_cycle "b" "/proj/node_modules/a" = Some "/proj/node_modules/b".
Proof.
  refine (proj2 (nearest_node_modules_wins world_cycle "b"
    "/proj/node_modules/a" ["proj"; "node_modules"; "a"] _ _ _)
    ["proj"] "a" _ _ _ _ _).
  - reflexivity.
  - unfold segment. repeat constructor; discriminate.
  - reflexivity.
  - reflexivity.
  - discriminate.
  - discriminate.
  - intros [H _]. discriminate H.
  - split; [reflexivity | by eexists].
Defined.

(** ** A run without error *)

Lemma later_refl st : later st st.
Proof. exists []. by rewrite app_nil_r. Qed.

Lemma later_trans st1 st2 st3 : later st1 st2 -> later st2 st3 -> later st1 st3.
Proof.
  intros [p1 H1] [p2 H2]. exists (p1 ++ p2). by rewrite H2, H1, app_assoc.
Qed.

Lemma later_emit e st : later st (emit e st).
Proof. by exists [e]. Qed.

Lemma extends_later st st' : extends st st' -> later st st'.
Proof. intros (new & Ht & _). by exists new. Qed.

Lemma silent_split st st1 st' :
  silent st st' -> later st st1 -> later st1 st' ->
  silent st st1 /\ silent st1 st'.
Proof.
  intros (new & Ht & Hr) [pre Hpre] [post Hpost].
  assert (Hnew : new = pre ++ post).
  { apply (app_inv_head (trace st)). by rewrite <- Ht, Hpost, Hpre, app_assoc. }
  subst new. rewrite reported_app in Hr. apply app_eq_nil in Hr as [Hr1 Hr2].
  split; [by exists pre | by exists post].
Qed.

Lemma not_silent_after_error st st0 m st' :
  later st st0 -> later (emit (EError m) st0) st' -> silent st st' -> False.
Proof.
  intros H0 H1 Hs.
  destruct (silent_split st (emit (EError m) st0) st' Hs) as [(new & Ht & Hr) _];
    [by apply (later_trans st st0), later_emit | done |].
  destruct H0 as [pre Hpre]. simpl in Ht. rewrite Hpre, <- app_assoc in Ht.
  apply app_inv_head in Ht. subst new. rewrite reported_app in Hr.
  by apply app_eq_nil in Hr as [_ Hr].
Qed.

Lemma error_Done_not_silent o m st st0 st' :
  later st st0 -> error o m st0 = Done st' -> silent st st' -> False.
Proof.
  intros H0 Herr. destruct (error_cases o m st0) as [E | [e E]];
    rewrite E in Herr; [| done]. injection Herr as <-.
  apply (not_silent_after_error st st0 m); [done | apply later_refl].
Qed.

Lemma dependency_ok_mono w (v1 v2 : gset string) field deps dirname name :
  v1 ⊆ v2 ->
  dependency_ok w v1 field deps dirname name ->
  dependency_ok w v2 field deps dirname name.
Proof.
  intros Hsub [Hs | (expect & Hne & He & [Hmiss | (moddir & version & H)])].
  - by left.
  - right. exists expect. split; [done |]. split; [done |]. by left.
  - right. exists expect. split; [done |]. split; [done |]. right.
    exists moddir, version. destruct H as (? & ? & ? & ? & Hin).
    repeat split; try done. by apply Hsub.
Qed.

Lemma field_ok_mono w (v1 v2 : gset string) pkg dirname field :
  v1 ⊆ v2 -> field_ok w v1 pkg dirname field -> field_ok w v2 pkg dirname field.
Proof.
  intros Hsub (deps & Hd & [Hf | [Ht Hall]]); exists deps; split; try done.
  - by left.
  - right. split; [done |].
    eapply Forall_impl; [exact Hall |]. intros name. by apply dependency_ok_mono.
Qed.

Lemma package_ok_mono w (v1 v2 : gset string) pkg dirname :
  v1 ⊆ v2 -> package_ok w v1 pkg dirname -> package_ok w v2 pkg dirname.
Proof.
  intros Hsub H. eapply Forall_impl; [exact H |].
  intros field. by apply field_ok_mono.
Qed.

Lemma new_packages_ok_refl w st : new_packages_ok w st st.
Proof. intros d Hd. by left. Qed.

Lemma new_packages_ok_trans w st1 st2 st3 :
  cache st2 ⊆ cache st3 ->
  new_packages_ok w st1 st2 -> new_packages_ok w st2 st3 ->
  new_packages_ok w st1 st3.
Proof.
  intros Hsub H12 H23 d Hd. destruct (H23 d Hd) as [Hin | Hok]; [| by right].
  destruct (H12 d Hin) as [Hin1 | Hok]; [by left | right].
  by apply (package_ok_mono w (cache st2)).
Qed.

Lemma new_packages_ok_same w st st1 st' :
  cache st1 = cache st -> new_packages_ok w st1 st' -> new_packages_ok w st st'.
Proof. intros Hc H d Hd. rewrite <- Hc. by apply H. Qed.

Section Sound.

Variable w : World.
Variable o : Options.
Variable rec : JSValue -> string -> State -> Outcome.
Hypothesis rec_advances : forall pkg dirname st, advances st (rec pkg dirname st).
Hypothesis rec_marks : forall pkg dirname st st',
  rec pkg dirname st = Done st' -> dirname ∈ cache st'.
Hypothesis rec_sound : forall dirname st st',
  rec (manifest w dirname) dirname st = Done st' ->
  silent st st' -> new_packages_ok w st st'.

Lemma verifyDep_sound field deps dirname name st st' :
  verifyDep w o rec field deps dirname name st = Done st' ->
  silent st st' ->
  dependency_ok w (cache st') field deps dirname name /\
  new_packages_ok w st st'.
Proof.
  unfold verifyDep. intros Hrun Hsilent.
  destruct (String.length name =? 0)%nat eqn:Hlen.
  { destruct (error_Done_not_silent o _ st st st' (later_refl st) Hrun Hsilent). }
  assert (Hne : name <> "") by (intros ->; discriminate).
  case_bool_decide as Hat.
  { injection Hrun as <-. split; [| apply new_packages_ok_refl].
    left. unfold skipped. by rewrite bool_decide_eq_true_2. }
  destruct (has_scheme name) eqn:Hurl.
  { injection Hrun as <-. split; [| apply new_packages_ok_refl].
    left. unfold skipped. by rewrite Hurl, orb_true_r. }
  destruct (get_prop deps name) as [v|] eqn:Hexpect; [| done].
  destruct v as [| | | |expect| |];
    try (destruct (error_Done_not_silent o _ st st st' (later_refl st)
                     Hrun Hsilent)).
  destruct (resolve w name dirname) as [moddir|] eqn:Hres.
  2: { destruct (String.eqb_spec field "optionalDependencies") as [->|Hf].
       - injection Hrun as <-. split; [| by intros d Hd; left].
         right. exists expect. split; [done |]. split; [done |]. by left.
       - destruct (error_Done_not_silent o _ st st st' (later_refl st)
                     Hrun Hsilent). }
  rewrite read_manifest in Hrun.
  set (st1 := emit (ERead _) _) in Hrun.
  assert (H1 : later st st1).
  { apply (later_trans st (debug (OpeningSub moddir) st)); apply later_emit. }
  assert (Hc1 : cache st1 = cache st) by done.
  destruct (strict_eq_num (manifest w moddir) (-1));
    [destruct (error_Done_not_silent o _ st st1 st' H1 Hrun Hsilent) |].
  destruct (strict_eq_num (manifest w moddir) (-2));
    [destruct (error_Done_not_silent o _ st st1 st' H1 Hrun Hsilent) |].
  destruct (negb (truthy (manifest w moddir)));
    [destruct (error_Done_not_silent o _ st st1 st' H1 Hrun Hsilent) |].
  destruct (get_prop (manifest w moddir) "version") as [v|] eqn:Hversion;
    [| done].
  destruct v as [| | | |version| |];
    try (destruct (error_Done_not_silent o _ st st1 st' H1 Hrun Hsilent)).
  assert (Hafter : forall m st2,
    error o m st1 = Done st2 ->
    rec (manifest w moddir) moddir (debug (ValidVersion name version expect) st2)
    = Done st' -> False).
  { intros m st2 Herr Hrec.
    destruct (error_cases o m st1) as [E | [e E]]; rewrite E in Herr; [| done].
    injection Herr as <-.
    apply (not_silent_after_error st st1 m st'); [done | | done].
    apply (later_trans _ (debug (ValidVersion name version expect)
                            (emit (EError m) st1))); [apply later_emit |].
    apply extends_later.
    apply (rec_advances (manifest w moddir) moddir
             (debug (ValidVersion name version expect) (emit (EError m) st1))
             st').
    by rewrite Hrec. }
  destruct (semver_valid w version) eqn:Hvalid; cbn [negb] in Hrun.
  2: { destruct (error o _ st1) as [st2| |] eqn:Herr; [| done | done].
       destruct (Hafter _ st2 Herr Hrun). }
  destruct (semver_satisfies w version expect) eqn:Hsat; cbn [negb] in Hrun.
  2: { destruct (error o _ st1) as [st2| |] eqn:Herr; [| done | done].
       destruct (Hafter _ st2 Herr Hrun). }
  simpl in Hrun.
  set (st2 := debug (ValidVersion name version expect) st1) in Hrun.
  assert (H2 : later st st2) by (apply (later_trans st st1), later_emit; done).
  assert (H3 : later st2 st').
  { apply extends_later. apply (rec_advances (manifest w moddir) moddir st2 st').
    by rewrite Hrun. }
  destruct (silent_split st st2 st' Hsilent H2 H3) as [_ Hs2].
  split.
  - right. exists expect. split; [done |]. split; [done |]. right.
    exists moddir, version. repeat split; try done. by apply (rec_marks _ _ _ _ Hrun).
  - apply (new_packages_ok_same w st st2); [done |].
    by apply (rec_sound moddir).
Qed.

Lemma bind_Done r k st' :
  bind r k = Done st' -> exists st1, r = Done st1 /\ k st1 = Done st'.
Proof. destruct r as [st1| |]; simpl; [by exists st1 | done | done]. Qed.

Lemma verifyDeps_loop_sound field deps dirname names : forall st st',
  verifyDeps_loop w o rec field deps dirname names st = Done st' ->
  silent st st' ->
  Forall (dependency_ok w (cache st') field deps dirname) names /\
  new_packages_ok w st st'.
Proof.
  induction names as [|name rest IH]; intros st st' Hrun Hsilent.
  - injection Hrun as <-. split; [constructor | apply new_packages_ok_refl].
  - cbn [verifyDeps_loop] in Hrun.
    apply bind_Done in Hrun as (st1 & Hdep & Hrest).
    assert (H1 : extends st st1).
    { by apply (verifyDep_advances w o rec rec_advances field deps dirname name
                  st st1); rewrite Hdep. }
    assert (H2 : extends st1 st').
    { by apply (verifyDeps_loop_advances w o rec rec_advances field deps dirname
                  rest st1 st'); rewrite Hrest. }
    destruct (silent_split st st1 st' Hsilent (extends_later _ _ H1)
                (extends_later _ _ H2)) as [Hs1 Hs2].
    destruct (verifyDep_sound field deps dirname name st st1 Hdep Hs1)
      as [Hok Hnew1].
    destruct (IH st1 st' Hrest Hs2) as [Hoks Hnew2].
    apply extends_cache in H2. split.
    + constructor; [| done]. by apply (dependency_ok_mono w (cache st1)).
    + by apply (new_packages_ok_trans w st st1 st').
Qed.

Lemma verifyFields_sound fs pkg dirname : forall st st',
  verifyFields w o rec fs pkg dirname st = Done st' ->
  silent st st' ->
  Forall (field_ok w (cache st') pkg dirname) fs /\
  new_packages_ok w st st'.
Proof.
  induction fs as [|field rest IH]; intros st st' Hrun Hsilent.
  - injection Hrun as <-. split; [constructor | apply new_packages_ok_refl].
  - cbn [verifyFields] in Hrun.
    destruct (get_prop pkg field) as [deps|] eqn:Hdeps; [| done].
    destruct (truthy deps) eqn:Ht; cbn [negb] in Hrun.
    2: { destruct (IH st st' Hrun Hsilent) as [Hoks Hnew]. split; [| done].
         constructor; [| done]. exists deps. split; [done | by left]. }
    destruct (String.eqb_spec (typeof deps) "object") as [Hobj|Hobj];
      cbn [negb] in Hrun.
    2: { apply bind_Done in Hrun as (st1 & Herr & Hrest).
         assert (H2 : extends st1 st').
         { by apply (verifyFields_advances w o rec rec_advances rest pkg dirname
                       st1 st'); rewrite Hrest. }
         destruct (error_cases o (InvalidFieldType field) st) as [E | [e E]];
           rewrite E in Herr; [| done].
         injection Herr as <-.
         destruct (not_silent_after_error st st (InvalidFieldType field) st');
           [apply later_refl | by apply extends_later | done]. }
    apply bind_Done in Hrun as (st1 & Hloop & Hrest).
    unfold verifyDeps in Hloop.
    assert (H1 : extends st st1).
    { by apply (verifyDeps_loop_advances w o rec rec_advances field deps dirname
                  (Object_keys deps) st st1); rewrite Hloop. }
    assert (H2 : extends st1 st').
    { by apply (verifyFields_advances w o rec rec_advances rest pkg dirname
                  st1 st'); rewrite Hrest. }
    destruct (silent_split st st1 st' Hsilent (extends_later _ _ H1)
                (extends_later _ _ H2)) as [Hs1 Hs2].
    destruct (verifyDeps_loop_sound field deps dirname (Object_keys deps)
                st st1 Hloop Hs1) as [Hok Hnew1].
    destruct (IH st1 st' Hrest Hs2) as [Hoks Hnew2].
    apply extends_cache in H2. split.
    + constructor; [| done]. exists deps. split; [done |]. right.
      split; [done |]. eapply Forall_impl; [exact Hok |].
      intros name. by apply dependency_ok_mono.
    + by apply (new_packages_ok_trans w st st1 st').
Qed.

End Sound.

Lemma verifyPackage_marks w o fuel pkg dirname st st' :
  verifyPackage w o fuel pkg dirname st = Done st' -> dirname ∈ cache st'.
Proof.
  destruct fuel as [|fuel]; [done |]. cbn [verifyPackage].
  case_bool_decide as Hin; [by intros [= <-] |].
  set (st1 := if hasBinding w dirname then _ else _).
  assert (Hcache : dirname ∈ cache st1).
  { unfold st1. destruct (hasBinding w dirname); simpl; set_solver. }
  destruct (get_prop pkg "name") as [pkgName|]; [| done].
  destruct (ToString w pkgName) as [text|]; [| done].
  intros (st2 & Hfields & [= <-])%bind_Done.
  assert (H2 : extends (debug (Verifying text dirname) st1) st2).
  { apply (verifyFields_advances w o (verifyPackage w o fuel)
             (verifyPackage_advances w o fuel) fields pkg dirname _ st2).
    by rewrite Hfields. }
  apply extends_cache in H2. simpl in *. set_solver.
Qed.

Lemma verifyPackage_sound w o fuel : forall dirname st st',
  verifyPackage w o fuel (manifest w dirname) dirname st = Done st' ->
  silent st st' ->
  new_packages_ok w st st'.
Proof.
  induction fuel as [|fuel IH]; intros dirname st st'; [done |].
  cbn [verifyPackage].
  case_bool_decide as Hin; [intros [= <-] _; apply new_packages_ok_refl |].
  set (st1 := if hasBinding w dirname then _ else _).
  assert (Hcache : cache st1 = {[dirname]} ∪ cache st)
    by (unfold st1; by destruct (hasBinding w dirname)).
  assert (Htrace : trace st1 = trace st)
    by (unfold st1; by destruct (hasBinding w dirname)).
  destruct (get_prop (manifest w dirname) "name") as [pkgName|]; [| done].
  destruct (ToString w pkgName) as [text|]; [| done].
  set (st2 := debug (Verifying text dirname) st1).
  intros (st3 & Hfields & [= <-])%bind_Done Hsilent.
  assert (H12 : later st st2) by (exists [EDebug (Verifying text dirname)];
                                   simpl; by rewrite Htrace).
  assert (H23 : extends st2 st3).
  { apply (verifyFields_advances w o (verifyPackage w o fuel)
             (verifyPackage_advances w o fuel) fields (manifest w dirname)
             dirname st2 st3).
    by rewrite Hfields. }
  destruct (silent_split st st2 _ Hsilent H12) as [_ Hs2].
  { apply (later_trans st2 st3); [by apply extends_later | apply later_emit]. }
  destruct (silent_split st2 st3 _ Hs2 (extends_later _ _ H23)
              (later_emit _ st3)) as [Hs23 _].
  destruct (verifyFields_sound w o (verifyPackage w o fuel)
              (verifyPackage_advances w o fuel)
              (verifyPackage_marks w o fuel) IH
              fields (manifest w dirname) dirname st2 st3 Hfields Hs23)
    as [Hok Hnew].
  intros d Hd. simpl in Hd.
  destruct (Hnew d Hd) as [Hd2 | Hdok]; [| by right].
  change (cache st2) with (cache st1) in Hd2. rewrite Hcache in Hd2.
  apply elem_of_union in Hd2 as [->%elem_of_singleton | Hd2];
    [by right | by left].
Qed.

(** A run of [verify] that returns without having reported an error has
    found the requested package, under its name, and has verified
    everything below it: the manifest of every directory visited in the run
    declares only dependencies that are passed over, or optional and absent,
    or installed in a visited directory with a valid version that satisfies
    the declared range. *)
Theorem silent_run_is_sound (w : World) (o : Options) (fuel : nat)
    (name dirname : string) (st st' : State) :
  verify w o fuel name dirname st = Done st' ->
  silent st st' ->
  exists moddir,
    resolve w name dirname = Some moddir /\
    moddir ∈ cache st' /\
    get_prop (manifest w moddir) "name" = Some (JStr name) /\
    new_packages_ok w st st'.
Proof.
  unfold verify. intros Hrun Hsilent.
  destruct (resolve w name dirname) as [moddir|] eqn:Hres.
  2: { destruct (error_Done_not_silent o _ st st st' (later_refl st)
                   Hrun Hsilent). }
  rewrite read_manifest in Hrun. set (st1 := emit (ERead _) _) in Hrun.
  assert (H1 : later st st1).
  { apply (later_trans st (debug (OpeningMain moddir) st)); apply later_emit. }
  destruct (strict_eq_num (manifest w moddir) (-1));
    [destruct (error_Done_not_silent o _ st st1 st' H1 Hrun Hsilent) |].
  destruct (strict_eq_num (manifest w moddir) (-2));
    [destruct (error_Done_not_silent o _ st st1 st' H1 Hrun Hsilent) |].
  destruct (get_prop (manifest w moddir) "name") as [pkgName|] eqn:Hname;
    [| done].
  destruct (strict_eq_str pkgName name) eqn:Heq; cbn [negb] in Hrun.
  2: { destruct (ToString w pkgName); [| done].
       destruct (error_Done_not_silent o _ st st1 st' H1 Hrun Hsilent). }
  destruct (_ || _);
    [destruct (error_Done_not_silent o _ st st1 st' H1 Hrun Hsilent) |].
  destruct (ToString w pkgName) as [text|]; [| done].
  set (st2 := debug (OpenedMain text) st1) in Hrun.
  assert (H2 : later st st2) by (apply (later_trans st st1), later_emit; done).
  assert (H3 : later st2 st').
  { apply extends_later.
    apply (verifyPackage_advances w o fuel (manifest w moddir) moddir st2 st').
    by rewrite Hrun. }
  destruct (silent_split st st2 st' Hsilent H2 H3) as [_ Hs2].
  exists moddir. split; [done |].
  split; [by apply (verifyPackage_marks w o fuel _ _ _ _ Hrun) |]. split.
  - destruct pkgName; try done. simpl in Heq.
    apply String.eqb_eq in Heq. by subst.
  - apply (new_packages_ok_same w st st2); [done |].
    by apply (verifyPackage_sound w o fuel moddir).
Qed.

(** The run on the cycle reports no error: [a] and [b] are in order. *)
Lemma silent_run_is_sound_witness :
  exists moddir,
    resolve world_cycle "a" "/proj" = Some moddir /\
    moddir ∈ cache cycle_final /\
    get_prop (manifest world_cycle moddir) "name" = Some (JStr "a") /\
    new_packages_ok world_cycle new_Verifier cycle_final.
Proof.
  refine (silent_run_is_sound world_cycle throw_options 7 "a" "/proj"
            new_Verifier cycle_final _ _).
  - vm_compute. reflexivity.
  - exists (trace cycle_final). split; reflexivity.
Defined.

(** ** The search paths on Windows *)

Lemma string_app_assoc (a b c : string) : (a +:+ b) +:+ c = a +:+ b +:+ c.
Proof. apply chars_inj. by rewrite !chars_app, <- app_assoc. Qed.

Lemma win32_loop_separator F (Q R : list ascii) c paths last p :
  is_win32_separator (code c) = true ->
  chars F = Q ++ c :: R ->
  getModulePaths_win32_loop F (S (List.length Q)) paths last p =
  getModulePaths_win32_loop F (List.length Q)
    (if negb (p =? nmLen) then paths ++ [slice0 F last +:+ "\node_modules"]
     else paths)
    (List.length Q) 0.
Proof.
  intros Hc H. simpl. by rewrite (charCodeAt_middle F Q R c H), Hc.
Qed.

Lemma win32_loop_scan (a : list ascii) : forall F (Q R : list ascii) paths last p,
  Forall (fun c => is_win32_separator (code c) = false) a ->
  chars F = Q ++ rev a ++ R ->
  getModulePaths_win32_loop F (List.length Q + List.length a) paths last p =
  getModulePaths_win32_loop F (List.length Q) paths last (scan p a).
Proof.
  induction a as [|c a IH]; intros F Q R paths last p Ha HF.
  - simpl. by rewrite Nat.add_0_r.
  - inversion Ha as [|? ? Hc Ha']; subst.
    simpl in HF. rewrite <- app_assoc in HF. simpl in HF.
    replace (List.length Q + List.length (c :: a))%nat
      with (S (List.length (Q ++ rev a))).
    2: { rewrite length_app, length_rev. simpl. lia. }
    assert (Hcode : charCodeAt F (List.length (Q ++ rev a)) = code c).
    { apply (charCodeAt_middle F (Q ++ rev a) R c).
      by rewrite <- app_assoc. }
    cbn [getModulePaths_win32_loop]. rewrite Hcode, Hc.
    replace (List.length (Q ++ rev a)) with (List.length Q + List.length a)%nat
      by (rewrite length_app, length_rev; lia).
    cbn [scan]. unfold scan_step.
    destruct (negb (p =? -1)).
    + case_bool_decide; apply (IH F Q (c :: R)); auto.
    + apply (IH F Q (c :: R)); auto.
Qed.

Lemma chars_win32_path_of segs :
  chars (win32_path_of segs)
  = concat (map (fun seg => "\"%char :: chars seg) segs).
Proof.
  induction segs as [|s segs IH]; [done |].
  change (win32_path_of (s :: segs)) with ("\" +:+ s +:+ win32_path_of segs).
  rewrite !chars_app, IH. reflexivity.
Qed.

Lemma win32_path_of_snoc segs seg :
  win32_path_of (segs ++ [seg]) = win32_path_of segs +:+ "\" +:+ seg.
Proof.
  apply chars_inj.
  rewrite !chars_app, !chars_win32_path_of, map_app, concat_app. simpl.
  by rewrite app_nil_r.
Qed.

Lemma win32_loop_ancestors (pre : string) (rsegs : list string) :
  forall F (R : list ascii) paths,
  Forall win32_segment rsegs ->
  chars F = chars (pre +:+ win32_path_of (rev rsegs)) ++ R ->
  getModulePaths_win32_loop F
    (List.length (chars (pre +:+ win32_path_of (rev rsegs)))) paths
    (List.length (chars (pre +:+ win32_path_of (rev rsegs)))) 0
  = getModulePaths_win32_loop F (List.length (chars pre))
      (paths ++ win32_cands pre rsegs) (List.length (chars pre)) 0.
Proof.
  induction rsegs as [|seg rest IH]; intros F R paths Hsegs HF.
  - simpl. rewrite app_nil_r.
    replace (pre +:+ "") with pre; [done |].
    apply chars_inj. by rewrite chars_app, app_nil_r.
  - inversion Hsegs as [|? ? [_ Hseg] Hrest]; subst.
    set (full := pre +:+ win32_path_of (rev (seg :: rest))) in *.
    assert (Hfull : chars full
      = chars (pre +:+ win32_path_of (rev rest)) ++ "\"%char :: chars seg).
    { unfold full. simpl rev. rewrite win32_path_of_snoc, !chars_app.
      by rewrite <- !app_assoc. }
    set (Q := chars (pre +:+ win32_path_of (rev rest))) in *.
    rewrite Hfull in HF. rewrite <- app_assoc in HF. simpl in HF.
    replace (List.length (chars full))
      with (List.length (Q ++ ["\"%char]) + List.length (rev (chars seg)))%nat
      by (rewrite Hfull, !length_app, length_rev; simpl; lia).
    rewrite (win32_loop_scan (rev (chars seg)) F (Q ++ ["\"%char]) R).
    2: { by apply Forall_rev. }
    2: { rewrite rev_involutive, <- app_assoc. exact HF. }
    replace (List.length (Q ++ ["\"%char])) with (S (List.length Q))
      by (rewrite length_app; simpl; lia).
    rewrite (win32_loop_separator F Q (chars seg ++ R) "\"%char)
      by (done || exact HF).
    rewrite scan_segment.
    replace (S (List.length Q) + List.length (rev (chars seg)))%nat
      with (List.length (chars full))
      by (rewrite Hfull, !length_app, length_rev; simpl; lia).
    rewrite (slice0_prefix F full R).
    2: { rewrite Hfull, <- app_assoc. exact HF. }
    rewrite (IH F ("\"%char :: chars seg ++ R)) by auto.
    cbn [win32_cands]. fold full.
    destruct (String.eqb seg "node_modules"); simpl; [done |].
    by rewrite <- app_assoc.
Qed.

Lemma win32_cands_ancestor_candidates drive segs :
  win32_cands (drive +:+ ":") (rev segs)
  = win32_ancestor_candidates drive segs.
Proof.
  induction segs as [|seg segs IH] using rev_ind; [done |].
  rewrite rev_app_distr. simpl rev. cbn [app win32_cands].
  unfold win32_ancestor_candidates. rewrite ancestors_snoc. cbn [List.filter].
  rewrite last_snoc, IH.
  change (rev (seg :: rev segs)) with (rev (rev segs) ++ [seg]).
  rewrite rev_involutive.
  destruct (String.eqb_spec seg "node_modules") as [->|Hne].
  - rewrite bool_decide_eq_true_2 by done. reflexivity.
  - rewrite bool_decide_eq_false_2 by congruence. cbn [negb map app].
    by rewrite !string_app_assoc.
Qed.

Lemma charCodeAtZ_last F (Q : list ascii) c :
  chars F = Q ++ [c] ->
  charCodeAtZ F (Z.of_nat (String.length F) - 1) = code c.
Proof.
  intros H. unfold charCodeAtZ.
  assert (Hlen : String.length F = S (List.length Q)).
  { rewrite <- chars_length, H, length_app. simpl. lia. }
  rewrite Hlen. replace (Z.of_nat (S (List.length Q)) - 1)
    with (Z.of_nat (List.length Q)) by lia.
  replace (Z.of_nat (List.length Q) <? 0) with false
    by (symmetry; apply Z.ltb_ge; lia).
  rewrite Nat2Z.id. by apply (charCodeAt_middle F Q []).
Qed.

(** On Windows, for a starting directory that [Path.resolve] turns into
    [drive:\s1\...\sn] with at least one segment, the candidates are
    [<ancestor>\node_modules] for the ancestors from the deepest up to
    [drive:\s1], but for those whose last segment is [node_modules], then
    [drive:\node_modules], then the global paths. *)
Theorem getModulePaths_win32_candidates (w : World)
    (userprofile : option string) (from drive : string)
    (segs : list string) :
  Path_resolve w [from] = drive +:+ ":" +:+ win32_path_of segs ->
  no_win32_separator drive ->
  Forall win32_segment segs ->
  segs <> [] ->
  getModulePaths_win32 w userprofile from
  = win32_ancestor_candidates drive segs
      ++ [drive +:+ ":\node_modules"]
      ++ globalPaths_win32 w userprofile.
Proof.
  intros Hfrom Hdrive Hsegs Hne. unfold getModulePaths_win32.
  rewrite Hfrom. set (F := drive +:+ ":" +:+ win32_path_of segs).
  assert (HF : F = (drive +:+ ":") +:+ win32_path_of segs).
  { apply chars_inj. unfold F. by rewrite !chars_app, <- app_assoc. }
  (* the last character is the last one of the last segment *)
  destruct segs as [|seg segs _] using rev_ind; [done |]. clear Hne.
  apply Forall_app in Hsegs as [Hsegs Hseg].
  inversion Hseg as [|? ? [Hseg_ne Hseg_chars] _]; subst.
  destruct (exists_last (l := chars seg)) as (cs0 & c0 & Hcs).
  { intros E. apply Hseg_ne, chars_inj. by rewrite E. }
  assert (Hlast : charCodeAtZ F (Z.of_nat (String.length F) - 1) = code c0).
  { apply (charCodeAtZ_last F
             (chars (drive +:+ ":" +:+ win32_path_of segs) ++ "\"%char :: cs0)).
    unfold F. rewrite win32_path_of_snoc, !chars_app, Hcs.
    by rewrite <- !app_assoc. }
  assert (Hc0 : is_win32_separator (code c0) = false).
  { unfold no_win32_separator in Hseg_chars. rewrite Hcs in Hseg_chars.
    by apply Forall_app in Hseg_chars as [_ [? _]%Forall_cons]. }
  assert (Hnot : (code c0 =? 92) = false).
  { unfold is_win32_separator in Hc0.
    by apply orb_false_iff in Hc0 as [[? _]%orb_false_iff _]. }
  rewrite Hlast, Hnot. cbn [andb].
  (* the loop: the segments, the colon, the drive *)
  assert (Hall : Forall win32_segment (rev (segs ++ [seg]))).
  { apply Forall_rev, Forall_app. split; [done |].
    constructor; [| constructor]. by split. }
  rewrite <- (chars_length F).
  pose proof (win32_loop_ancestors (drive +:+ ":") (rev (segs ++ [seg]))
                F [] [] Hall) as Hloop.
  rewrite rev_involutive, <- HF, app_nil_r in Hloop.
  rewrite (Hloop eq_refl). clear Hloop.
  assert (Hpre : chars (drive +:+ ":") = chars drive ++ [":"%char])
    by (by rewrite chars_app).
  assert (HFc : chars F
    = chars drive ++ ":"%char :: chars (win32_path_of (segs ++ [seg]))).
  { unfold F. by rewrite !chars_app. }
  replace (List.length (chars (drive +:+ ":")))
    with (S (List.length (chars drive)))
    by (rewrite Hpre, length_app; simpl; lia).
  rewrite (win32_loop_separator F (chars drive)
             (chars (win32_path_of (segs ++ [seg]))) ":"%char)
    by (done || exact HFc).
  change (negb (0 =? nmLen)) with true. cbn [negb].
  replace (S (List.length (chars drive)))
    with (List.length (chars (drive +:+ ":")))
    by (rewrite Hpre, length_app; simpl; lia).
  rewrite (slice0_prefix F (drive +:+ ":")
             (chars (win32_path_of (segs ++ [seg])))).
  2: { by rewrite HF, chars_app. }
  pose proof (win32_loop_scan (rev (chars drive)) F []
                (":"%char :: chars (win32_path_of (segs ++ [seg])))) as Hscan.
  simpl List.length in Hscan. rewrite length_rev in Hscan.
  rewrite Hscan; [| by apply Forall_rev | by rewrite rev_involutive].
  simpl getModulePaths_win32_loop.
  rewrite win32_cands_ancestor_candidates.
  assert (Happ : (drive +:+ ":") +:+ "\node_modules"
                 = drive +:+ ":\node_modules").
  { apply chars_inj. by rewrite !chars_app, <- app_assoc. }
  rewrite Happ. by rewrite <- !app_assoc.
Qed.

Lemma getModulePaths_win32_candidates_witness :
  getModulePaths_win32 world_win32 None "C:\proj\node_modules\left-pad"
  = ["C:\proj\node_modules\left-pad\node_modules";
     "C:\proj\node_modules"; "C:\node_modules"; "node"].
Proof.
  refine (eq_trans (getModulePaths_win32_candidates world_win32 None
    "C:\proj\node_modules\left-pad" "C" ["proj"; "node_modules"; "left-pad"]
    _ _ _ _) _).
  - reflexivity.
  - unfold no_win32_separator. repeat constructor.
  - unfold win32_segment, no_win32_separator.
    repeat constructor; discriminate.
  - discriminate.
  - reflexivity.
Defined.

(** * The first verifier *)

(** ** The path of the manifest *)

Lemma substring_chars n m s :
  chars (substring n m s) = take m (drop n (chars s)).
Proof.
  revert n m. induction s as [|c s IH]; intros [|n] [|m]; simpl; try done.
  by rewrite (IH 0%nat m), drop_0.
Qed.

Lemma slice_last12_chars s :
  chars (slice_last12 s) = drop (String.length s - 12) (chars s).
Proof.
  unfold slice_last12. rewrite substring_chars. apply take_ge.
  rewrite length_drop, chars_length. lia.
Qed.

Lemma slice_last12_suffix (x : string) :
  slice_last12 (x +:+ "/package.json") = "package.json".
Proof.
  apply chars_inj. rewrite slice_last12_chars, <- chars_length, chars_app.
  change (chars "/package.json") with ("/"%char :: chars "package.json").
  rewrite length_app.
  change (List.length ("/"%char :: chars "package.json")) with 13%nat.
  rewrite drop_app_ge by lia.
  replace (List.length (chars x) + 13 - 12 - List.length (chars x))%nat
    with 1%nat by lia.
  reflexivity.
Qed.

Lemma slice_last12_last (x : string) (c : ascii) :
  last (chars (slice_last12 (x +:+ String c ""))) = Some c.
Proof.
  rewrite slice_last12_chars, <- chars_length, chars_app.
  change (chars (String c "")) with [c].
  rewrite length_app. simpl List.length.
  rewrite drop_app_le by lia. apply last_snoc.
Qed.

Lemma get_last (x : string) (c : ascii) :
  String.get (String.length (x +:+ String c "") - 1) (x +:+ String c "")
  = Some c.
Proof.
  rewrite get_chars, <- chars_length, chars_app, length_app. simpl.
  rewrite lookup_app_r by lia.
  replace (List.length (chars x) + 1 - 1 - List.length (chars x))%nat
    with 0%nat by lia.
  reflexivity.
Qed.

Lemma slice_but_last_snoc (x : string) (c : ascii) :
  slice_but_last (x +:+ String c "") = x.
Proof.
  apply chars_inj. unfold slice_but_last.
  rewrite substring_chars, drop_0, <- chars_length, chars_app, length_app.
  simpl. replace (List.length (chars x) + 1 - 1)%nat
    with (List.length (chars x)) by lia.
  apply take_app_length.
Qed.

(** The path of the manifest that the first [verify] makes of its [file]
    argument always ends in [package.json], and making it again changes
    nothing; a directory gives the same path with or without a trailing
    slash, [<directory>/package.json]. *)
Theorem manifest_path_spec (file : string) :
  slice_last12 (manifest_path file) = "package.json" /\
  manifest_path (manifest_path file) = manifest_path file /\
  (slice_last12 file <> "package.json" ->
   String.get (String.length file - 1) file <> Some "/"%char ->
   manifest_path file = file +:+ "/package.json" /\
   manifest_path (file +:+ "/") = file +:+ "/package.json").
Proof.
  assert (Hends : slice_last12 (manifest_path file) = "package.json").
  { unfold manifest_path.
    destruct (String.eqb_spec (slice_last12 file) "package.json") as [E|E];
      [done |]. apply slice_last12_suffix. }
  split; [exact Hends |]. split.
  - unfold manifest_path at 1. by rewrite Hends, String.eqb_refl.
  - intros Hno Hslash. split.
    + unfold manifest_path. apply String.eqb_neq in Hno. rewrite Hno.
      by rewrite bool_decide_eq_false_2.
    + unfold manifest_path.
      assert (Hne : slice_last12 (file +:+ "/") <> "package.json").
      { intros E. pose proof (slice_last12_last file "/"%char) as Hl.
        rewrite E in Hl. discriminate Hl. }
      apply String.eqb_neq in Hne. rewrite Hne. cbn [negb].
      rewrite bool_decide_eq_true_2 by apply get_last.
      by rewrite slice_but_last_snoc.
Qed.

Example manifest_path_examples :
  manifest_path "/proj" = "/proj/package.json" /\
  manifest_path "/proj/" = "/proj/package.json" /\
  manifest_path "/proj/package.json" = "/proj/package.json" /\
  manifest_path "/proj/bower-package.json" = "/proj/bower-package.json" /\
  manifest_path "" = "/package.json".
Proof. repeat split; reflexivity. Qed.

(** ** The cache of the process *)

(** A package the first [verify] has accepted is remembered: the cache it
    leaves holds the resolved path of the manifest and what it held before;
    and any later call, for any file whose manifest resolves to that path
    and from any cache that has grown from the one left, returns at once
    with the cache as it is, whatever [require] loads by then and whatever
    the versions are. *)
Theorem verified_once (w w' : World) (R R' : Require) (file file' : string)
    (cache cache' cache'' : gset string) (key : string) :
  require_resolve R (manifest_path file) = Resolved key ->
  verify_v1 w R file cache = inl cache' ->
  cache' = {[key]} ∪ cache /\
  (require_resolve R' (manifest_path file') = Resolved key ->
   cache' ⊆ cache'' ->
   verify_v1 w' R' file' cache'' = inl cache'').
Proof.
  intros Hres Hrun.
  assert (Hcache : cache' = {[key]} ∪ cache).
  { revert Hrun. unfold verify_v1. rewrite Hres. case_bool_decide as Hin.
    - intros [= <-]. set_solver.
    - destruct (require_load R (manifest_path file)) as [pkg| |];
        [| done | done].
      destruct (_ || _); [done |].
      destruct (verifyFields_v1 w R fields pkg); [| done].
      by intros [= <-]. }
  split; [exact Hcache |].
  intros Hres' Hsub. unfold verify_v1. rewrite Hres'.
  rewrite bool_decide_eq_true_2 by set_solver. done.
Qed.

(** After [left-pad] has been removed and another manifest has been
    verified, the project still passes, also when it is named by the path
    of its manifest: it is in the cache. *)
Lemma verified_once_witness :
  verify_v1 world_A require_removed "/proj/package.json"
    ({["/other/package.json"]} ∪ ({["/proj/package.json"]} ∪ ∅))
  = inl ({["/other/package.json"]} ∪ ({["/proj/package.json"]} ∪ ∅)).
Proof.
  refine (proj2 (verified_once world_A world_A require_A require_removed
    "/proj" "/proj/package.json" ∅ ({["/proj/package.json"]} ∪ ∅)
    ({["/other/package.json"]} ∪ ({["/proj/package.json"]} ∪ ∅))
    "/proj/package.json" _ _) _ _).
  - reflexivity.
  - vm_compute. reflexivity.
  - reflexivity.
  - apply union_subseteq_r.
Defined.

(** Without the cache, the removal is found. *)
Example removed_dependency_found :
  verify_v1 world_A require_removed "/proj" ∅
  = inr (Error1Msg "Missing dependency: left-pad@^1.0.0.").
Proof. vm_compute. reflexivity. Qed.

(** ** What the first verifier accepts *)

Lemma verifyDep_v1_ok w R field deps name :
  verifyDep_v1 w R field deps name = Ok1 <->
  dependency_ok_v1 w R field deps name.
Proof.
  unfold verifyDep_v1, dependency_ok_v1, skipped.
  case_bool_decide as Hat; [split; [by left | done] |].
  destruct (has_scheme name) eqn:Hurl; [split; [by left | done] |].
  cbn [orb].
  destruct (get_prop deps name) as [v|] eqn:Hrange.
  2: { split; [done |]. intros [? | (range & ? & _)]; done. }
  destruct v as [| | | |range| |];
    try (split; [done |]; intros [? | (range & ? & _)]; done).
  destruct (require_resolve R name) as [key| |] eqn:Hres.
  - destruct (require_load R (name +:+ "/package.json")) as [pkg| |] eqn:Hload.
    2, 3: split; [done |];
      intros [? | (range' & _ & [[? _] | (? & ? & ? & _ & ? & _)])]; done.
    destruct (truthy pkg) eqn:Ht; cbn [negb].
    2: { split; [done |].
         intros [? | (range' & _ & [[? _] | (k & p & i & _ & Hl & Hv & _)])];
           try done.
         injection Hl as <-. by destruct pkg. }
    destruct (get_prop pkg "version") as [v|] eqn:Hversion.
    2: { split; [done |].
         intros [? | (range' & _ & [[? _] | (k & p & i & _ & Hl & Hv & _)])];
           try done.
         injection Hl as <-. congruence. }
    destruct v as [| | | |installed| |];
      try (split; [done |];
           intros [? | (range' & _ & [[? _] | (k & p & i & _ & Hl & Hv & _)])];
           try done; injection Hl as <-; congruence).
    destruct (semver_valid w installed) eqn:Hvalid; cbn [negb].
    2: { split; [done |].
         intros [? | (range' & _ &
                      [[? _] | (k & p & i & _ & Hl & Hv & Hva & _)])];
           try done.
         injection Hl as <-. congruence. }
    destruct (semver_satisfies w installed range) eqn:Hsat; cbn [negb].
    2: { split; [done |].
         intros [? | (range' & [= <-] &
                      [[? _] | (k & p & i & _ & Hl & Hv & _ & Hsa)])];
           try done.
         injection Hl as <-. congruence. }
    split; [| done]. intros _. right. exists range. split; [done |]. right.
    by exists key, pkg, installed.
  - destruct (String.eqb_spec field "optionalDependencies") as [->|Hf];
      cbn [negb].
    + split; [| done]. intros _. right. exists range. split; [done |]. by left.
    + split; [done |].
      intros [? | (range' & _ & [[_ ?] | (? & ? & ? & ? & _)])]; done.
  - split; [done |].
    intros [? | (range' & _ & [[? _] | (? & ? & ? & ? & _)])]; done.
Qed.

Lemma verifyDeps_v1_accepts (w : World) (R : Require) (field : string)
    (deps : JSValue) :
  verifyDeps_v1 w R field deps = Ok1 <->
  Forall (dependency_ok_v1 w R field deps) (Object_keys deps).
Proof.
  unfold verifyDeps_v1. induction (Object_keys deps) as [|name rest IH].
  - split; [constructor | done].
  - cbn [verifyDeps_v1_loop].
    destruct (verifyDep_v1 w R field deps name) eqn:Hdep.
    + apply verifyDep_v1_ok in Hdep. rewrite IH. split.
      * by constructor.
      * intros H. by inversion H.
    + split; [done |]. intros H. inversion H as [|? ? Hok _]; subst.
      apply verifyDep_v1_ok in Hok. congruence.
Qed.

Lemma verifyFields_v1_accepts w R fs pkg :
  verifyFields_v1 w R fs pkg = Ok1 <-> Forall (field_ok_v1 w R pkg) fs.
Proof.
  induction fs as [|field rest IH]; [split; [constructor | done] |].
  cbn [verifyFields_v1].
  assert (Hhead : forall (P : Prop),
    (field_ok_v1 w R pkg field -> P) ->
    Forall (field_ok_v1 w R pkg) (field :: rest) -> P).
  { intros P HP H. inversion H; subst. by apply HP. }
  destruct (get_prop pkg field) as [deps|] eqn:Hdeps.
  2: { split; [done |]. apply Hhead. intros (d & Hd & _). congruence. }
  destruct (truthy deps) eqn:Ht; cbn [negb].
  2: { rewrite IH. split.
       - intros H. constructor; [| done]. exists deps. split; [done | by left].
       - intros H. by inversion H. }
  destruct (String.eqb_spec (typeof deps) "object") as [Hobj|Hobj]; cbn [negb].
  2: { split; [done |]. apply Hhead.
       intros (d & Hd & [Hf | [Hty _]]); rewrite Hdeps in Hd;
         injection Hd as <-; congruence. }
  destruct (verifyDeps_v1 w R field deps) eqn:Hloop.
  - apply verifyDeps_v1_accepts in Hloop. rewrite IH. split.
    + intros H. constructor; [| done]. exists deps. split; [done |]. by right.
    + intros H. by inversion H.
  - split; [done |]. apply Hhead.
    intros (d & Hd & [Hf | [_ Hall]]); rewrite Hdeps in Hd;
      injection Hd as <-; [congruence |].
    apply verifyDeps_v1_accepts in Hall. congruence.
Qed.

(** The first [verify] returns exactly when the manifest resolves and is
    either in the cache, which is left as it is, or loads as an object all
    of whose dependency fields are in order (absent or falsy, or a map
    whose every dependency is passed over, or optional and not found, or
    found with a valid version that satisfies its range), and the resolved
    path is then added to the cache. In every other case it throws. *)
Theorem verify_v1_accepts (w : World) (R : Require) (file : string)
    (cache cache' : gset string) :
  verify_v1 w R file cache = inl cache' <->
  exists key,
    require_resolve R (manifest_path file) = Resolved key /\
    (((key ∈ cache) /\ cache' = cache) \/
     ((key ∉ cache) /\ cache' = {[key]} ∪ cache /\
      exists pkg,
        require_load R (manifest_path file) = Loaded pkg /\
        not_an_object pkg = false /\
        Forall (field_ok_v1 w R pkg) fields)).
Proof.
  unfold verify_v1.
  destruct (require_resolve R (manifest_path file)) as [key| |].
  2, 3: split; [done | by intros (key & ? & _)].
  case_bool_decide as Hin.
  - split.
    + intros [= <-]. exists key. split; [done |]. by left.
    + intros (key' & [= <-] & [[_ ->] | [Hnot _]]); done.
  - destruct (require_load R (manifest_path file)) as [pkg| |].
    2, 3: split; [done |];
      intros (key' & [= <-] & [[? _] | (_ & _ & pkg & ? & _)]); done.
    fold (not_an_object pkg). destruct (not_an_object pkg) eqn:Hobj.
    { split; [done |].
      intros (key' & [= <-] & [[? _] | (_ & _ & pkg' & [= <-] & ? & _)]);
        [done | congruence]. }
    destruct (verifyFields_v1 w R fields pkg) eqn:Hfields.
    + apply verifyFields_v1_accepts in Hfields. split.
      * intros [= <-]. exists key. split; [done |]. right.
        split; [done |]. split; [done |]. by exists pkg.
      * intros (key' & [= <-] & [[? _] | (_ & -> & _)]); done.
    + split; [done |].
      intros (key' & [= <-] & [[? _] | (_ & _ & pkg' & [= <-] & _ & Hall)]);
        [done |].
      apply verifyFields_v1_accepts in Hall. congruence.
Qed.

(** ** A dependency in order is not reported *)

(** The body of the loop of [verifyDeps] reports nothing of its own for a
    dependency that is in order: it ends without an error, or it goes on,
    without an error, to the recursive step on the manifest and the
    directory of the dependency. *)
Theorem satisfied_dependency_not_reported (w : World) (o : Options)
    (rec : JSValue -> string -> State -> Outcome) (visited : gset string)
    (field : string) (deps : JSValue) (dirname name : string) (st : State) :
  dependency_ok w visited field deps dirname name ->
  exists st2,
    silent st st2 /\ cache st2 = cache st /\
    (verifyDep w o rec field deps dirname name st = Done st2 \/
     exists moddir,
       resolve w name dirname = Some moddir /\
       verifyDep w o rec field deps dirname name st
       = rec (manifest w moddir) moddir st2).
Proof.
  intros Hok. destruct (skipped name) eqn:Hs.
  { exists st. split; [apply silent_refl |]. split; [done |]. left.
    by apply verifyDep_skipped. }
  destruct Hok as [? | (expect & Hne & Hexpect & Hcase)]; [congruence |].
  assert (Hname : resolvable_name name).
  { unfold skipped in Hs. apply orb_false_iff in Hs as [Hat Hurl].
    repeat split; [by destruct name | | done].
    intros E. by rewrite bool_decide_eq_true_2 in Hat. }
  rewrite (verifyDep_resolves w o rec field deps dirname name expect st
             Hname Hexpect).
  destruct Hcase as [[-> ->] | (moddir & version & -> & Hv & Hvalid & Hsat & _)].
  - exists (debug (MissingOptionalDependency name expect) st).
    split; [by apply silent_emit |]. split; [done |]. by left.
  - rewrite read_manifest.
    destruct (string_version_manifest _ version Hv) as [Ht Hn].
    rewrite !Hn, Ht, Hv, Hvalid, Hsat. cbn [negb bind].
    eexists. split; [| split; [| right; exists moddir; split; done]].
    + apply (silent_trans st (debug (OpeningSub moddir) st)).
      { by apply silent_emit. }
      apply (silent_trans _ (emit (ERead (Path_resolve w [moddir; "package.json"]))
                               (debug (OpeningSub moddir) st))).
      { by apply silent_emit. }
      by apply silent_emit.
    + done.
Qed.

(** Scenario A at the body of the loop. *)
Lemma satisfied_dependency_not_reported_witness :
  exists st2,
    silent new_Verifier st2 /\ cache st2 = cache new_Verifier /\
    (verifyDep world_A throw_options (verifyPackage world_A throw_options 3)
       "dependencies" (JObj [("left-pad", JStr "^1.0.0")]) "/proj" "left-pad"
       new_Verifier = Done st2 \/
     exists moddir,
       resolve world_A "left-pad" "/proj" = Some moddir /\
       verifyDep world_A throw_options (verifyPackage world_A throw_options 3)
         "dependencies" (JObj [("left-pad", JStr "^1.0.0")]) "/proj" "left-pad"
         new_Verifier
       = verifyPackage world_A throw_options 3 (manifest world_A moddir)
           moddir st2).
Proof.
  refine (satisfied_dependency_not_reported world_A throw_options
    (verifyPackage world_A throw_options 3)
    {["/proj/node_modules/left-pad"]} "dependencies"
    (JObj [("left-pad", JStr "^1.0.0")]) "/proj" "left-pad" new_Verifier _).
  right. exists "^1.0.0". split; [discriminate |]. split; [reflexivity |].
  right. exists "/proj/node_modules/left-pad", "1.2.0".
  repeat split; reflexivity.
Defined.

(** ** The root of a drive *)

(** On Windows, from the root of a drive, [drive:\], the one candidate
    before the global paths is [drive:\node_modules]. *)
Theorem getModulePaths_win32_root (w : World) (userprofile : option string)
    (from drive : string) :
  Path_resolve w [from] = drive +:+ ":\" ->
  getModulePaths_win32 w userprofile from
  = (drive +:+ ":\node_modules") :: globalPaths_win32 w userprofile.
Proof.
  intros Hfrom. unfold getModulePaths_win32. rewrite Hfrom.
  set (F := drive +:+ ":\").
  assert (HF : chars F = chars drive ++ [":"%char; "\"%char])
    by (unfold F; by rewrite chars_app).
  assert (Hlen : String.length F = S (S (List.length (chars drive)))).
  { rewrite <- chars_length, HF, length_app. simpl. lia. }
  assert (H1 : charCodeAtZ F (Z.of_nat (String.length F) - 1) = 92).
  { apply (charCodeAtZ_last F (chars drive ++ [":"%char]) "\"%char).
    by rewrite HF, <- app_assoc. }
  assert (H2 : charCodeAtZ F (Z.of_nat (String.length F) - 2) = 58).
  { unfold charCodeAtZ. rewrite Hlen.
    replace (Z.of_nat (S (S (List.length (chars drive)))) - 2)
      with (Z.of_nat (List.length (chars drive))) by lia.
    replace (Z.of_nat (List.length (chars drive)) <? 0) with false
      by (symmetry; apply Z.ltb_ge; lia).
    rewrite Nat2Z.id.
    apply (charCodeAt_middle F (chars drive) ["\"%char] ":"%char HF). }
  rewrite H1, H2. cbn [Z.eqb Pos.eqb andb]. f_equal.
  unfold F. apply chars_inj. by rewrite !chars_app, <- app_assoc.
Qed.

Lemma getModulePaths_win32_root_witness :
  getModulePaths_win32 world_win32 None "C:\" = ["C:\node_modules"; "node"].
Proof.
  refine (eq_trans (getModulePaths_win32_root world_win32 None "C:\" "C" _) _);
    reflexivity.
Defined.

(** ** The global paths on Windows *)

(** On Windows, the global paths are the non-empty entries of [NODE_PATH],
    split at [;], in order, then [.node_modules] and [.node_libraries] of
    [USERPROFILE] when it is set, then [lib\node] one level above the
    executable. *)
Theorem globalPaths_win32_entries (w : World) (userprofile : option string)
    (parts : list string) :
  node_path_entries_win32 w parts ->
  Forall (fun part => Forall (fun c => c <> ";"%char) (chars part)) parts ->
  globalPaths_win32 w userprofile
  = List.filter nonempty parts
      ++ userprofile_library_dirs w userprofile
      ++ [Path_resolve w [Path_resolve w [process_execPath w; ".."];
                          "lib"; "node"]].
Proof.
  unfold node_path_entries_win32, globalPaths_win32, userprofile_library_dirs.
  intros Hnode Hparts.
  set (lib := Path_resolve w _).
  set (paths := match userprofile with
                | Some h => if nonempty h then _ else [lib]
                | None => [lib]
                end).
  assert (Hpaths : paths
    = match userprofile with
      | Some home =>
          if nonempty home
          then [Path_resolve w [home; ".node_modules"];
                Path_resolve w [home; ".node_libraries"]]
          else []
      | None => []
      end ++ [lib]).
  { unfold paths. destruct userprofile as [h|]; [destruct (nonempty h) |];
      reflexivity. }
  rewrite <- Hpaths. clearbody paths. clear Hpaths.
  destruct (env_NODE_PATH w) as [node|].
  - subst node. destruct (nonempty (String.concat ";" parts)) eqn:Hne.
    + destruct parts as [|part parts]; [discriminate |].
      by rewrite split_concat.
    + apply negb_false_iff, String.eqb_eq in Hne.
      destruct parts as [|part [|part' parts]]; simpl in *.
      * reflexivity.
      * subst part. reflexivity.
      * apply (f_equal chars) in Hne. rewrite chars_app in Hne.
        apply (f_equal List.length) in Hne. rewrite length_app in Hne.
        simpl in Hne. lia.
  - subst parts. reflexivity.
Qed.

Lemma globalPaths_win32_entries_witness :
  globalPaths_win32 world_win32_paths (Some "C:\Users\u")
  = ["C:\lib"; "D:\lib"; "C:\Users\u\.node_modules";
     "C:\Users\u\.node_libraries"; "C:\node\node.exe\..\lib\node"].
Proof.
  refine (eq_trans (globalPaths_win32_entries world_win32_paths
    (Some "C:\Users\u") ["C:\lib"; ""; "D:\lib"] _ _) _).
  - reflexivity.
  - repeat constructor; discriminate.
  - reflexivity.
Defined.

(** ** What a normal return means *)

Lemma verify_Done_silent w o fuel name dirname st st' :
  never_returns o ->
  verify w o fuel name dirname st = Done st' -> silent st st'.
Proof.
  intros Hnever.
  set (P := fun (st0 : State) (r : Outcome) =>
    forall st1, r = Done st1 -> silent st0 st1).
  assert (HP : P st (verify w o fuel name dirname st)); [| exact (HP st')].
  apply (verify_run w o P (fun _ => True)); try done.
  - intros st0 st1 [= <-]. apply silent_refl.
  - intros m st0 st1.
    destruct (error_never_returns o m st0 Hnever) as (e & -> & _). done.
  - intros e st0 r He Hr st1 Hd.
    apply (silent_trans st0 (emit e st0)); [by apply silent_emit | by apply Hr].
  - intros d st0 r _ _ Hr st1 Hd.
    apply (silent_trans st0 (mark w d st0)); [| by apply Hr].
    apply silent_same_trace. unfold mark. by destruct (hasBinding w d).
  - intros st0 [st1|st1 e|] k Hr Hk st2; simpl; [| done | done].
    intros Hd. apply (silent_trans st0 st1); [by apply Hr | by apply (Hk st1)].
Qed.

(** Under a policy that never returns, as that of the exported [verify],
    [exit] and [stop], a normal return from a fresh [Verifier] means that
    the requested package was found under its name and that all that was
    visited is in order: for every visited directory, every dependency its
    manifest declares is passed over, or optional and absent, or installed
    in a visited directory with a valid version that satisfies the range. *)
Theorem normal_return_means_satisfied (w : World) (o : Options) (fuel : nat)
    (dirname name : string) (st' : State) :
  never_returns o ->
  verify w o fuel name dirname new_Verifier = Done st' ->
  exists moddir,
    resolve w name dirname = Some moddir /\
    moddir ∈ cache st' /\
    get_prop (manifest w moddir) "name" = Some (JStr name) /\
    forall d, d ∈ cache st' -> package_ok w (cache st') (manifest w d) d.
Proof.
  intros Hnever Hrun.
  pose proof (verify_Done_silent w o fuel name dirname _ st' Hnever Hrun)
    as Hsilent.
  revert Hrun. unfold verify. intros Hrun.
  destruct (resolve w name dirname) as [moddir|] eqn:Hres.
  2: { destruct (error_Done_not_silent o _ new_Verifier new_Verifier st'
                   (later_refl _) Hrun Hsilent). }
  rewrite read_manifest in Hrun. set (st1 := emit (ERead _) _) in Hrun.
  assert (H1 : later new_Verifier st1).
  { apply (later_trans _ (debug (OpeningMain moddir) new_Verifier));
      apply later_emit. }
  destruct (strict_eq_num (manifest w moddir) (-1));
    [destruct (error_Done_not_silent o _ _ st1 st' H1 Hrun Hsilent) |].
  destruct (strict_eq_num (manifest w moddir) (-2));
    [destruct (error_Done_not_silent o _ _ st1 st' H1 Hrun Hsilent) |].
  destruct (get_prop (manifest w moddir) "name") as [pkgName|] eqn:Hname;
    [| done].
  destruct (strict_eq_str pkgName name) eqn:Heq; cbn [negb] in Hrun.
  2: { destruct (ToString w pkgName); [| done].
       destruct (error_Done_not_silent o _ _ st1 st' H1 Hrun Hsilent). }
  destruct (_ || _);
    [destruct (error_Done_not_silent o _ _ st1 st' H1 Hrun Hsilent) |].
  destruct (ToString w pkgName) as [text|]; [| done].
  set (st2 := debug (OpenedMain text) st1) in Hrun.
  assert (H2 : later new_Verifier st2)
    by (apply (later_trans _ st1), later_emit; done).
  assert (H3 : later st2 st').
  { apply extends_later.
    apply (verifyPackage_advances w o fuel (manifest w moddir) moddir st2 st').
    by rewrite Hrun. }
  destruct (silent_split _ st2 st' Hsilent H2 H3) as [_ Hs2].
  exists moddir. split; [done |].
  split; [by apply (verifyPackage_marks w o fuel _ _ _ _ Hrun) |]. split.
  - destruct pkgName; try done. simpl in Heq.
    apply String.eqb_eq in Heq. by subst.
  - intros d Hd.
    destruct (verifyPackage_sound w o fuel moddir st2 st' Hrun Hs2 d Hd)
      as [Hin | Hok]; [| done].
    by apply not_elem_of_empty in Hin.
Qed.

(** The exported [verify] on the cycle. *)
Lemma normal_return_means_satisfied_witness :
  exists moddir,
    resolve world_cycle "a" "/proj" = Some moddir /\
    moddir ∈ cache cycle_final /\
    get_prop (manifest world_cycle moddir) "name" = Some (JStr "a") /\
    forall d, d ∈ cache cycle_final ->
      package_ok world_cycle (cache cycle_final) (manifest world_cycle d) d.
Proof.
  refine (normal_return_means_satisfied world_cycle throw_options 7 "/proj"
            "a" cycle_final _ _).
  - exact I.
  - vm_compute. reflexivity.
Defined.

Example exported_verify_cycle :
  exported_verify world_cycle 7 "/proj" "a" = Done cycle_final.
Proof. vm_compute. reflexivity. Qed.

(** The policies of the exported functions. *)
Lemma exported_policies :
  never_returns throw_options /\ never_returns exit_options /\
  never_returns stop_options /\ always_returns warn_options.
Proof. repeat split; try done. by eexists. Qed.
